(** * Community board data-access layer: netlify/functions/community/index.cjs

    A shallow embedding of the request handlers of the community board
    (posts, comments, likes, bookmarks, category and tag indices kept by
    hand in a Redis key-value store) and the properties of the design
    document checked against them.

    Conventions of the embedding.
    - Text is [string] (a sequence of bytes).  Case folding and trimming
      act on the ASCII range; other bytes pass through unchanged.
    - Request fields have the types the client's [CommunityPost] interface
      gives them ([string], [string[]]); a field the body omits is [None].
    - Every key template of index.cjs is used with a single Redis type, so
      the keyspace is split by type: hashes of posts, hashes of comments,
      lists and sets, each keyed by the template that names it.  The
      templates are injective and pairwise disjoint as long as identifiers
      hold no colon ([key_name_inj]), which is the case of the ids [nanoid]
      produces.
    - The store client hands back a hash as it was written.
    - [nanoid()] and [new Date().toISOString()] are arguments of the handler
      that calls them. *)

From Stdlib Require Import Ascii String.
From stdpp Require Import base option list strings gmap sets fin_maps sorting.

Local Open Scope string_scope.
#[local] Set Warnings "-clear-no-such-hyp".

(** ** JavaScript strings *)

Module JsString.

Definition code (c : ascii) : nat := nat_of_ascii c.

(** White space removed by [String.prototype.trim], ASCII range. *)
Definition is_white (c : ascii) : bool :=
  let n := code c in
  (Nat.leb 9 n && Nat.leb n 13) || Nat.eqb n 32.

Fixpoint trimStart (s : string) : string :=
  match s with
  | String c s' => if is_white c then trimStart s' else s
  | EmptyString => EmptyString
  end.

Fixpoint trimEnd (s : string) : string :=
  match s with
  | String c s' =>
      match trimEnd s' with
      | EmptyString => if is_white c then EmptyString else String c EmptyString
      | t => String c t
      end
  | EmptyString => EmptyString
  end.

Definition trim (s : string) : string := trimEnd (trimStart s).

Definition lower_char (c : ascii) : ascii :=
  let n := code c in
  if Nat.leb 65 n && Nat.leb n 90 then ascii_of_nat (n + 32) else c.

Fixpoint toLowerCase (s : string) : string :=
  match s with
  | String c s' => String (lower_char c) (toLowerCase s')
  | EmptyString => EmptyString
  end.

(** [hay.includes(needle)] *)
Fixpoint includes (hay needle : string) : bool :=
  String.prefix needle hay
  || match hay with
     | String _ hay' => includes hay' needle
     | EmptyString => false
     end.

Fixpoint split_go (sep : ascii) (cur s : string) : list string :=
  match s with
  | String c s' =>
      if Ascii.eqb c sep then cur :: split_go sep EmptyString s'
      else split_go sep (cur +:+ String c EmptyString) s'
  | EmptyString => [cur]
  end.

(** [s.split(sep)] for a separator of one character. *)
Definition split (sep : ascii) (s : string) : list string :=
  split_go sep EmptyString s.

(** Truthiness of a string value: only the empty string is falsy. *)
Definition truthy (s : string) : bool :=
  match s with EmptyString => false | String _ _ => true end.

(** Truthiness of a field that may be [undefined]. *)
Definition truthy_opt (o : option string) : bool :=
  match o with Some s => truthy s | None => false end.

(** [a || b] on string values. *)
Definition or_else (a b : string) : string := if truthy a then a else b.

End JsString.

(** ** JSON text of an array of strings

    [stringify] follows QuoteJSONString of ECMA-262; [parse] reads an array
    of string literals with the white space and the escapes JSON allows.
    An escape [\uXXXX] above the ASCII range has no image in a byte string
    and a text holding anything but an array of strings is not one a handler
    writes: [parse] answers [None] on both, which is where the handlers'
    [catch] paths are taken. *)

Module JSON.

Import JsString.

Definition dquote : ascii := ascii_of_nat 34.
Definition backslash : ascii := ascii_of_nat 92.

Definition hex_digit (n : nat) : ascii :=
  if Nat.ltb n 10 then ascii_of_nat (48 + n) else ascii_of_nat (87 + n).

Definition esc (c : ascii) : string := String backslash (String c EmptyString).

Definition quote_char (c : ascii) : string :=
  let n := code c in
  if Nat.eqb n 8 then esc "b"
  else if Nat.eqb n 9 then esc "t"
  else if Nat.eqb n 10 then esc "n"
  else if Nat.eqb n 12 then esc "f"
  else if Nat.eqb n 13 then esc "r"
  else if Nat.eqb n 34 then esc dquote
  else if Nat.eqb n 92 then esc backslash
  else if Nat.ltb n 32 then
    String backslash
      (String "u" (String "0" (String "0"
         (String (hex_digit (n / 16)) (String (hex_digit (n mod 16)) EmptyString)))))
  else String c EmptyString.

Fixpoint quote_body (s : string) : string :=
  match s with
  | String c s' => quote_char c +:+ quote_body s'
  | EmptyString => EmptyString
  end.

Definition quote (s : string) : string :=
  String dquote (quote_body s +:+ String dquote EmptyString).

Fixpoint join_quoted (l : list string) : string :=
  match l with
  | [] => EmptyString
  | [x] => quote x
  | x :: l' => quote x +:+ String "," (join_quoted l')
  end.

(** [JSON.stringify(l)] for [l] an array of strings. *)
Definition stringify (l : list string) : string :=
  String "[" (join_quoted l +:+ String "]" EmptyString).

Definition is_ws (c : ascii) : bool :=
  let n := code c in
  Nat.eqb n 32 || Nat.eqb n 9 || Nat.eqb n 10 || Nat.eqb n 13.

Definition hex_value (c : ascii) : option nat :=
  let n := code c in
  if Nat.leb 48 n && Nat.leb n 57 then Some (n - 48)
  else if Nat.leb 97 n && Nat.leb n 102 then Some (n - 87)
  else if Nat.leb 65 n && Nat.leb n 70 then Some (n - 55)
  else None.

Definition unescape (c : ascii) : option ascii :=
  let n := code c in
  if Nat.eqb n 34 then Some dquote
  else if Nat.eqb n 92 then Some backslash
  else if Nat.eqb n 47 then Some "/"%char
  else if Nat.eqb n 98 then Some (ascii_of_nat 8)
  else if Nat.eqb n 102 then Some (ascii_of_nat 12)
  else if Nat.eqb n 110 then Some (ascii_of_nat 10)
  else if Nat.eqb n 114 then Some (ascii_of_nat 13)
  else if Nat.eqb n 116 then Some (ascii_of_nat 9)
  else None.

Definition snoc (s : string) (c : ascii) : string := s +:+ String c EmptyString.

Inductive pstate :=
| PStart                              (* before the opening bracket *)
| PFirst                              (* after the opening bracket *)
| PNext                               (* after a comma *)
| PStr (acc : string)                 (* inside a string literal *)
| PEsc (acc : string)                 (* after a backslash *)
| PHex (acc : string) (ds : list nat) (* inside a \u escape *)
| PAfter                              (* after a string literal *)
| PEnd.                               (* after the closing bracket *)

Definition hex_code (ds : list nat) : nat :=
  fold_left (fun a d => 16 * a + d) ds 0.

Fixpoint parse_run (st : pstate) (out : list string) (s : string)
  : option (list string) :=
  match s with
  | EmptyString => match st with PEnd => Some out | _ => None end
  | String c s' =>
      match st with
      | PStart =>
          if is_ws c then parse_run PStart out s'
          else if Ascii.eqb c "[" then parse_run PFirst out s'
          else None
      | PFirst =>
          if is_ws c then parse_run PFirst out s'
          else if Ascii.eqb c "]" then parse_run PEnd out s'
          else if Ascii.eqb c dquote then parse_run (PStr EmptyString) out s'
          else None
      | PNext =>
          if is_ws c then parse_run PNext out s'
          else if Ascii.eqb c dquote then parse_run (PStr EmptyString) out s'
          else None
      | PStr acc =>
          if Ascii.eqb c dquote then parse_run PAfter (out ++ [acc])%list s'
          else if Ascii.eqb c backslash then parse_run (PEsc acc) out s'
          else if Nat.ltb (code c) 32 then None
          else parse_run (PStr (snoc acc c)) out s'
      | PEsc acc =>
          match unescape c with
          | Some d => parse_run (PStr (snoc acc d)) out s'
          | None =>
              if Ascii.eqb c "u" then parse_run (PHex acc []) out s' else None
          end
      | PHex acc ds =>
          match hex_value c with
          | Some d =>
              let ds' := (ds ++ [d])%list in
              if Nat.eqb (length ds') 4 then
                if Nat.ltb (hex_code ds') 128
                then parse_run (PStr (snoc acc (ascii_of_nat (hex_code ds')))) out s'
                else None
              else parse_run (PHex acc ds') out s'
          | None => None
          end
      | PAfter =>
          if is_ws c then parse_run PAfter out s'
          else if Ascii.eqb c "," then parse_run PNext out s'
          else if Ascii.eqb c "]" then parse_run PEnd out s'
          else None
      | PEnd => if is_ws c then parse_run PEnd out s' else None
      end
  end.

(** [JSON.parse(s)]; [None] stands for the SyntaxError it throws. *)
Definition parse (s : string) : option (list string) := parse_run PStart [] s.

End JSON.

(** ** Records held in the store and sent in responses *)

(** The hash written under [community:post:${id}]. *)
Record post := mkPost {
  post_id : string;
  post_title : string;
  post_content : string;
  post_category : string;
  post_tags : string;          (* JSON text of the tag array *)
  post_authorId : string;
  post_authorName : string;
  post_createdAt : string;
  post_updatedAt : string
}.

(** The hash written under [community:comment:${id}]. *)
Record comment := mkComment {
  comment_id : string;
  comment_postId : string;
  comment_content : string;
  comment_authorId : string;
  comment_authorName : string;
  comment_createdAt : string
}.

(** [{...data, tags, likes, comments, isLiked, isBookmarked}]: the spread
    record, whose [tags] text is overridden by the parsed array, and the
    derived fields; [isLiked] and [isBookmarked] only exist in listings. *)
Record post_view := mkPostView {
  view_data : post;
  view_tags : list string;
  view_likes : nat;
  view_comments : nat;
  view_isLiked : option bool;
  view_isBookmarked : option bool
}.

(** [{...data, likes}] *)
Record comment_view := mkCommentView {
  cview_data : comment;
  cview_likes : nat
}.

(** The value of [user:${userId}], as far as the handlers read it. *)
Record user_data := mkUser {
  user_name : option string;
  user_username : option string;
  user_role : option string
}.

#[global] Instance post_eq_dec : EqDecision post.
Proof. solve_decision. Defined.
#[global] Instance comment_eq_dec : EqDecision comment.
Proof. solve_decision. Defined.
#[global] Instance post_view_eq_dec : EqDecision post_view.
Proof. solve_decision. Defined.

(** ** The store *)

(** Keys of the lists. *)
Inductive list_key :=
| community_posts                      (* community:posts *)
| user_posts (userId : string)         (* user:${userId}:posts *)
| user_comments (userId : string)      (* user:${userId}:comments *)
| post_comments (postId : string).     (* community:post:${postId}:comments *)

(** Keys of the sets. *)
Inductive set_key :=
| post_likes (postId : string)         (* community:post:${postId}:likes *)
| comment_likes (commentId : string)   (* community:comment:${id}:likes *)
| category_set (category : string)     (* community:category:${category} *)
| tag_set (tag : string)               (* community:tag:${tag} *)
| user_bookmarks (userId : string).    (* user:${userId}:bookmarks *)

#[global] Instance list_key_eq_dec : EqDecision list_key.
Proof. solve_decision. Defined.
#[global] Instance set_key_eq_dec : EqDecision set_key.
Proof. solve_decision. Defined.

Definition list_key_code (k : list_key) : nat * string :=
  match k with
  | community_posts => (0, EmptyString)
  | user_posts u => (1, u)
  | user_comments u => (2, u)
  | post_comments p => (3, p)
  end.
Definition list_key_of_code (x : nat * string) : list_key :=
  match x with
  | (0, _) => community_posts
  | (1, u) => user_posts u
  | (2, u) => user_comments u
  | (_, p) => post_comments p
  end.
#[global] Instance list_key_countable : Countable list_key.
Proof. apply (inj_countable' list_key_code list_key_of_code). by intros []. Defined.

Definition set_key_code (k : set_key) : nat * string :=
  match k with
  | post_likes p => (0, p)
  | comment_likes c => (1, c)
  | category_set c => (2, c)
  | tag_set t => (3, t)
  | user_bookmarks u => (4, u)
  end.
Definition set_key_of_code (x : nat * string) : set_key :=
  match x with
  | (0, p) => post_likes p
  | (1, c) => comment_likes c
  | (2, c) => category_set c
  | (3, t) => tag_set t
  | (_, u) => user_bookmarks u
  end.
#[global] Instance set_key_countable : Countable set_key.
Proof. apply (inj_countable' set_key_code set_key_of_code). by intros []. Defined.

Record store := mkStore {
  post_hashes : gmap string post;          (* community:post:${id} *)
  comment_hashes : gmap string comment;    (* community:comment:${id} *)
  lists : gmap list_key (list string);
  sets : gmap set_key (gset string)
}.

Definition empty_store : store := mkStore ∅ ∅ ∅ ∅.

Definition with_post_hashes (f : gmap string post → gmap string post)
    (s : store) : store :=
  mkStore (f (post_hashes s)) (comment_hashes s) (lists s) (sets s).
Definition with_comment_hashes (f : gmap string comment → gmap string comment)
    (s : store) : store :=
  mkStore (post_hashes s) (f (comment_hashes s)) (lists s) (sets s).
Definition with_lists (f : gmap list_key (list string) → gmap list_key (list string))
    (s : store) : store :=
  mkStore (post_hashes s) (comment_hashes s) (f (lists s)) (sets s).
Definition with_sets (f : gmap set_key (gset string) → gmap set_key (gset string))
    (s : store) : store :=
  mkStore (post_hashes s) (comment_hashes s) (lists s) (f (sets s)).

(** ** Key names

    The store above is the Redis keyspace split by the type of the values:
    a key of the model stands for the key whose name is its template
    literal.  [key_name_inj] shows that distinct keys have distinct names
    and [matches_bookmarks_iff] that the glob of deletePost finds the
    bookmark sets and nothing else. *)

(** A key of the store, of whatever type. *)
Inductive key :=
| user_record (userId : string)
| post_hash (postId : string)
| comment_hash (commentId : string)
| list_of (k : list_key)
| set_of (k : set_key).

(** The name index.cjs gives the key: its template literal. *)
Definition key_name (k : key) : string :=
  match k with
  | user_record u => "user:" +:+ u
  | post_hash id => "community:post:" +:+ id
  | comment_hash id => "community:comment:" +:+ id
  | list_of community_posts => "community:posts"
  | list_of (user_posts u) => "user:" +:+ u +:+ ":posts"
  | list_of (user_comments u) => "user:" +:+ u +:+ ":comments"
  | list_of (post_comments id) => "community:post:" +:+ id +:+ ":comments"
  | set_of (post_likes id) => "community:post:" +:+ id +:+ ":likes"
  | set_of (comment_likes id) => "community:comment:" +:+ id +:+ ":likes"
  | set_of (category_set c) => "community:category:" +:+ c
  | set_of (tag_set t) => "community:tag:" +:+ t
  | set_of (user_bookmarks u) => "user:" +:+ u +:+ ":bookmarks"
  end.

Fixpoint no_colon (s : string) : bool :=
  match s with
  | String c s' => negb (Ascii.eqb c ":") && no_colon s'
  | EmptyString => true
  end.

(** The identifier a key is made of holds no colon; a category or a tag
    is free text. *)
Definition plain_id (k : key) : bool :=
  match k with
  | user_record u => no_colon u
  | post_hash id => no_colon id
  | comment_hash id => no_colon id
  | list_of community_posts => true
  | list_of (user_posts u) => no_colon u
  | list_of (user_comments u) => no_colon u
  | list_of (post_comments id) => no_colon id
  | set_of (post_likes id) => no_colon id
  | set_of (comment_likes id) => no_colon id
  | set_of (category_set c) => true
  | set_of (tag_set t) => true
  | set_of (user_bookmarks u) => no_colon u
  end.

(** What follows the last colon of a text; the text itself when it holds
    none. *)
Fixpoint last_segment (s : string) : string :=
  match s with
  | String c s' =>
      if no_colon s' then (if Ascii.eqb c ":" then s' else s) else last_segment s'
  | EmptyString => EmptyString
  end.

(** The glob ['user:*:bookmarks']: the star stands for any text. *)
Definition matches_bookmarks (name : string) : Prop :=
  ∃ star, name = "user:" +:+ star +:+ ":bookmarks".

(** ** Handlers as computations over the store

    A handler either returns or throws; what it wrote before throwing
    stays written. *)

Inductive outcome (A : Type) :=
| Return (a : A)
| Throw.
Arguments Return {A} a.
Arguments Throw {A}.

Definition M (A : Type) : Type := store → outcome A * store.

Definition ret {A} (a : A) : M A := fun s => (Return a, s).
Definition throw {A} : M A := fun s => (Throw, s).
Definition bind {A B} (m : M A) (k : A → M B) : M B :=
  fun s => match m s with
           | (Return a, s') => k a s'
           | (Throw, s') => (Throw, s')
           end.
Definition gets {A} (f : store → A) : M A := fun s => (Return (f s), s).
Definition modify (f : store → store) : M unit := fun s => (Return tt, f s).

Notation "x <~ m ;; k" := (bind m (fun x => k))
  (at level 100, m at next level, right associativity).
Notation "m ;;; k" := (bind m (fun _ => k))
  (at level 100, right associativity).

(** [for (const x of l) { await body(x) }] *)
Fixpoint for_of {A} (l : list A) (body : A → M unit) : M unit :=
  match l with
  | [] => ret tt
  | x :: l' => body x ;;; for_of l' body
  end.

(** ** The store client

    Reads are functions of the store, run in a handler through [gets];
    writes are computations. *)

Module Redis.

Definition hgetall_post (id : string) (s : store) : option post :=
  post_hashes s !! id.
Definition hgetall_comment (id : string) (s : store) : option comment :=
  comment_hashes s !! id.

(** [lrange(k, 0, -1)]; a key that is absent reads as the empty list. *)
Definition lrange (k : list_key) (s : store) : list string :=
  default [] (lists s !! k).
Definition llen (k : list_key) (s : store) : nat := length (lrange k s).

(** A key that is absent reads as the empty set. *)
Definition smembers (k : set_key) (s : store) : gset string :=
  default ∅ (sets s !! k).
Definition scard (k : set_key) (s : store) : nat := size (smembers k s).
Definition sismember (k : set_key) (v : string) (s : store) : bool :=
  bool_decide (v ∈ smembers k s).

Definition is_bookmarks_key (k : set_key) : bool :=
  match k with user_bookmarks _ => true | _ => false end.

(** [keys('user:*:bookmarks')] *)
Definition keys_bookmarks (s : store) : list set_key :=
  filter (fun k => is_bookmarks_key k = true) (elements (dom (sets s))).

Definition hset_post (id : string) (p : post) : M unit :=
  modify (with_post_hashes <[id := p]>).
Definition del_post (id : string) : M unit :=
  modify (with_post_hashes (delete id)).
Definition hset_comment (id : string) (c : comment) : M unit :=
  modify (with_comment_hashes <[id := c]>).

Definition lpush (k : list_key) (v : string) : M unit :=
  modify (fun s => with_lists <[k := v :: lrange k s]> s).

(** [lrem(k, 0, v)]: every occurrence of [v] goes; a list that does not
    hold [v] is left as it is and a list left empty disappears with its
    key. *)
Definition lrem_all (v : string) (o : option (list string)) : option (list string) :=
  match o with
  | Some l =>
      if decide (v ∈ l) then
        match filter (fun x => x ≠ v) l with
        | [] => None
        | l' => Some l'
        end
      else Some l
  | None => None
  end.
Definition lrem (k : list_key) (v : string) : M unit :=
  modify (with_lists (partial_alter (lrem_all v) k)).
Definition del_list (k : list_key) : M unit :=
  modify (with_lists (delete k)).

Definition sadd (k : set_key) (v : string) : M unit :=
  modify (fun s => with_sets <[k := {[v]} ∪ smembers k s]> s).

(** A set that does not hold [v] is left as it is; a set left empty
    disappears with its key. *)
Definition srem_one (v : string) (o : option (gset string)) : option (gset string) :=
  match o with
  | Some X =>
      if decide (v ∈ X) then
        if decide (X ∖ {[v]} = ∅) then None else Some (X ∖ {[v]})
      else Some X
  | None => None
  end.
Definition srem (k : set_key) (v : string) : M unit :=
  modify (with_sets (partial_alter (srem_one v) k)).
Definition del_set (k : set_key) : M unit :=
  modify (with_sets (delete k)).

End Redis.

(** ** Requests and responses *)

(** The body of createPost and updatePost: [{ title, content, category, tags }]. *)
Record post_body := mkPostBody {
  body_title : option string;
  body_content : option string;
  body_category : option string;
  body_tags : option (list string)
}.

(** The query string of listPosts; [sortBy] and [sortOrder] default to
    ['createdAt'] and ['desc']. *)
Record query := mkQuery {
  q_search : option string;
  q_category : option string;
  q_tags : option string;
  q_bookmarked : option string;
  q_userId : option string;
  q_sortBy : option string;
  q_sortOrder : option string
}.

Inductive payload :=
| Failure (error : string)                    (* { success: false, error } *)
| Message (message : string)                  (* { success: true, message } *)
| PostList (data : list post_view)
| PostData (data : post_view)
| CommentList (data : list comment_view)
| CommentData (data : comment_view)
| LikeData (likes : nat) (isLiked : bool)
| BookmarkData (isBookmarked : bool).

Record response := mkResponse {
  statusCode : nat;
  body : payload
}.

Definition not_found : response := mkResponse 404 (Failure "Post not found").

Import JsString.

(** [user.name || user.username || 'Anonymous'] *)
Definition authorName_of (user : user_data) : string :=
  if truthy_opt (user_name user) then default "" (user_name user)
  else if truthy_opt (user_username user) then default "" (user_username user)
  else "Anonymous".

(** [postData.authorId !== userId && user.role !== 'admin'] *)
Definition not_permitted (postData : post) (userId : string) (user : user_data) : bool :=
  negb (String.eqb (post_authorId postData) userId)
  && negb (bool_decide (user_role user = Some "admin")).

(** [JSON.parse(data.tags || '[]')] inside [try { } catch { }], the array
    staying empty when the text does not parse. *)
Definition parse_tags_or_empty (data : post) : list string :=
  default [] (JSON.parse (or_else (post_tags data) "[]")).

(** [JSON.parse(data.tags || '[]')] where nothing catches. *)
Definition parse_tags (data : post) : M (list string) :=
  match JSON.parse (or_else (post_tags data) "[]") with
  | Some l => ret l
  | None => throw
  end.

(** ** Reading handlers *)

Section ListPosts.

(** [new Date(p[sortBy]).getTime()], [None] where it is NaN. *)
Variable Date_getTime : string → post_view → option Z.

Definition load_post (userId : option string) (s : store) (id : string)
  : option post_view :=
  match Redis.hgetall_post id s with
  | None => None
  | Some data =>
      if negb (truthy (post_id data)) then None
      else
        let parsedTags := parse_tags_or_empty data in
        let likeCount := Redis.scard (post_likes id) s in
        let commentCount := Redis.llen (post_comments id) s in
        let isLiked :=
          match userId with
          | Some u => if truthy u then Redis.sismember (post_likes id) u s else false
          | None => false
          end in
        let isBookmarked :=
          match userId with
          | Some u => if truthy u then Redis.sismember (user_bookmarks u) id s else false
          | None => false
          end in
        Some (mkPostView data parsedTags likeCount commentCount
                         (Some isLiked) (Some isBookmarked))
  end.

Definition search_filter (search : option string) (p : post_view) : bool :=
  match search with
  | Some search =>
      if truthy search then
        let searchLower := toLowerCase search in
        includes (toLowerCase (post_title (view_data p))) searchLower
        || includes (toLowerCase (post_content (view_data p))) searchLower
      else true
  | None => true
  end.

Definition category_filter (category : option string) (p : post_view) : bool :=
  match category with
  | Some category =>
      if truthy category then String.eqb (post_category (view_data p)) category
      else true
  | None => true
  end.

(** [tags.split(',').map((tag) => tag.trim())] *)
Definition tagArray_of (tags : string) : list string := map trim (split "," tags).

Definition tags_filter (tags : option string) (p : post_view) : bool :=
  match tags with
  | Some tags =>
      if truthy tags then
        let tagArray := tagArray_of tags in
        existsb (fun tag => bool_decide (tag ∈ tagArray)) (view_tags p)
      else true
  | None => true
  end.

Definition bookmarked_filter (bookmarked userId : option string) (s : store)
    (p : post_view) : bool :=
  match bookmarked, userId with
  | Some b, Some u =>
      if String.eqb b "true" && truthy u then
        let userBookmarks := Redis.smembers (user_bookmarks u) s in
        bool_decide (post_id (view_data p) ∈ userBookmarks)
      else true
  | _, _ => true
  end.

Definition compare_posts (sortBy sortOrder : string) (a b : post_view) : Z :=
  let desc := String.eqb sortOrder "desc" in
  if String.eqb sortBy "likes" then
    if desc then Z.of_nat (view_likes b) - Z.of_nat (view_likes a)
    else Z.of_nat (view_likes a) - Z.of_nat (view_likes b)
  else if String.eqb sortBy "comments" then
    if desc then Z.of_nat (view_comments b) - Z.of_nat (view_comments a)
    else Z.of_nat (view_comments a) - Z.of_nat (view_comments b)
  else
    match Date_getTime sortBy a, Date_getTime sortBy b with
    | Some ta, Some tb => if desc then tb - ta else ta - tb
    | _, _ => 0
    end.

Definition sorts_before (sortBy sortOrder : string) (a b : post_view) : Prop :=
  (compare_posts sortBy sortOrder a b ≤ 0)%Z.

#[global] Instance sorts_before_dec sortBy sortOrder :
  RelDecision (sorts_before sortBy sortOrder).
Proof. intros a b. unfold sorts_before. apply _. Defined.

(** [filteredPosts.sort(cmp)]: a stable merge sort; [a] stays before [b]
    unless [cmp(a, b) > 0]. *)
Definition sort_posts (sortBy sortOrder : string) (l : list post_view)
  : list post_view :=
  merge_sort (sorts_before sortBy sortOrder) l.

Definition handleGetPosts (queryParams : query) (s : store) : response :=
  let sortBy := default "createdAt" (q_sortBy queryParams) in
  let sortOrder := default "desc" (q_sortOrder queryParams) in
  let postIds := Redis.lrange community_posts s in
  match postIds with
  | [] => mkResponse 200 (PostList [])
  | _ =>
      let postsData := map (load_post (q_userId queryParams) s) postIds in
      let filteredPosts := omap (fun p => p) postsData in
      let filteredPosts :=
        filter (fun p => search_filter (q_search queryParams) p = true) filteredPosts in
      let filteredPosts :=
        filter (fun p => category_filter (q_category queryParams) p = true) filteredPosts in
      let filteredPosts :=
        filter (fun p => tags_filter (q_tags queryParams) p = true) filteredPosts in
      let filteredPosts :=
        filter (fun p => bookmarked_filter (q_bookmarked queryParams)
                           (q_userId queryParams) s p = true)
               filteredPosts in
      mkResponse 200 (PostList (sort_posts sortBy sortOrder filteredPosts))
  end.

End ListPosts.

Definition handleGetPost (postId : string) (s : store) : response :=
  match Redis.hgetall_post postId s with
  | None => not_found
  | Some postData =>
      if negb (truthy (post_id postData)) then not_found
      else
        let parsedTags := parse_tags_or_empty postData in
        let likeCount := Redis.scard (post_likes postId) s in
        let commentCount := Redis.llen (post_comments postId) s in
        mkResponse 200 (PostData (mkPostView postData parsedTags likeCount commentCount None None))
  end.

Definition load_comment (s : store) (id : string) : option comment_view :=
  match Redis.hgetall_comment id s with
  | None => None
  | Some data =>
      if negb (truthy (comment_id data)) then None
      else Some (mkCommentView data (Redis.scard (comment_likes id) s))
  end.

Definition handleGetComments (postId : string) (s : store) : response :=
  match Redis.hgetall_post postId s with
  | None => not_found
  | Some postData =>
      if negb (truthy (post_id postData)) then not_found
      else
        let commentIds := Redis.lrange (post_comments postId) s in
        match commentIds with
        | [] => mkResponse 200 (CommentList [])
        | _ =>
            let commentsData := map (load_comment s) commentIds in
            let comments := omap (fun c => c) commentsData in
            mkResponse 200 (CommentList comments)
        end
  end.

(** ** Writing handlers *)

Definition handleCreatePost (postId now : string) (requestBody : post_body)
    (userId : string) (user : user_data) : M response :=
  let category := default "discussion" (body_category requestBody) in
  let tags := default [] (body_tags requestBody) in
  match body_title requestBody, body_content requestBody with
  | Some title, Some content =>
      if negb (truthy title) || negb (truthy content) then
        ret (mkResponse 400 (Failure "Title and content are required"))
      else
        let post :=
          mkPost postId title content category (JSON.stringify tags)
                 userId (authorName_of user) now now in
        Redis.hset_post postId post ;;;
        Redis.lpush community_posts postId ;;;
        Redis.lpush (user_posts userId) postId ;;;
        Redis.sadd (category_set category) postId ;;;
        for_of tags (fun tag => Redis.sadd (tag_set tag) postId) ;;;
        ret (mkResponse 201 (PostData (mkPostView post tags 0 0 None None)))
  | _, _ => ret (mkResponse 400 (Failure "Title and content are required"))
  end.

Definition set_title (title : string) (p : post) : post :=
  mkPost (post_id p) title (post_content p) (post_category p) (post_tags p)
         (post_authorId p) (post_authorName p) (post_createdAt p) (post_updatedAt p).
Definition set_content (content : string) (p : post) : post :=
  mkPost (post_id p) (post_title p) content (post_category p) (post_tags p)
         (post_authorId p) (post_authorName p) (post_createdAt p) (post_updatedAt p).
Definition set_category (category : string) (p : post) : post :=
  mkPost (post_id p) (post_title p) (post_content p) category (post_tags p)
         (post_authorId p) (post_authorName p) (post_createdAt p) (post_updatedAt p).
Definition set_tags (tags : string) (p : post) : post :=
  mkPost (post_id p) (post_title p) (post_content p) (post_category p) tags
         (post_authorId p) (post_authorName p) (post_createdAt p) (post_updatedAt p).
Definition set_updatedAt (now : string) (p : post) : post :=
  mkPost (post_id p) (post_title p) (post_content p) (post_category p) (post_tags p)
         (post_authorId p) (post_authorName p) (post_createdAt p) now.

Definition handleUpdatePost (now : string) (requestBody : post_body)
    (postId userId : string) (user : user_data) : M response :=
  postData <~ gets (Redis.hgetall_post postId) ;;
  match postData with
  | None => ret not_found
  | Some postData =>
      if negb (truthy (post_id postData)) then ret not_found
      else if not_permitted postData userId user then
        ret (mkResponse 403 (Failure "You do not have permission to update this post"))
      else
        let updates := set_updatedAt now postData in
        let updates :=
          match body_title requestBody with
          | Some title => if truthy title then set_title title updates else updates
          | None => updates
          end in
        let updates :=
          match body_content requestBody with
          | Some content => if truthy content then set_content content updates else updates
          | None => updates
          end in
        updates <~
          match body_category requestBody with
          | Some category =>
              if truthy category && negb (String.eqb category (post_category postData)) then
                Redis.srem (category_set (post_category postData)) postId ;;;
                Redis.sadd (category_set category) postId ;;;
                ret (set_category category updates)
              else ret updates
          | None => ret updates
          end ;;
        updates <~
          match body_tags requestBody with
          | Some tags =>
              oldTags <~ parse_tags postData ;;
              for_of oldTags (fun tag => Redis.srem (tag_set tag) postId) ;;;
              for_of tags (fun tag => Redis.sadd (tag_set tag) postId) ;;;
              ret (set_tags (JSON.stringify tags) updates)
          | None => ret updates
          end ;;
        Redis.hset_post postId updates ;;;
        parsedTags <~
          match body_tags requestBody with
          | Some tags => ret tags
          | None => parse_tags updates
          end ;;
        likeCount <~ gets (Redis.scard (post_likes postId)) ;;
        commentCount <~ gets (Redis.llen (post_comments postId)) ;;
        ret (mkResponse 200
               (PostData (mkPostView updates parsedTags likeCount commentCount None None)))
  end.

Definition handleDeletePost (postId userId : string) (user : user_data) : M response :=
  postData <~ gets (Redis.hgetall_post postId) ;;
  match postData with
  | None => ret not_found
  | Some postData =>
      if negb (truthy (post_id postData)) then ret not_found
      else if not_permitted postData userId user then
        ret (mkResponse 403 (Failure "You do not have permission to delete this post"))
      else
        Redis.del_post postId ;;;
        Redis.lrem community_posts postId ;;;
        Redis.lrem (user_posts (post_authorId postData)) postId ;;;
        Redis.srem (category_set (post_category postData)) postId ;;;
        tags <~ parse_tags postData ;;
        for_of tags (fun tag => Redis.srem (tag_set tag) postId) ;;;
        Redis.del_set (post_likes postId) ;;;
        Redis.del_list (post_comments postId) ;;;
        bookmarkKeys <~ gets Redis.keys_bookmarks ;;
        for_of bookmarkKeys (fun key => Redis.srem key postId) ;;;
        ret (mkResponse 200 (Message "Post deleted successfully"))
  end.

Definition handleCreateComment (commentId now : string) (content : option string)
    (postId userId : string) (user : user_data) : M response :=
  postData <~ gets (Redis.hgetall_post postId) ;;
  match postData with
  | None => ret not_found
  | Some postData =>
      if negb (truthy (post_id postData)) then ret not_found
      else
        match content with
        | Some content =>
            if negb (truthy content) then
              ret (mkResponse 400 (Failure "Comment content is required"))
            else
              let comment :=
                mkComment commentId postId content userId (authorName_of user) now in
              Redis.hset_comment commentId comment ;;;
              Redis.lpush (post_comments postId) commentId ;;;
              Redis.lpush (user_comments userId) commentId ;;;
              ret (mkResponse 201 (CommentData (mkCommentView comment 0)))
        | None => ret (mkResponse 400 (Failure "Comment content is required"))
        end
  end.

(** The body of setLike is [{ action }], ['like'] when omitted. *)
Definition handleLikePost (action : option string) (postId userId : string) : M response :=
  postData <~ gets (Redis.hgetall_post postId) ;;
  match postData with
  | None => ret not_found
  | Some postData =>
      if negb (truthy (post_id postData)) then ret not_found
      else
        let action := default "like" action in
        let likeKey := post_likes postId in
        (if String.eqb action "like" then Redis.sadd likeKey userId
         else if String.eqb action "unlike" then Redis.srem likeKey userId
         else ret tt) ;;;
        likeCount <~ gets (Redis.scard likeKey) ;;
        ret (mkResponse 200 (LikeData likeCount (String.eqb action "like")))
  end.

(** The body of setBookmark is [{ action }], ['bookmark'] when omitted. *)
Definition handleBookmarkPost (action : option string) (postId userId : string) : M response :=
  postData <~ gets (Redis.hgetall_post postId) ;;
  match postData with
  | None => ret not_found
  | Some postData =>
      if negb (truthy (post_id postData)) then ret not_found
      else
        let action := default "bookmark" action in
        let bookmarkKey := user_bookmarks userId in
        (if String.eqb action "bookmark" then Redis.sadd bookmarkKey postId
         else if String.eqb action "unbookmark" then Redis.srem bookmarkKey postId
         else ret tt) ;;;
        ret (mkResponse 200 (BookmarkData (String.eqb action "bookmark")))
  end.

(** ** The entry point

    A request names the route [exports.handler] takes, with the caller the
    authentication step resolved and the values [nanoid()] and the clock
    give during the call. *)

Inductive request :=
| GetPosts (queryParams : query)
| GetPost (postId : string)
| GetComments (postId : string)
| CreatePost (postId now : string) (requestBody : post_body) (userId : string) (user : user_data)
| UpdatePost (now : string) (requestBody : post_body) (postId userId : string) (user : user_data)
| DeletePost (postId userId : string) (user : user_data)
| CreateComment (commentId now : string) (content : option string) (postId userId : string)
                (user : user_data)
| LikePost (action : option string) (postId userId : string)
| BookmarkPost (action : option string) (postId userId : string).

Section Handler.

Variable Date_getTime : string → post_view → option Z.

Definition route (req : request) : M response :=
  match req with
  | GetPosts q => gets (handleGetPosts Date_getTime q)
  | GetPost postId => gets (handleGetPost postId)
  | GetComments postId => gets (handleGetComments postId)
  | CreatePost postId now b userId user => handleCreatePost postId now b userId user
  | UpdatePost now b postId userId user => handleUpdatePost now b postId userId user
  | DeletePost postId userId user => handleDeletePost postId userId user
  | CreateComment commentId now c postId userId user =>
      handleCreateComment commentId now c postId userId user
  | LikePost a postId userId => handleLikePost a postId userId
  | BookmarkPost a postId userId => handleBookmarkPost a postId userId
  end.

(** Whatever a handler throws is caught and answered with status 500;
    what it wrote before stays written. *)
Definition handler (req : request) (s : store) : response * store :=
  match route req s with
  | (Return r, s') => (r, s')
  | (Throw, s') => (mkResponse 500 (Failure "Internal server error"), s')
  end.

(** The stores the handlers can produce from the empty one. *)
Inductive reachable : store → Prop :=
| reachable_empty : reachable empty_store
| reachable_step s req : reachable s → reachable (handler req s).2.

End Handler.

(** ** Vocabulary of the properties *)

(** The store a computation leaves behind. *)
Definition exec {A} (m : M A) (s : store) : store := (m s).2.

(** The category values the client's form offers
    (src/pages/CommunityBoardPage.tsx); index.cjs names none. *)
Definition categories : list string :=
  ["question"; "idea"; "showcase"; "resource"; "team"; "announcement"].

(** The stored tag text of a post reads back as an array. *)
Definition tags_parse (P : post) : Prop :=
  is_Some (JSON.parse (or_else (post_tags P) "[]")).

(** What the handlers maintain: every stored tag text parses, and likes or
    comments are only counted under the id of a stored post. *)
Definition store_inv (s : store) : Prop :=
  (∀ id P, post_hashes s !! id = Some P → tags_parse P)
  ∧ (∀ id, post_hashes s !! id = None →
           Redis.smembers (post_likes id) s = ∅
           ∧ Redis.lrange (post_comments id) s = []).

(** The posts listPosts loads before it filters: one view per id of the
    global list whose hash exists. *)
Definition loaded_posts (userId : option string) (s : store) : list post_view :=
  omap (load_post userId s) (Redis.lrange community_posts s).

(** A body field that counts as not supplied: absent, or the empty string. *)
Definition missing (field : option string) : Prop := field = None ∨ field = Some "".

(** A query field that is given: present and not the empty string. *)
Definition given (field : option string) (value : string) : Prop :=
  field = Some value ∧ value ≠ "".

Definition is_substring (needle hay : string) : Prop :=
  ∃ pre suf, hay = pre +:+ needle +:+ suf.

(** The search text occurs in the title or in the content, letter case
    apart. *)
Definition matches_search (search : string) (p : post_view) : Prop :=
  is_substring (toLowerCase search) (toLowerCase (post_title (view_data p)))
  ∨ is_substring (toLowerCase search) (toLowerCase (post_content (view_data p))).

(** The four filters of listPosts as one test. *)
Definition passes (q : query) (s : store) (p : post_view) : bool :=
  search_filter (q_search q) p && category_filter (q_category q) p
  && tags_filter (q_tags q) p && bookmarked_filter (q_bookmarked q) (q_userId q) s p.

(** The hash createPost writes. *)
Definition new_post (postId now title content : string) (requestBody : post_body)
    (userId : string) (user : user_data) : post :=
  mkPost postId title content (default "discussion" (body_category requestBody))
         (JSON.stringify (default [] (body_tags requestBody)))
         userId (authorName_of user) now now.

(** The store createPost leaves. *)
Definition created_store (postId userId : string) (P : post) (tags : list string)
    (s : store) : store :=
  exec (for_of tags (fun tag => Redis.sadd (tag_set tag) postId))
    (exec (Redis.sadd (category_set (post_category P)) postId)
       (exec (Redis.lpush (user_posts userId) postId)
          (exec (Redis.lpush community_posts postId)
             (exec (Redis.hset_post postId P) s)))).

(** [s'] holds no more than [s] in any set or list. *)
Definition shrinks (s' s : store) : Prop :=
  (∀ k, Redis.smembers k s' ⊆ Redis.smembers k s)
  ∧ (∀ k, Redis.lrange k s' ⊆ Redis.lrange k s).

(** The store deletePost leaves, in the four stages of its writes: the hash
    and the two lists, the category and tag sets, the likes set and the
    comment list, the bookmark sets. *)
Definition unlisted_store (postId : string) (P : post) (s : store) : store :=
  exec (Redis.lrem (user_posts (post_authorId P)) postId)
    (exec (Redis.lrem community_posts postId)
       (exec (Redis.del_post postId) s)).

Definition unindexed_store (postId : string) (P : post) (tags : list string)
    (s : store) : store :=
  exec (for_of tags (fun tag => Redis.srem (tag_set tag) postId))
    (exec (Redis.srem (category_set (post_category P)) postId)
       (unlisted_store postId P s)).

Definition uncounted_store (postId : string) (P : post) (tags : list string)
    (s : store) : store :=
  exec (Redis.del_list (post_comments postId))
    (exec (Redis.del_set (post_likes postId))
       (unindexed_store postId P tags s)).

Definition deleted_store (postId : string) (P : post) (tags : list string)
    (s : store) : store :=
  exec (for_of (Redis.keys_bookmarks (uncounted_store postId P tags s))
               (fun key => Redis.srem key postId))
    (uncounted_store postId P tags s).

(** The hash updatePost writes over [P]. *)
Definition updated_post (now : string) (requestBody : post_body) (P : post) : post :=
  let updates := set_updatedAt now P in
  let updates :=
    match body_title requestBody with
    | Some title => if truthy title then set_title title updates else updates
    | None => updates
    end in
  let updates :=
    match body_content requestBody with
    | Some content => if truthy content then set_content content updates else updates
    | None => updates
    end in
  let updates :=
    match body_category requestBody with
    | Some category =>
        if truthy category && negb (String.eqb category (post_category P))
        then set_category category updates else updates
    | None => updates
    end in
  match body_tags requestBody with
  | Some tags => set_tags (JSON.stringify tags) updates
  | None => updates
  end.

(** The store updatePost leaves: the category sets, the tag sets, the hash. *)
Definition recategorized_store (postId : string) (requestBody : post_body) (P : post)
    (s : store) : store :=
  match body_category requestBody with
  | Some category =>
      if truthy category && negb (String.eqb category (post_category P)) then
        exec (Redis.sadd (category_set category) postId)
          (exec (Redis.srem (category_set (post_category P)) postId) s)
      else s
  | None => s
  end.

Definition retagged_store (postId : string) (requestBody : post_body)
    (oldTags : list string) (s : store) : store :=
  match body_tags requestBody with
  | Some tags =>
      exec (for_of tags (fun tag => Redis.sadd (tag_set tag) postId))
        (exec (for_of oldTags (fun tag => Redis.srem (tag_set tag) postId)) s)
  | None => s
  end.

Definition updated_store (now : string) (requestBody : post_body) (postId : string)
    (P : post) (oldTags : list string) (s : store) : store :=
  exec (Redis.hset_post postId (updated_post now requestBody P))
    (retagged_store postId requestBody oldTags
       (recategorized_store postId requestBody P s)).

(** The store addComment leaves. *)
Definition commented_store (commentId postId userId : string) (c : comment)
    (s : store) : store :=
  exec (Redis.lpush (user_comments userId) commentId)
    (exec (Redis.lpush (post_comments postId) commentId)
       (exec (Redis.hset_comment commentId c) s)).

(** ** Sample data *)

Definition ann : user_data := mkUser (Some "Ann") None None.

Definition bob : user_data := mkUser None (Some "bob") None.

Definition showcase_body : post_body :=
  mkPostBody (Some "T") (Some "C") (Some "showcase") (Some ["react"]).

Definition showcase_post : post :=
  mkPost "p1" "T" "C" "showcase" (JSON.stringify ["react"]) "u1" "Ann" "d0" "d0".

(** U1 has created P1. *)
Definition store_p1 : store :=
  exec (handleCreatePost "p1" "d0" showcase_body "u1" ann) empty_store.

Definition first_comment : comment := mkComment "c1" "p1" "first" "u2" "bob" "d1".

Definition second_comment : comment := mkComment "c2" "p1" "second" "u1" "Ann" "d2".

(** P1 has received the comment c1 and then the comment c2. *)
Definition store_p1_commented : store :=
  exec (handleCreateComment "c2" "d2" (Some "second") "p1" "u1" ann)
    (exec (handleCreateComment "c1" "d1" (Some "first") "p1" "u2" bob) store_p1).

(** U2 has liked and bookmarked P1. *)
Definition store_p1_liked : store :=
  exec (handleBookmarkPost (Some "bookmark") "p1" "u2")
    (exec (handleLikePost (Some "like") "p1" "u2") store_p1).

(** A clock that reads no date: every comparison of dates is NaN. *)
Definition no_clock : string → post_view → option Z := fun _ _ => None.

Definition bookmarks_of (userId : string) : query :=
  mkQuery None None None (Some "true") (Some userId) None None.

(** A post whose title is one space. *)
Definition blank_post : post :=
  mkPost "p2" " " "C" "discussion" (JSON.stringify []) "u1" "Ann" "d3" "d3".

(** A post whose category the client does not offer. *)
Definition forum_post : post :=
  mkPost "p2" "T" "C" "forum" (JSON.stringify []) "u1" "Ann" "d3" "d3".

(** A tag holding a control character, a line feed and a backslash. *)
Definition control_tag : string :=
  String (ascii_of_nat 1) (String (ascii_of_nat 10) (String JSON.backslash "x")).

(** P3 is an idea tagged web3 only. *)
Definition idea_body : post_body :=
  mkPostBody (Some "Ledger") (Some "On chain") (Some "idea") (Some ["web3"]).

Definition idea_post : post :=
  mkPost "p3" "Ledger" "On chain" "idea" (JSON.stringify ["web3"]) "u1" "Ann" "d4" "d4".

Definition store_p3 : store :=
  exec (handleCreatePost "p3" "d4" idea_body "u1" ann) store_p1.

(** [listPosts(category="idea", tags=["ai"])] and [listPosts(category="idea", tags=["web3"])] *)
Definition idea_ai : query := mkQuery None (Some "idea") (Some "ai") None None None None.
Definition idea_web3 : query := mkQuery None (Some "idea") (Some "web3") None None None None.

(** ** Authentication

    [authenticateUser] of index.cjs.  [jwt.verify] and the [parse] of the
    cookie package are taken as given: [jwt_verify token] is the decoded
    payload, [None] when verification throws, and [parse_auth_token c] is
    [parse(c).auth_token]. *)

(** The two fields of the decoded token the handler reads. *)
Record jwt_claims := mkClaims {
  claim_sub : option string;
  claim_userId : option string
}.

(** What [authenticateUser] gives: the message of the error it throws, or
    the value it returns, [undefined] when the token names no user. *)
Inductive auth_result :=
| AuthError (message : string)
| Authenticated (userId : option string).

(** [s.substring(n)] *)
Fixpoint substring_from (n : nat) (s : string) : string :=
  match n, s with
  | S n', String _ s' => substring_from n' s'
  | _, _ => s
  end.

(** [authHeader && authHeader.startsWith('Bearer ')], then
    [authHeader.substring(7)] *)
Definition header_token (authHeader : option string) : option string :=
  match authHeader with
  | Some h =>
      if truthy h && String.prefix "Bearer " h then Some (substring_from 7 h) else None
  | None => None
  end.

Section Authenticate.

Variable jwt_verify : string → option jwt_claims.
Variable parse_auth_token : string → option string.

(** [headers_authorization] and [headers_Authorization] are the two
    spellings of the header the function reads, [cookie] is
    [event.headers.cookie]. *)
Definition authenticateUser (AUTH_MODE : string)
    (headers_authorization headers_Authorization cookie : option string)
  : auth_result :=
  let authHeader :=
    if truthy_opt headers_authorization then headers_authorization
    else headers_Authorization in
  let token :=
    if String.eqb AUTH_MODE "bearer" then header_token authHeader
    else
      match header_token authHeader with
      | Some t => Some t
      | None =>
          match cookie with
          | Some cookies => if truthy cookies then parse_auth_token cookies else None
          | None => None
          end
      end in
  match token with
  | None => AuthError "No token provided"
  | Some token =>
      if negb (truthy token) then AuthError "No token provided"
      else if String.eqb (trim token) "" || String.eqb token "null"
              || String.eqb token "undefined" then
        AuthError "Invalid token format"
      else
        match jwt_verify token with
        | Some decoded =>
            Authenticated (if truthy_opt (claim_sub decoded) then claim_sub decoded
                           else claim_userId decoded)
        | None => AuthError "Invalid token"
        end
  end.

End Authenticate.

(** ** The exported handler

    [exports.handler] of index.cjs: the routing on the method and the
    path, the authentication of the writes, and the [catch] that answers
    500. *)

(** The body of a request once read,
    [typeof event.body === 'string' ? JSON.parse(event.body) : event.body],
    as far as the handlers destructure it. *)
Record request_body := mkBody {
  rb_title : option string;
  rb_content : option string;
  rb_category : option string;
  rb_tags : option (list string);
  rb_action : option string
}.

(** [event_body] is [None] when the body is absent or is not the text of
    a JSON value other than null: reading it, or destructuring what was
    read, then throws. *)
Record event := mkEvent {
  httpMethod : string;
  path : string;
  queryStringParameters : option query;
  event_body : option request_body
}.

(** What the handler answers: the reply to a preflight, whose body is the
    empty text, or a response of the handlers. *)
Inductive reply :=
| Preflight
| Reply (r : response).

Definition post_body_of (b : request_body) : post_body :=
  mkPostBody (rb_title b) (rb_content b) (rb_category b) (rb_tags b).

(** [queryParams || {}] *)
Definition no_query : query := mkQuery None None None None None None None.

(** [path.split('/').filter(Boolean)] *)
Definition path_parts (path : string) : list string :=
  filter (fun part => part ≠ "") (split "/" path).

(** [resource !== 'community' ? resource : null], for [resource] the last
    part of the path; [None] also when the path has no part. *)
Definition postId_of (pathParts : list string) : option string :=
  match last pathParts with
  | Some resource => if String.eqb resource "community" then None else Some resource
  | None => None
  end.

Definition endpoint_not_found : response :=
  mkResponse 404 (Failure "Endpoint not found").

(** A handler of a post whose body cannot be read: the lookup and the
    answers that come before the line reading the body, then the error
    that line throws.  [refusal] is the answer of the permission check,
    for the handler that has one. *)
Definition unreadable_body (postId : string) (refusal : post → option response)
  : M response :=
  postData <~ gets (Redis.hgetall_post postId) ;;
  match postData with
  | None => ret not_found
  | Some postData =>
      if negb (truthy (post_id postData)) then ret not_found
      else
        match refusal postData with
        | Some r => ret r
        | None => throw
        end
  end.

Section Exports.

(** [authenticate ev] is the user id [authenticateUser(event)] returns,
    [None] when it throws; [users] holds the records read under
    [user:${userId}], which no handler of this file writes. *)
Variable authenticate : event → option string.
Variable users : gmap string user_data.
Variable Date_getTime : string → post_view → option Z.

(** [getUserData]: throws when the record is absent. *)
Definition getUserData (userId : string) : M user_data :=
  match users !! userId with
  | Some userData => ret userData
  | None => throw
  end.

(** The [switch] on the method, for a caller that is authenticated. *)
Definition protected_route (newId now : string) (ev : event) (postId : option string)
    (isCommentsEndpoint : bool) (userId : string) (user : user_data) : M response :=
  if String.eqb (httpMethod ev) "POST" then
    match postId with
    | None =>
        match event_body ev with
        | Some requestBody =>
            handleCreatePost newId now (post_body_of requestBody) userId user
        | None => throw
        end
    | Some postId =>
        if isCommentsEndpoint then
          match event_body ev with
          | Some requestBody =>
              handleCreateComment newId now (rb_content requestBody) postId userId user
          | None => unreadable_body postId (fun _ => None)
          end
        else if includes (path ev) "/like" then
          match event_body ev with
          | Some requestBody => handleLikePost (rb_action requestBody) postId userId
          | None => unreadable_body postId (fun _ => None)
          end
        else if includes (path ev) "/bookmark" then
          match event_body ev with
          | Some requestBody => handleBookmarkPost (rb_action requestBody) postId userId
          | None => unreadable_body postId (fun _ => None)
          end
        else ret endpoint_not_found
    end
  else if String.eqb (httpMethod ev) "PUT" then
    match postId with
    | Some postId =>
        match event_body ev with
        | Some requestBody =>
            handleUpdatePost now (post_body_of requestBody) postId userId user
        | None =>
            unreadable_body postId (fun postData =>
              if not_permitted postData userId user then
                Some (mkResponse 403
                        (Failure "You do not have permission to update this post"))
              else None)
        end
    | None => ret endpoint_not_found
    end
  else if String.eqb (httpMethod ev) "DELETE" then
    match postId with
    | Some postId => handleDeletePost postId userId user
    | None => ret endpoint_not_found
    end
  else ret endpoint_not_found.

(** The body of the [try]; [newId] and [now] are what [nanoid()] and the
    clock give during the call. *)
Definition exports_route (newId now : string) (ev : event) : M reply :=
  if String.eqb (httpMethod ev) "OPTIONS" then ret Preflight
  else
    let pathParts := path_parts (path ev) in
    let postId := postId_of pathParts in
    let isCommentsEndpoint := bool_decide ("comments" ∈ pathParts) in
    if String.eqb (httpMethod ev) "GET" then
      match postId with
      | None =>
          gets (fun s => Reply (handleGetPosts Date_getTime
                                  (default no_query (queryStringParameters ev)) s))
      | Some postId =>
          if isCommentsEndpoint then gets (fun s => Reply (handleGetComments postId s))
          else gets (fun s => Reply (handleGetPost postId s))
      end
    else
      match authenticate ev with
      | None => ret (Reply (mkResponse 401 (Failure "Authentication required")))
      | Some userId =>
          user <~ getUserData userId ;;
          r <~ protected_route newId now ev postId isCommentsEndpoint userId user ;;
          ret (Reply r)
      end.

(** Whatever is thrown inside the [try] is answered with status 500. *)
Definition exports_handler (newId now : string) (ev : event) (s : store)
  : reply * store :=
  match exports_route newId now ev s with
  | (Return r, s') => (r, s')
  | (Throw, s') => (Reply (mkResponse 500 (Failure "Internal server error")), s')
  end.

End Exports.

(** A path segment: it holds no slash. *)
Fixpoint no_slash (s : string) : bool :=
  match s with
  | String c s' => negb (Ascii.eqb c "/") && no_slash s'
  | EmptyString => true
  end.

(** The status codes of the handlers' answers. *)
Definition handler_statuses : list nat := [200; 201; 400; 403; 404].

(** Sample requests: U1 and U2 are registered, the caller is U2. *)
Definition members : gmap string user_data := {[ "u1" := ann; "u2" := bob ]}.

Definition as_u2 : event → option string := fun _ => Some "u2".

Definition anonymous : event → option string := fun _ => None.

Definition empty_body : request_body := mkBody None None None None None.

(** A verifier that knows one token, the one of U2, and a cookie reader
    for a cookie text that holds the token only. *)
Definition demo_verify (token : string) : option jwt_claims :=
  if String.eqb token "tok" then Some (mkClaims (Some "u2") None) else None.

Definition demo_cookie (cookies : string) : option string :=
  if String.prefix "auth_token=" cookies then Some (substring_from 11 cookies) else None.

(** Every stored post is in the indexes its hash names: the global list,
    its author's list, the set of its category and the set of each of its
    tags. *)
Definition indexed (s : store) : Prop :=
  ∀ id P, post_hashes s !! id = Some P →
    id ∈ Redis.lrange community_posts s
    ∧ id ∈ Redis.lrange (user_posts (post_authorId P)) s
    ∧ id ∈ Redis.smembers (category_set (post_category P)) s
    ∧ ∀ tag, tag ∈ parse_tags_or_empty P → id ∈ Redis.smembers (tag_set tag) s.

(** The order of a listing sorted by a count: from the highest when
    descending, from the lowest otherwise. *)
Definition by_count (count : post_view → nat) (desc : bool) (a b : post_view) : Prop :=
  if desc then (count b ≤ count a)%nat else (count a ≤ count b)%nat.

(** A listing with no filter. *)
Definition unfiltered (userId sortBy sortOrder : option string) : query :=
  mkQuery None None None None userId sortBy sortOrder.

(** The order of a listing sorted by a date: from the latest when
    descending, from the earliest otherwise; a date that does not read
    compares as equal to any other. *)
Definition by_time (time : post_view → option Z) (desc : bool) (a b : post_view) : Prop :=
  match time a, time b with
  | Some ta, Some tb => if desc then (tb ≤ ta)%Z else (ta ≤ tb)%Z
  | _, _ => True
  end.

(** ** Stores made with fresh ids

    [nanoid()] is taken never to give an id twice, nor the empty text: a
    request is made with fresh ids when the id it brings for a new post or
    comment is not empty and names no stored post or comment. *)
Definition fresh_ids (req : request) (s : store) : Prop :=
  match req with
  | CreatePost postId _ _ _ _ => postId ≠ "" ∧ post_hashes s !! postId = None
  | CreateComment commentId _ _ _ _ _ =>
      commentId ≠ "" ∧ comment_hashes s !! commentId = None
  | _ => True
  end.

Inductive reachable_fresh (Date_getTime : string → post_view → option Z)
  : store → Prop :=
| fresh_empty : reachable_fresh Date_getTime empty_store
| fresh_step s req :
    reachable_fresh Date_getTime s → fresh_ids req s →
    reachable_fresh Date_getTime (handler Date_getTime req s).2.

(** The indexes hold nothing but what is stored: a post hash bears the id
    of its key; every id of a posts list, of a category set, of a tag set
    and of a bookmark set names a stored post, of that author, category
    and tag; no posts list and no comment list holds an id twice; and
    every id of the comment list of a post names a stored comment of that
    post. *)
Record tidy (s : store) : Prop := mkTidy {
  tidy_id : ∀ id P, post_hashes s !! id = Some P → post_id P = id ∧ id ≠ "";
  tidy_global : ∀ id,
    id ∈ Redis.lrange community_posts s → is_Some (post_hashes s !! id);
  tidy_author : ∀ u id,
    id ∈ Redis.lrange (user_posts u) s →
    ∃ P, post_hashes s !! id = Some P ∧ post_authorId P = u;
  tidy_category : ∀ c id,
    id ∈ Redis.smembers (category_set c) s →
    ∃ P, post_hashes s !! id = Some P ∧ post_category P = c;
  tidy_tag : ∀ t id,
    id ∈ Redis.smembers (tag_set t) s →
    ∃ P, post_hashes s !! id = Some P ∧ t ∈ parse_tags_or_empty P;
  tidy_bookmarks : ∀ u id,
    id ∈ Redis.smembers (user_bookmarks u) s → is_Some (post_hashes s !! id);
  tidy_global_once : NoDup (Redis.lrange community_posts s);
  tidy_author_once : ∀ u, NoDup (Redis.lrange (user_posts u) s);
  tidy_comments : ∀ postId id,
    id ∈ Redis.lrange (post_comments postId) s →
    ∃ c, comment_hashes s !! id = Some c ∧ comment_id c = id ∧ id ≠ ""
         ∧ comment_postId c = postId;
  tidy_comments_once : ∀ postId, NoDup (Redis.lrange (post_comments postId) s)
}.

(** The reply of the router to a request it hands to a handler: the
    handler's answer, or 500 when the handler throws. *)
Definition answered (m : M response) (s : store) : reply * store :=
  match m s with
  | (Return r, s') => (Reply r, s')
  | (Throw, s') => (Reply (mkResponse 500 (Failure "Internal server error")), s')
  end.

(** A query with its bookmarked field dropped. *)
Definition without_bookmarked (q : query) : query :=
  mkQuery (q_search q) (q_category q) (q_tags q) None (q_userId q)
          (q_sortBy q) (q_sortOrder q).

(** * Properties *)

(** ** Strings and JSON *)

Lemma string_app_cons c (s t : string) : String c s +:+ t = String c (s +:+ t).
Proof. reflexivity. Qed.

Lemma string_app_nil_r (s : string) : s +:+ "" = s.
Proof. induction s as [|c s IH]; [done |]. by rewrite string_app_cons, IH. Qed.

Lemma string_app_assoc (a b c : string) : (a +:+ b) +:+ c = a +:+ (b +:+ c).
Proof. induction a as [|x a IH]; [done |]. by rewrite !string_app_cons, IH. Qed.

Lemma truthy_true s : truthy s = true ↔ s ≠ "".
Proof. by destruct s. Qed.

Lemma truthy_false s : truthy s = false ↔ s = "".
Proof. by destruct s. Qed.

Lemma missing_falsy field : missing field → truthy_opt field = false.
Proof. by intros [-> | ->]. Qed.

Lemma prefix_spec a : ∀ b, String.prefix a b = true ↔ ∃ suf, b = a +:+ suf.
Proof.
  induction a as [|c a IH]; intros b.
  - destruct b; simpl; split; eauto.
  - destruct b as [|d b]; simpl.
    + split; [done | by intros [suf ?]].
    + destruct (ascii_dec c d) as [-> | Hne].
      * rewrite IH. split; intros [suf Hs]; exists suf.
        -- by rewrite string_app_cons, <- Hs.
        -- rewrite string_app_cons in Hs. by simplify_eq.
      * split; [done |]. intros [suf Hs]. rewrite string_app_cons in Hs. by simplify_eq.
Qed.

Lemma includes_spec hay : ∀ needle, includes hay needle = true ↔ is_substring needle hay.
Proof.
  induction hay as [|c hay IH]; intros needle; cbn [includes].
  - rewrite orb_false_r, prefix_spec. split.
    + intros [suf Hs]. by exists "", suf.
    + intros (pre & suf & Hs). destruct pre; [by exists suf | done].
  - rewrite orb_true_iff, prefix_spec, IH. split.
    + intros [[suf Hs] | (pre & suf & Hs)].
      * by exists "", suf.
      * exists (String c pre), suf. by rewrite string_app_cons, <- Hs.
    + intros (pre & suf & Hs). destruct pre as [|d pre].
      * left. by exists suf.
      * right. exists pre, suf. rewrite string_app_cons in Hs. by simplify_eq.
Qed.

Module JSONFacts.

Import JSON.

(** One escaped character is read back as the character it stands for. *)
Lemma parse_quote_char c acc out rest :
  parse_run (PStr acc) out (quote_char c +:+ rest)
  = parse_run (PStr (snoc acc c)) out rest.
Proof. destruct c as [[] [] [] [] [] [] [] []]; reflexivity. Qed.

Lemma parse_quote_body x : ∀ acc out rest,
  parse_run (PStr acc) out (quote_body x +:+ String dquote rest)
  = parse_run PAfter (out ++ [acc +:+ x])%list rest.
Proof.
  induction x as [|c x IH]; intros acc out rest.
  - simpl. by rewrite string_app_nil_r.
  - cbn [quote_body]. rewrite string_app_assoc, parse_quote_char, IH.
    unfold snoc. by rewrite string_app_assoc.
Qed.

Lemma parse_quote st x out rest :
  st = PFirst ∨ st = PNext →
  parse_run st out (quote x +:+ rest) = parse_run PAfter (out ++ [x])%list rest.
Proof.
  intros Hst. unfold quote.
  rewrite string_app_cons, string_app_assoc.
  destruct Hst as [-> | ->]; simpl; apply (parse_quote_body x "").
Qed.

Lemma parse_after_comma out rest :
  parse_run PAfter out (String "," rest) = parse_run PNext out rest.
Proof. reflexivity. Qed.

Lemma parse_start_bracket out rest :
  parse_run PStart out (String "[" rest) = parse_run PFirst out rest.
Proof. reflexivity. Qed.

Lemma parse_join l : ∀ st out,
  st = PFirst ∨ st = PNext → l ≠ [] →
  parse_run st out (join_quoted l +:+ "]") = Some (out ++ l)%list.
Proof.
  induction l as [|x l IH]; intros st out Hst Hl; [done |].
  destruct l as [|y l].
  - cbn [join_quoted]. by rewrite parse_quote.
  - change (join_quoted (x :: y :: l))
      with (quote x +:+ String "," (join_quoted (y :: l))).
    rewrite string_app_assoc, parse_quote by done.
    rewrite string_app_cons, parse_after_comma, IH; [| by right | done].
    by rewrite <- app_assoc.
Qed.

(** [JSON.parse(JSON.stringify(l))] gives [l] back. *)
Lemma parse_stringify l : parse (stringify l) = Some l.
Proof.
  destruct l as [|x l]; [done |].
  unfold parse, stringify.
  by rewrite parse_start_bracket, parse_join; [| left |].
Qed.

(** The text of an array is never the empty string. *)
Lemma stringify_truthy l : truthy (stringify l) = true.
Proof. reflexivity. Qed.

Lemma parse_stored_tags l : parse (or_else (stringify l) "[]") = Some l.
Proof. unfold or_else. rewrite stringify_truthy. apply parse_stringify. Qed.

End JSONFacts.

Example stringify_ab :
  JSON.stringify ["a"; "b"]
  = "[" +:+ JSON.quote "a" +:+ "," +:+ JSON.quote "b" +:+ "]".
Proof. reflexivity. Qed.

Example parse_ctrl : JSON.parse (JSON.stringify [control_tag]) = Some [control_tag].
Proof. reflexivity. Qed.

Example parse_white : JSON.parse " [ ]  " = Some [].
Proof. reflexivity. Qed.

Example parse_not_array : JSON.parse "a,b" = None.
Proof. reflexivity. Qed.

Example trim_ex : trim "  a b  " = "a b".
Proof. reflexivity. Qed.

Example split_ex : split "," "ai, web3" = ["ai"; " web3"].
Proof. reflexivity. Qed.

Example tagArray_ex : tagArray_of "ai, web3" = ["ai"; "web3"].
Proof. reflexivity. Qed.

(** ** Key names *)

Lemma string_app_nil_l (s : string) : "" +:+ s = s.
Proof. reflexivity. Qed.

Lemma no_colon_app a b : no_colon (a +:+ b) = no_colon a && no_colon b.
Proof.
  induction a as [|c a IH]; [done |].
  rewrite string_app_cons. simpl. by rewrite IH, andb_assoc.
Qed.

Lemma no_colon_suffixed a x : no_colon (a +:+ String ":" x) = false.
Proof. rewrite no_colon_app. simpl. apply andb_false_r. Qed.

(** Two texts cut at their first colon agree on both sides of it. *)
Lemma app_colon_inj a b x y :
  no_colon a = true → no_colon b = true →
  a +:+ String ":" x = b +:+ String ":" y → a = b ∧ x = y.
Proof.
  revert b. induction a as [|c a IH]; intros [|d b] Ha Hb Heq.
  - rewrite !string_app_nil_l in Heq. by simplify_eq.
  - rewrite string_app_nil_l, string_app_cons in Heq. by simplify_eq.
  - rewrite string_app_nil_l, string_app_cons in Heq. by simplify_eq.
  - rewrite !string_app_cons in Heq. simplify_eq.
    simpl in Ha, Hb. apply andb_true_iff in Ha as [_ Ha], Hb as [_ Hb].
    destruct (IH b Ha Hb) as [-> ->]; done.
Qed.

Lemma last_segment_app a x :
  no_colon x = true → last_segment (a +:+ String ":" x) = x.
Proof.
  intros Hx. induction a as [|c a IH].
  - rewrite string_app_nil_l. simpl. by rewrite Hx.
  - rewrite string_app_cons. simpl. by rewrite no_colon_suffixed.
Qed.

Theorem key_name_inj k1 k2 :
  plain_id k1 = true → plain_id k2 = true →
  key_name k1 = key_name k2 → k1 = k2.
Proof.
  intros H1 H2 Heq.
  destruct k1 as [u1 | p1 | c1 | [| u1 | u1 | p1] | [p1 | c1 | g1 | t1 | u1]];
  destruct k2 as [u2 | p2 | c2 | [| u2 | u2 | p2] | [p2 | c2 | g2 | t2 | u2]];
    simpl in H1, H2; unfold key_name in Heq;
    rewrite ?string_app_cons, ?string_app_nil_l in Heq; simplify_eq;
    try done;
    try (by rewrite no_colon_suffixed in H1);
    try (by rewrite no_colon_suffixed in H2);
    try (by destruct (app_colon_inj _ _ _ _ H1 H2 Heq) as [-> ?]; simplify_eq).
Qed.

(** The keys [keys('user:*:bookmarks')] finds are the bookmark sets. *)
Theorem matches_bookmarks_iff k :
  plain_id k = true →
  matches_bookmarks (key_name k) ↔ ∃ u, k = set_of (user_bookmarks u).
Proof.
  intros Hk. split; [| by intros [u ->]; exists u].
  intros [star Heq].
  destruct k as [u | p | c | [| u | u | p] | [p | c | g | t | u]];
    simpl in Hk; unfold key_name in Heq;
    rewrite ?string_app_cons, ?string_app_nil_l in Heq; simplify_eq;
    try (by rewrite no_colon_suffixed in Hk);
    try (by apply (f_equal last_segment) in Heq;
         rewrite !last_segment_app in Heq by done).
  by exists u.
Qed.

(** The keys deletePost walks are the sets whose name matches the glob. *)
Lemma keys_bookmarks_spec s k :
  plain_id (set_of k) = true →
  k ∈ Redis.keys_bookmarks s
  ↔ is_Some (sets s !! k) ∧ matches_bookmarks (key_name (set_of k)).
Proof.
  intros Hk. unfold Redis.keys_bookmarks.
  rewrite list_elem_of_filter, elem_of_elements, elem_of_dom, matches_bookmarks_iff by done.
  split.
  - intros [Hb ?]. split; [done |]. destruct k; try done. eauto.
  - intros [? [u [= ->]]]. done.
Qed.

(** ** The store client *)

Module RedisFacts.

Import Redis.

Implicit Types (s : store) (v : string).

Lemma smembers_sadd (k k' : set_key) v s :
  smembers k' (exec (sadd k v) s)
  = if decide (k = k') then {[v]} ∪ smembers k' s else smembers k' s.
Proof.
  unfold smembers, exec, sadd, modify; simpl.
  rewrite lookup_insert. by destruct (decide (k = k')) as [-> |].
Qed.

Lemma srem_one_members v (o : option (gset string)) :
  default ∅ (srem_one v o) = default ∅ o ∖ {[v]}.
Proof.
  destruct o as [X |]; simpl; [| set_solver].
  destruct (decide (v ∈ X)); simpl; [| set_solver].
  by destruct (decide (X ∖ {[v]} = ∅)) as [-> |].
Qed.

Lemma smembers_srem (k k' : set_key) v s :
  smembers k' (exec (srem k v) s)
  = if decide (k = k') then smembers k' s ∖ {[v]} else smembers k' s.
Proof.
  unfold smembers, exec, srem, modify; simpl.
  rewrite lookup_partial_alter.
  destruct (decide (k = k')) as [-> |]; [apply srem_one_members | done].
Qed.

Lemma smembers_del_set (k k' : set_key) s :
  smembers k' (exec (del_set k) s)
  = if decide (k = k') then ∅ else smembers k' s.
Proof.
  unfold smembers, exec, del_set, modify; simpl.
  rewrite lookup_delete. by destruct (decide (k = k')).
Qed.

Lemma lrange_lpush (k k' : list_key) v s :
  lrange k' (exec (lpush k v) s)
  = if decide (k = k') then v :: lrange k' s else lrange k' s.
Proof.
  unfold lrange, exec, lpush, modify; simpl.
  rewrite lookup_insert. by destruct (decide (k = k')) as [-> |].
Qed.

Lemma filter_ne_id v (l : list string) : v ∉ l → filter (fun x => x ≠ v) l = l.
Proof.
  induction l as [|y l IH]; [done |].
  intros [Hy Hl]%not_elem_of_cons.
  rewrite filter_cons_True by done. by rewrite IH.
Qed.

Lemma lrem_all_members v (o : option (list string)) :
  default [] (lrem_all v o) = filter (fun x => x ≠ v) (default [] o).
Proof.
  destruct o as [l |]; simpl; [| done].
  destruct (decide (v ∈ l)); simpl; [| by rewrite filter_ne_id].
  by destruct (filter _ l).
Qed.

Lemma lrange_lrem (k k' : list_key) v s :
  lrange k' (exec (lrem k v) s)
  = if decide (k = k') then filter (fun x => x ≠ v) (lrange k' s) else lrange k' s.
Proof.
  unfold lrange, exec, lrem, modify; simpl.
  rewrite lookup_partial_alter.
  destruct (decide (k = k')) as [-> |]; [apply lrem_all_members | done].
Qed.

Lemma lrange_del_list (k k' : list_key) s :
  lrange k' (exec (del_list k) s)
  = if decide (k = k') then [] else lrange k' s.
Proof.
  unfold lrange, exec, del_list, modify; simpl.
  rewrite lookup_delete. by destruct (decide (k = k')).
Qed.

(** A loop whose body only writes returns, and runs its body in order. *)
Lemma for_of_writes {A} (body : A → M unit) (l : list A) :
  (∀ x s, (body x s).1 = Return tt) →
  ∀ s, for_of l body s = (Return tt, exec (for_of l body) s).
Proof.
  intros Hb. induction l as [|x l IH]; intros s; [done |].
  unfold exec. simpl. unfold bind.
  specialize (Hb x s). destruct (body x s) as [[[] |] s1]; [| done].
  rewrite IH. done.
Qed.

Lemma exec_for_of_cons {A} (body : A → M unit) x (l : list A) s :
  (body x s).1 = Return tt →
  exec (for_of (x :: l) body) s = exec (for_of l body) (exec (body x) s).
Proof.
  intros Hb. unfold exec. simpl. unfold bind.
  destruct (body x s) as [[[] |] s1]; done.
Qed.

Section Loops.
Context {A : Type} (key_of : A → set_key) (v : string).

Lemma for_sadd_writes (l : list A) s :
  for_of l (fun x => sadd (key_of x) v) s
  = (Return tt, exec (for_of l (fun x => sadd (key_of x) v)) s).
Proof. by apply for_of_writes. Qed.

Lemma for_srem_writes (l : list A) s :
  for_of l (fun x => srem (key_of x) v) s
  = (Return tt, exec (for_of l (fun x => srem (key_of x) v)) s).
Proof. by apply for_of_writes. Qed.

Lemma for_sadd_frame (l : list A) s :
  post_hashes (exec (for_of l (fun x => sadd (key_of x) v)) s) = post_hashes s
  ∧ comment_hashes (exec (for_of l (fun x => sadd (key_of x) v)) s) = comment_hashes s
  ∧ lists (exec (for_of l (fun x => sadd (key_of x) v)) s) = lists s.
Proof.
  revert s. induction l as [|x l IH]; intros s; [done |].
  rewrite exec_for_of_cons by done.
  by destruct (IH (exec (sadd (key_of x) v) s)) as (-> & -> & ->).
Qed.

Lemma for_srem_frame (l : list A) s :
  post_hashes (exec (for_of l (fun x => srem (key_of x) v)) s) = post_hashes s
  ∧ comment_hashes (exec (for_of l (fun x => srem (key_of x) v)) s) = comment_hashes s
  ∧ lists (exec (for_of l (fun x => srem (key_of x) v)) s) = lists s.
Proof.
  revert s. induction l as [|x l IH]; intros s; [done |].
  rewrite exec_for_of_cons by done.
  by destruct (IH (exec (srem (key_of x) v) s)) as (-> & -> & ->).
Qed.

Lemma smembers_for_sadd (l : list A) k s :
  smembers k (exec (for_of l (fun x => sadd (key_of x) v)) s)
  = if decide (k ∈ key_of <$> l) then {[v]} ∪ smembers k s else smembers k s.
Proof.
  revert s. induction l as [|x l IH]; intros s.
  - done.
  - rewrite exec_for_of_cons by done. rewrite IH, smembers_sadd, fmap_cons.
    repeat case_decide; set_solver.
Qed.

Lemma smembers_for_srem (l : list A) k s :
  smembers k (exec (for_of l (fun x => srem (key_of x) v)) s)
  = if decide (k ∈ key_of <$> l) then smembers k s ∖ {[v]} else smembers k s.
Proof.
  revert s. induction l as [|x l IH]; intros s.
  - done.
  - rewrite exec_for_of_cons by done. rewrite IH, smembers_srem, fmap_cons.
    repeat case_decide; set_solver.
Qed.
End Loops.

End RedisFacts.

Import RedisFacts.

Module ShrinkFacts.
Import Redis.

Lemma shrinks_refl s : shrinks s s.
Proof. by split. Qed.

Lemma shrinks_trans s1 s2 s3 : shrinks s1 s2 → shrinks s2 s3 → shrinks s1 s3.
Proof. intros [? ?] [? ?]. split; intros k; etrans; eauto. Qed.

Lemma shrinks_srem k v s : shrinks (exec (srem k v) s) s.
Proof.
  split; intros k'; [| done].
  rewrite smembers_srem. case_decide; set_solver.
Qed.

Lemma shrinks_del_set k s : shrinks (exec (del_set k) s) s.
Proof.
  split; intros k'; [| done].
  rewrite smembers_del_set. case_decide; set_solver.
Qed.

Lemma shrinks_lrem k v s : shrinks (exec (lrem k v) s) s.
Proof.
  split; intros k'; [done |].
  rewrite lrange_lrem. case_decide; [| done].
  intros x [_ Hx]%list_elem_of_filter; done.
Qed.

Lemma shrinks_del_list k s : shrinks (exec (del_list k) s) s.
Proof.
  split; intros k'; [done |].
  rewrite lrange_del_list. case_decide; [| done]. by intros x ?%elem_of_nil.
Qed.

Lemma shrinks_del_post id s : shrinks (exec (del_post id) s) s.
Proof. by split. Qed.

Lemma shrinks_for_srem {A} (key : A → set_key) v (l : list A) s :
  shrinks (exec (for_of l (fun x => srem (key x) v)) s) s.
Proof.
  split; intros k.
  - rewrite smembers_for_srem. case_decide; set_solver.
  - unfold lrange. by destruct (for_srem_frame key v l s) as (_ & _ & ->).
Qed.

Lemma for_srem_keys_writes v (l : list set_key) s :
  for_of l (fun key => srem key v) s
  = (Return tt, exec (for_of l (fun key => srem key v)) s).
Proof. by apply for_of_writes. Qed.

Lemma smembers_for_srem_keys v (l : list set_key) k s :
  k ∈ l → v ∉ smembers k (exec (for_of l (fun key => srem key v)) s).
Proof.
  intros Hk. rewrite (smembers_for_srem (fun key => key)).
  rewrite list_fmap_id, decide_True by done. set_solver.
Qed.

Lemma srem_keeps_absent k v k' s :
  sets s !! k' = None → sets (exec (srem k v) s) !! k' = None.
Proof.
  intros Hk. unfold exec, srem, modify; simpl.
  rewrite lookup_partial_alter. case_decide; [subst; by rewrite Hk | done].
Qed.

Lemma for_srem_keeps_absent v (l : list set_key) k' s :
  sets s !! k' = None →
  sets (exec (for_of l (fun key => srem key v)) s) !! k' = None.
Proof.
  revert s. induction l as [|k l IH]; intros s Hk; [done |].
  rewrite exec_for_of_cons by done. by apply IH, srem_keeps_absent.
Qed.

Lemma not_in_keys_bookmarks u s :
  user_bookmarks u ∉ keys_bookmarks s → smembers (user_bookmarks u) s = ∅.
Proof.
  unfold keys_bookmarks, smembers. intros Hk.
  destruct (sets s !! user_bookmarks u) as [X |] eqn:HX; [| done].
  exfalso. apply Hk, list_elem_of_filter. split; [done |].
  apply elem_of_elements, elem_of_dom. eauto.
Qed.
End ShrinkFacts.

Import ShrinkFacts.

Lemma sadd_twice k v s :
  exec (Redis.sadd k v) (exec (Redis.sadd k v) s) = exec (Redis.sadd k v) s.
Proof.
  unfold exec, Redis.sadd, modify, with_sets, Redis.smembers; simpl.
  rewrite lookup_insert_eq, insert_insert_eq. simpl.
  do 2 f_equal. set_solver.
Qed.

Lemma srem_absent k v s :
  v ∉ Redis.smembers k s → exec (Redis.srem k v) s = s.
Proof.
  unfold exec, Redis.srem, modify, with_sets, Redis.smembers; simpl. intros Hv.
  destruct s as [ph ch ls ss]; simpl in *. f_equal.
  apply map_eq. intros k'. rewrite lookup_partial_alter.
  case_decide as Hk; [subst k' | done].
  destruct (ss !! k) as [X |]; simpl in *; [| done].
  by rewrite decide_False.
Qed.

Lemma subseteq_nil (l : list string) : l ⊆ [] → l = [].
Proof.
  destruct l as [|x l]; [done |]. intros H.
  exfalso. apply (elem_of_nil x), H. by left.
Qed.

Lemma map_fmap {A B} (f : A → B) (l : list A) : map f l = f <$> l.
Proof. induction l; by f_equal/=. Qed.

Lemma omap_id_map {A B} (f : A → option B) (l : list A) :
  omap (fun p => p) (map f l) = omap f l.
Proof.
  induction l as [|x l IH]; [done |].
  change (omap (fun p => p) (map f (x :: l)))
    with (match f x with Some y => y :: omap (fun p => p) (map f l)
          | None => omap (fun p => p) (map f l) end).
  change (omap f (x :: l))
    with (match f x with Some y => y :: omap f l | None => omap f l end).
  by rewrite IH.
Qed.

(** ** What a handler answers when the post is not there *)

(** A post either is there, with an id that is not empty, or every handler
    answers that it is not found. *)
Lemma post_found_or_not postId s :
  (∃ P, post_hashes s !! postId = Some P ∧ truthy (post_id P) = true)
  ∨ (∀ P, post_hashes s !! postId = Some P → post_id P = "").
Proof.
  destruct (post_hashes s !! postId) as [P |]; [| by right].
  destruct (truthy (post_id P)) eqn:Hid; [left; eauto |].
  right. intros ? [= <-]. by apply truthy_false.
Qed.

Lemma handleUpdatePost_not_found now requestBody postId userId user s :
  (∀ P, post_hashes s !! postId = Some P → post_id P = "") →
  handleUpdatePost now requestBody postId userId user s = (Return not_found, s).
Proof.
  intros HP. unfold handleUpdatePost, bind at 1. simpl. unfold Redis.hgetall_post.
  destruct (post_hashes s !! postId) as [P |]; [| done].
  by rewrite (HP P eq_refl).
Qed.

Lemma handleDeletePost_not_found postId userId user s :
  (∀ P, post_hashes s !! postId = Some P → post_id P = "") →
  handleDeletePost postId userId user s = (Return not_found, s).
Proof.
  intros HP. unfold handleDeletePost, bind at 1. simpl. unfold Redis.hgetall_post.
  destruct (post_hashes s !! postId) as [P |]; [| done].
  by rewrite (HP P eq_refl).
Qed.

Lemma handleCreateComment_not_found commentId now content postId userId user s :
  (∀ P, post_hashes s !! postId = Some P → post_id P = "") →
  handleCreateComment commentId now content postId userId user s = (Return not_found, s).
Proof.
  intros HP. unfold handleCreateComment, bind at 1. simpl. unfold Redis.hgetall_post.
  destruct (post_hashes s !! postId) as [P |]; [| done].
  by rewrite (HP P eq_refl).
Qed.

Lemma handleLikePost_not_found action postId userId s :
  (∀ P, post_hashes s !! postId = Some P → post_id P = "") →
  handleLikePost action postId userId s = (Return not_found, s).
Proof.
  intros HP. unfold handleLikePost, bind at 1. simpl. unfold Redis.hgetall_post.
  destruct (post_hashes s !! postId) as [P |]; [| done].
  by rewrite (HP P eq_refl).
Qed.

(** ** createPost *)

Lemma handleCreatePost_run postId now requestBody userId user s title content :
  body_title requestBody = Some title → truthy title = true →
  body_content requestBody = Some content → truthy content = true →
  let P := new_post postId now title content requestBody userId user in
  let tags := default [] (body_tags requestBody) in
  handleCreatePost postId now requestBody userId user s
  = (Return (mkResponse 201 (PostData (mkPostView P tags 0 0 None None))),
     created_store postId userId P tags s).
Proof.
  intros Ht Htt Hc Hct. unfold handleCreatePost. rewrite Ht, Hc, Htt, Hct. simpl.
  unfold bind at 1. simpl. unfold bind at 1. simpl. unfold bind at 1. simpl.
  unfold bind at 1. simpl. unfold bind. rewrite for_sadd_writes. done.
Qed.

Lemma handleCreatePost_rejects postId now requestBody userId user s :
  truthy_opt (body_title requestBody) = false
  ∨ truthy_opt (body_content requestBody) = false →
  handleCreatePost postId now requestBody userId user s
  = (Return (mkResponse 400 (Failure "Title and content are required")), s).
Proof.
  unfold handleCreatePost.
  destruct (body_title requestBody) as [title |], (body_content requestBody) as [content |];
    simpl; intros [H | H]; try done; rewrite H; try done.
  by rewrite orb_true_r.
Qed.

Lemma handleCreatePost_201 postId now requestBody userId user s r s' :
  handleCreatePost postId now requestBody userId user s = (Return r, s') →
  statusCode r = 201 →
  ∃ title content,
    body_title requestBody = Some title ∧ truthy title = true
    ∧ body_content requestBody = Some content ∧ truthy content = true.
Proof.
  intros Hrun H201.
  destruct (truthy_opt (body_title requestBody)) eqn:Ht;
    [destruct (truthy_opt (body_content requestBody)) eqn:Hc |].
  - destruct (body_title requestBody) as [title |]; [| done].
    destruct (body_content requestBody) as [content |]; [| done].
    by exists title, content.
  - rewrite handleCreatePost_rejects in Hrun by auto. by simplify_eq.
  - rewrite handleCreatePost_rejects in Hrun by auto. by simplify_eq.
Qed.

Lemma created_store_frame postId userId P tags s :
  post_hashes (created_store postId userId P tags s) = <[postId := P]> (post_hashes s)
  ∧ comment_hashes (created_store postId userId P tags s) = comment_hashes s.
Proof.
  unfold created_store.
  by destruct (for_sadd_frame tag_set postId tags
    (exec (Redis.sadd (category_set (post_category P)) postId)
       (exec (Redis.lpush (user_posts userId) postId)
          (exec (Redis.lpush community_posts postId)
             (exec (Redis.hset_post postId P) s))))) as (-> & -> & _).
Qed.

Lemma created_store_lrange postId userId P tags s k :
  Redis.lrange k (created_store postId userId P tags s)
  = if decide (user_posts userId = k) then postId :: Redis.lrange k s
    else if decide (community_posts = k) then postId :: Redis.lrange k s
    else Redis.lrange k s.
Proof.
  unfold created_store, Redis.lrange at 1.
  destruct (for_sadd_frame tag_set postId tags
    (exec (Redis.sadd (category_set (post_category P)) postId)
       (exec (Redis.lpush (user_posts userId) postId)
          (exec (Redis.lpush community_posts postId)
             (exec (Redis.hset_post postId P) s))))) as (_ & _ & ->).
  change (Redis.lrange k (exec (Redis.lpush (user_posts userId) postId)
          (exec (Redis.lpush community_posts postId)
             (exec (Redis.hset_post postId P) s))) = 
   if decide (user_posts userId = k) then postId :: Redis.lrange k s
    else if decide (community_posts = k) then postId :: Redis.lrange k s
    else Redis.lrange k s).
  rewrite !lrange_lpush. repeat case_decide; simplify_eq; done.
Qed.

Lemma created_store_smembers postId userId P tags s k :
  Redis.smembers k (created_store postId userId P tags s)
  = if decide (k ∈ tag_set <$> tags) then
      {[postId]} ∪ (if decide (category_set (post_category P) = k)
                    then {[postId]} ∪ Redis.smembers k s else Redis.smembers k s)
    else if decide (category_set (post_category P) = k)
         then {[postId]} ∪ Redis.smembers k s else Redis.smembers k s.
Proof.
  unfold created_store. rewrite smembers_for_sadd, smembers_sadd. done.
Qed.

Example store_p1_record : post_hashes store_p1 !! "p1" = Some showcase_post.
Proof. reflexivity. Qed.

(** C2.  A createPost call that succeeds (status 201) has written the hash
    of the post it answers with, and the id of that post is in the global
    list, in the list of its author, in the set of its category and in the
    set of every tag of its tag array. *)
Theorem createPost_indexed postId now requestBody userId user s r s' :
  handleCreatePost postId now requestBody userId user s = (Return r, s') →
  statusCode r = 201 →
  ∃ P, body r = PostData P
    ∧ post_hashes s' !! postId = Some (view_data P)
    ∧ post_id (view_data P) = postId
    ∧ post_authorId (view_data P) = userId
    ∧ JSON.parse (post_tags (view_data P)) = Some (view_tags P)
    ∧ postId ∈ Redis.lrange community_posts s'
    ∧ postId ∈ Redis.lrange (user_posts (post_authorId (view_data P))) s'
    ∧ postId ∈ Redis.smembers (category_set (post_category (view_data P))) s'
    ∧ ∀ tag, tag ∈ view_tags P → postId ∈ Redis.smembers (tag_set tag) s'.
Proof.
  intros Hrun H201.
  destruct (handleCreatePost_201 _ _ _ _ _ _ _ _ Hrun H201)
    as (title & content & Ht & Htt & Hc & Hct).
  rewrite (handleCreatePost_run _ _ _ _ _ _ _ _ Ht Htt Hc Hct) in Hrun.
  simplify_eq. eexists. split; [done |]. simpl.
  split; [| split; [done | split; [done | split; [apply JSONFacts.parse_stringify |]]]].
  { destruct (created_store_frame postId userId
      (new_post postId now title content requestBody userId user)
      (default [] (body_tags requestBody)) s) as [-> _].
    apply lookup_insert_eq. }
  rewrite !created_store_lrange, !created_store_smembers.
  split; [| split; [| split]].
  - repeat case_decide; set_solver.
  - rewrite decide_True by done. set_solver.
  - repeat case_decide; set_solver.
  - intros tag Htag. rewrite created_store_smembers.
    rewrite decide_True by (apply list_elem_of_fmap; eauto). set_solver.
Qed.

Lemma createPost_indexed_witness :
  ∃ P, post_hashes store_p1 !! "p1" = Some (view_data P)
       ∧ "p1" ∈ Redis.lrange community_posts store_p1
       ∧ "p1" ∈ Redis.smembers (category_set (post_category (view_data P))) store_p1
       ∧ "p1" ∈ Redis.smembers (tag_set "react") store_p1.
Proof.
  destruct (createPost_indexed "p1" "d0" showcase_body "u1" ann empty_store
              (mkResponse 201 (PostData (mkPostView showcase_post ["react"] 0 0 None None)))
              store_p1)
    as (P & HP & Hh & _ & _ & _ & Hglobal & _ & Hcat & Htags).
  - reflexivity.
  - reflexivity.
  - exists P. split; [exact Hh |]. split; [exact Hglobal |]. split; [exact Hcat |].
    apply Htags. simpl in HP. injection HP as <-. simpl. by left.
Defined.

(** C6, as amended.  A createPost call that succeeds stores the category
    the body gives, whatever it is, and stores ["discussion"] when the body
    gives none; the handler knows no list of categories. *)
Theorem createPost_category postId now requestBody userId user s r s' :
  handleCreatePost postId now requestBody userId user s = (Return r, s') →
  statusCode r = 201 →
  ∃ P, post_hashes s' !! postId = Some P
    ∧ (body_category requestBody = None → post_category P = "discussion")
    ∧ (∀ category, body_category requestBody = Some category →
                   post_category P = category).
Proof.
  intros Hrun H201.
  destruct (handleCreatePost_201 _ _ _ _ _ _ _ _ Hrun H201)
    as (title & content & Ht & Htt & Hc & Hct).
  rewrite (handleCreatePost_run _ _ _ _ _ _ _ _ Ht Htt Hc Hct) in Hrun.
  simplify_eq. eexists. split.
  { destruct (created_store_frame postId userId
      (new_post postId now title content requestBody userId user)
      (default [] (body_tags requestBody)) s) as [-> _].
    apply lookup_insert_eq. }
  simpl. split; [by intros -> | by intros category ->].
Qed.

Lemma createPost_category_witness :
  ∃ P, post_hashes store_p1 !! "p1" = Some P ∧ post_category P = "showcase".
Proof.
  destruct (createPost_category "p1" "d0" showcase_body "u1" ann empty_store
              (mkResponse 201 (PostData (mkPostView showcase_post ["react"] 0 0 None None)))
              store_p1)
    as (P & HP & _ & Hcat).
  - reflexivity.
  - reflexivity.
  - exists P. split; [exact HP | exact (Hcat "showcase" eq_refl)].
Defined.

(** C6, counterexample.  ["forum"] is none of the categories the client
    offers, yet createPost stores it as the category of the post and not
    the fallback. *)
Lemma unlisted_category_is_stored :
  let request := handleCreatePost "p2" "d3"
                   (mkPostBody (Some "T") (Some "C") (Some "forum") None) "u1" ann in
  ("forum" ∉ categories)
  ∧ (request empty_store).1
    = Return (mkResponse 201 (PostData (mkPostView forum_post [] 0 0 None None)))
  ∧ post_hashes (exec request empty_store) !! "p2" = Some forum_post
  ∧ post_category forum_post ≠ "discussion".
Proof.
  split; [| split; [reflexivity |]; split; [reflexivity | discriminate]].
  unfold categories. rewrite !not_elem_of_cons.
  repeat split; (discriminate || apply not_elem_of_nil).
Qed.



(** ** addComment and listComments *)

Lemma handleCreateComment_run commentId now content postId userId user s P text :
  post_hashes s !! postId = Some P → truthy (post_id P) = true →
  content = Some text → truthy text = true →
  let c := mkComment commentId postId text userId (authorName_of user) now in
  handleCreateComment commentId now content postId userId user s
  = (Return (mkResponse 201 (CommentData (mkCommentView c 0))),
     commented_store commentId postId userId c s).
Proof.
  intros HP Hid -> Ht. unfold handleCreateComment, bind at 1. simpl.
  unfold Redis.hgetall_post. by rewrite HP, Hid, Ht.
Qed.

Lemma handleCreateComment_rejects commentId now content postId userId user s P :
  post_hashes s !! postId = Some P → truthy (post_id P) = true →
  truthy_opt content = false →
  handleCreateComment commentId now content postId userId user s
  = (Return (mkResponse 400 (Failure "Comment content is required")), s).
Proof.
  intros HP Hid Hc. unfold handleCreateComment, bind at 1. simpl.
  unfold Redis.hgetall_post. rewrite HP, Hid. simpl.
  destruct content as [text |]; [| done]. simpl in Hc. by rewrite Hc.
Qed.

(** C5, as amended.  createPost with a title or a content that is absent
    or the empty string, and addComment on a stored post with a content
    that is absent or the empty string, answer 400 and leave the store as
    it was.  The handlers do not trim. *)
Theorem empty_fields_rejected :
  (∀ postId now requestBody userId user s,
     missing (body_title requestBody) ∨ missing (body_content requestBody) →
     handleCreatePost postId now requestBody userId user s
     = (Return (mkResponse 400 (Failure "Title and content are required")), s))
  ∧ (∀ commentId now content postId userId user s P,
       post_hashes s !! postId = Some P → post_id P ≠ "" →
       missing content →
       handleCreateComment commentId now content postId userId user s
       = (Return (mkResponse 400 (Failure "Comment content is required")), s)).
Proof.
  split.
  - intros postId now requestBody userId user s Hm.
    apply handleCreatePost_rejects. destruct Hm as [Hm | Hm]; [left | right];
      by apply missing_falsy.
  - intros commentId now content postId userId user s P HP Hid%truthy_true Hm.
    eapply handleCreateComment_rejects; eauto using missing_falsy.
Qed.

Lemma empty_fields_rejected_witness :
  handleCreatePost "p2" "d3" (mkPostBody (Some "") (Some "C") None None) "u1" ann store_p1
  = (Return (mkResponse 400 (Failure "Title and content are required")), store_p1)
  ∧ handleCreateComment "c3" "d3" (Some "") "p1" "u1" ann store_p1
    = (Return (mkResponse 400 (Failure "Comment content is required")), store_p1).
Proof.
  split.
  - apply (proj1 empty_fields_rejected). left. right. reflexivity.
  - apply (proj2 empty_fields_rejected "c3" "d3" (Some "") "p1" "u1" ann store_p1
             showcase_post).
    + reflexivity.
    + discriminate.
    + right. reflexivity.
Defined.

(** C5, counterexample.  A title made of one space is empty after trimming,
    yet createPost answers 201 and writes the post. *)
Lemma blank_title_is_accepted :
  let request := handleCreatePost "p2" "d3" (mkPostBody (Some " ") (Some "C") None None)
                   "u1" ann in
  trim " " = ""
  ∧ (request empty_store).1
    = Return (mkResponse 201 (PostData (mkPostView blank_post [] 0 0 None None)))
  ∧ post_hashes (exec request empty_store) !! "p2" = Some blank_post
  ∧ Redis.lrange community_posts (exec request empty_store) = ["p2"].
Proof. repeat split; reflexivity. Qed.

(** After addComment, listComments answers with the new comment at the head
    of the list. *)
Lemma getComments_after_createComment commentId now text postId userId user s P :
  post_hashes s !! postId = Some P → post_id P ≠ "" →
  text ≠ "" → commentId ≠ "" →
  let c := mkComment commentId postId text userId (authorName_of user) now in
  let s' := exec (handleCreateComment commentId now (Some text) postId userId user) s in
  handleGetComments postId s'
  = mkResponse 200 (CommentList
      (mkCommentView c (Redis.scard (comment_likes commentId) s)
       :: omap (load_comment s') (Redis.lrange (post_comments postId) s))).
Proof.
  intros HP Hid%truthy_true Ht%truthy_true Hc%truthy_true. simpl.
  unfold exec. rewrite (handleCreateComment_run _ _ _ _ _ _ _ P text) by done. simpl.
  unfold handleGetComments, Redis.hgetall_post. simpl. rewrite HP, Hid. simpl.
  unfold commented_store. rewrite !lrange_lpush.
  rewrite decide_False, decide_True by done.
  rewrite omap_id_map.
  change (omap ?f (?x :: ?l))
    with (match f x with Some y => y :: omap f l | None => omap f l end).
  unfold load_comment at 1, Redis.hgetall_comment. simpl.
  rewrite lookup_insert_eq. simpl. by rewrite Hc.
Qed.

(** C4, on the code.  On a stored post, after a comment and then a second
    one have been added, listComments answers with the second comment
    first and the first comment after it: the latest comment comes first,
    not the earliest. *)
Theorem listComments_newest_first s postId P
    id1 now1 text1 userId1 user1 id2 now2 text2 userId2 user2 :
  post_hashes s !! postId = Some P → post_id P ≠ "" →
  id1 ≠ "" → id2 ≠ "" → id1 ≠ id2 → text1 ≠ "" → text2 ≠ "" →
  let s1 := exec (handleCreateComment id1 now1 (Some text1) postId userId1 user1) s in
  let s2 := exec (handleCreateComment id2 now2 (Some text2) postId userId2 user2) s1 in
  ∃ first second earlier,
    handleGetComments postId s2
    = mkResponse 200 (CommentList (second :: first :: earlier))
    ∧ cview_data first = mkComment id1 postId text1 userId1 (authorName_of user1) now1
    ∧ cview_data second = mkComment id2 postId text2 userId2 (authorName_of user2) now2.
Proof.
  intros HP Hid H1 H2 Hne Ht1 Ht2 s1 s2.
  assert (s1 = commented_store id1 postId userId1
                 (mkComment id1 postId text1 userId1 (authorName_of user1) now1) s) as Hs1.
  { unfold s1, exec.
    by rewrite (handleCreateComment_run _ _ _ _ _ _ _ P text1)
      by (done || by apply truthy_true). }
  assert (post_hashes s1 !! postId = Some P) as HP1 by by rewrite Hs1.
  unfold s2.
  rewrite (getComments_after_createComment id2 now2 text2 postId userId2 user2 s1 P)
    by done.
  fold s2.
  assert (Redis.lrange (post_comments postId) s1
          = id1 :: Redis.lrange (post_comments postId) s) as ->.
  { rewrite Hs1. unfold commented_store.
    by rewrite !lrange_lpush, decide_False, decide_True. }
  assert (load_comment s2 id1
          = Some (mkCommentView
                    (mkComment id1 postId text1 userId1 (authorName_of user1) now1)
                    (Redis.scard (comment_likes id1) s2))) as Hload.
  { unfold load_comment, Redis.hgetall_comment, s2, exec.
    rewrite (handleCreateComment_run _ _ _ _ _ _ _ P text2)
      by (done || by apply truthy_true).
    simpl. rewrite lookup_insert_ne by done. rewrite Hs1. simpl.
    rewrite lookup_insert_eq. simpl. by apply truthy_true in H1 as ->. }
  change (omap ?f (?x :: ?l))
    with (match f x with Some y => y :: omap f l | None => omap f l end).
  rewrite Hload. by eexists _, _, _.
Qed.

Lemma listComments_newest_first_witness :
  ∃ first second earlier,
    handleGetComments "p1" store_p1_commented
    = mkResponse 200 (CommentList (second :: first :: earlier))
    ∧ cview_data first = first_comment ∧ cview_data second = second_comment.
Proof.
  exact (listComments_newest_first store_p1 "p1" showcase_post
           "c1" "d1" "first" "u2" bob "c2" "d2" "second" "u1" ann
           eq_refl ltac:(discriminate) ltac:(discriminate) ltac:(discriminate)
           ltac:(discriminate) ltac:(discriminate) ltac:(discriminate)).
Defined.

Example listComments_p1 :
  handleGetComments "p1" store_p1_commented
  = mkResponse 200 (CommentList [mkCommentView second_comment 0;
                                  mkCommentView first_comment 0]).
Proof. reflexivity. Qed.

(** ** Authorization *)

Lemma not_permitted_true P userId user :
  not_permitted P userId user = true
  ↔ post_authorId P ≠ userId ∧ user_role user ≠ Some "admin".
Proof.
  unfold not_permitted. rewrite andb_true_iff, !negb_true_iff.
  rewrite String.eqb_neq, bool_decide_eq_false. done.
Qed.

Lemma not_permitted_false P userId user :
  not_permitted P userId user = false
  ↔ post_authorId P = userId ∨ user_role user = Some "admin".
Proof.
  unfold not_permitted. rewrite andb_false_iff, !negb_false_iff.
  rewrite String.eqb_eq, bool_decide_eq_true. done.
Qed.

Lemma handleDeletePost_forbidden postId userId user s P :
  post_hashes s !! postId = Some P → truthy (post_id P) = true →
  not_permitted P userId user = true →
  handleDeletePost postId userId user s
  = (Return (mkResponse 403 (Failure "You do not have permission to delete this post")), s).
Proof.
  intros HP Hid Hperm.
  unfold handleDeletePost. unfold bind at 1. simpl.
  unfold Redis.hgetall_post. by rewrite HP, Hid, Hperm.
Qed.

Lemma handleUpdatePost_forbidden now requestBody postId userId user s P :
  post_hashes s !! postId = Some P → truthy (post_id P) = true →
  not_permitted P userId user = true →
  handleUpdatePost now requestBody postId userId user s
  = (Return (mkResponse 403 (Failure "You do not have permission to update this post")), s).
Proof.
  intros HP Hid Hperm.
  unfold handleUpdatePost. unfold bind at 1. simpl.
  unfold Redis.hgetall_post. by rewrite HP, Hid, Hperm.
Qed.

(** C9.  On a stored post, updatePost and deletePost by a caller who is
    neither its author nor an admin answer 403 and leave the whole store
    (hashes, lists and sets) as it was. *)
Theorem forbidden_leaves_store now requestBody postId userId user s P :
  post_hashes s !! postId = Some P → post_id P ≠ "" →
  post_authorId P ≠ userId → user_role user ≠ Some "admin" →
  handleUpdatePost now requestBody postId userId user s
  = (Return (mkResponse 403 (Failure "You do not have permission to update this post")), s)
  ∧ handleDeletePost postId userId user s
    = (Return (mkResponse 403 (Failure "You do not have permission to delete this post")), s).
Proof.
  intros HP Hid%truthy_true Hauthor Hrole.
  assert (not_permitted P userId user = true) by by apply not_permitted_true.
  split; [by eapply handleUpdatePost_forbidden | by eapply handleDeletePost_forbidden].
Qed.

Lemma forbidden_leaves_store_witness :
  (handleUpdatePost "d9" showcase_body "p1" "u2" bob store_p1_liked).2 = store_p1_liked
  ∧ (handleDeletePost "p1" "u2" bob store_p1_liked).2 = store_p1_liked.
Proof.
  destruct (forbidden_leaves_store "d9" showcase_body "p1" "u2" bob store_p1_liked
              showcase_post) as [Hupd Hdel].
  - reflexivity.
  - discriminate.
  - discriminate.
  - discriminate.
  - rewrite Hupd, Hdel. split; reflexivity.
Defined.

(** ** deletePost *)

Lemma handleDeletePost_run postId userId user s P tags :
  post_hashes s !! postId = Some P → truthy (post_id P) = true →
  not_permitted P userId user = false →
  JSON.parse (or_else (post_tags P) "[]") = Some tags →
  handleDeletePost postId userId user s
  = (Return (mkResponse 200 (Message "Post deleted successfully")),
     deleted_store postId P tags s).
Proof.
  intros HP Hid Hperm Htags.
  unfold handleDeletePost. unfold bind at 1. simpl.
  unfold Redis.hgetall_post. rewrite HP, Hid, Hperm. simpl.
  unfold bind at 1. simpl. unfold bind at 1. simpl. unfold bind at 1. simpl.
  unfold bind at 1. simpl. unfold bind at 1.
  unfold parse_tags. rewrite Htags. simpl.
  unfold bind at 1. rewrite for_srem_writes.
  unfold bind at 1. simpl. unfold bind at 1. simpl. unfold bind at 1. simpl.
  unfold bind. by rewrite for_srem_keys_writes.
Qed.

Section Deleted.
Context (postId : string) (P : post) (tags : list string) (s : store).

Lemma deleted_shrinks_uncounted :
  shrinks (deleted_store postId P tags s) (uncounted_store postId P tags s).
Proof. apply (shrinks_for_srem (fun k => k)). Qed.

Lemma uncounted_shrinks_unindexed :
  shrinks (uncounted_store postId P tags s) (unindexed_store postId P tags s).
Proof. eapply shrinks_trans; [apply shrinks_del_list | apply shrinks_del_set]. Qed.

Lemma unindexed_shrinks_unlisted :
  shrinks (unindexed_store postId P tags s) (unlisted_store postId P s).
Proof. eapply shrinks_trans; [apply shrinks_for_srem | apply shrinks_srem]. Qed.

Lemma unlisted_shrinks : shrinks (unlisted_store postId P s) s.
Proof.
  eapply shrinks_trans; [apply shrinks_lrem |].
  eapply shrinks_trans; [apply shrinks_lrem | apply shrinks_del_post].
Qed.

Lemma deleted_shrinks_unindexed :
  shrinks (deleted_store postId P tags s) (unindexed_store postId P tags s).
Proof.
  eapply shrinks_trans; [apply deleted_shrinks_uncounted | apply uncounted_shrinks_unindexed].
Qed.

Lemma deleted_shrinks_unlisted :
  shrinks (deleted_store postId P tags s) (unlisted_store postId P s).
Proof.
  eapply shrinks_trans; [apply deleted_shrinks_unindexed | apply unindexed_shrinks_unlisted].
Qed.

Lemma deleted_store_shrinks : shrinks (deleted_store postId P tags s) s.
Proof. eapply shrinks_trans; [apply deleted_shrinks_unlisted | apply unlisted_shrinks]. Qed.

Lemma deleted_store_hashes :
  post_hashes (deleted_store postId P tags s) = delete postId (post_hashes s)
  ∧ comment_hashes (deleted_store postId P tags s) = comment_hashes s.
Proof.
  unfold deleted_store.
  destruct (for_srem_frame (fun k => k) postId
              (Redis.keys_bookmarks (uncounted_store postId P tags s))
              (uncounted_store postId P tags s)) as (-> & -> & _).
  change (post_hashes (uncounted_store postId P tags s))
    with (post_hashes (unindexed_store postId P tags s)).
  change (comment_hashes (uncounted_store postId P tags s))
    with (comment_hashes (unindexed_store postId P tags s)).
  unfold unindexed_store.
  by destruct (for_srem_frame tag_set postId tags
       (exec (Redis.srem (category_set (post_category P)) postId)
          (unlisted_store postId P s))) as (-> & -> & _).
Qed.

Lemma deleted_store_global :
  postId ∉ Redis.lrange community_posts (deleted_store postId P tags s).
Proof.
  intros Hin. apply deleted_shrinks_unlisted in Hin.
  apply (proj2 (shrinks_lrem _ _ _)) in Hin.
  rewrite lrange_lrem, decide_True in Hin by done.
  by apply list_elem_of_filter in Hin as [? _].
Qed.

Lemma deleted_store_author :
  postId ∉ Redis.lrange (user_posts (post_authorId P)) (deleted_store postId P tags s).
Proof.
  intros Hin. apply deleted_shrinks_unlisted in Hin.
  unfold unlisted_store in Hin. rewrite lrange_lrem, decide_True in Hin by done.
  by apply list_elem_of_filter in Hin as [? _].
Qed.

Lemma deleted_store_category :
  postId ∉ Redis.smembers (category_set (post_category P)) (deleted_store postId P tags s).
Proof.
  intros Hin. apply deleted_shrinks_unindexed in Hin.
  apply (proj1 (shrinks_for_srem _ _ _ _)) in Hin.
  rewrite smembers_srem, decide_True in Hin by done. set_solver.
Qed.

Lemma deleted_store_tag tag :
  tag ∈ tags →
  postId ∉ Redis.smembers (tag_set tag) (deleted_store postId P tags s).
Proof.
  intros Htag Hin. apply deleted_shrinks_unindexed in Hin.
  unfold unindexed_store in Hin.
  rewrite smembers_for_srem, decide_True in Hin by (apply list_elem_of_fmap; eauto).
  set_solver.
Qed.

Lemma deleted_store_bookmarks u :
  postId ∉ Redis.smembers (user_bookmarks u) (deleted_store postId P tags s).
Proof.
  unfold deleted_store.
  destruct (decide (user_bookmarks u
                    ∈ Redis.keys_bookmarks (uncounted_store postId P tags s)))
    as [Hin | Hout].
  - by apply smembers_for_srem_keys.
  - intros Hx. apply (shrinks_for_srem (fun k => k)) in Hx.
    rewrite (not_in_keys_bookmarks _ _ Hout) in Hx. set_solver.
Qed.

Lemma deleted_store_likes :
  sets (deleted_store postId P tags s) !! post_likes postId = None.
Proof.
  unfold deleted_store. apply for_srem_keeps_absent.
  unfold uncounted_store. apply lookup_delete_eq.
Qed.

Lemma deleted_store_comments :
  lists (deleted_store postId P tags s) !! post_comments postId = None.
Proof.
  unfold deleted_store.
  destruct (for_srem_frame (fun k => k) postId
              (Redis.keys_bookmarks (uncounted_store postId P tags s))
              (uncounted_store postId P tags s)) as (_ & _ & ->).
  unfold uncounted_store. apply lookup_delete_eq.
Qed.

End Deleted.



(** ** updatePost *)

Lemma handleUpdatePost_run now requestBody postId userId user s P oldTags :
  post_hashes s !! postId = Some P → truthy (post_id P) = true →
  not_permitted P userId user = false →
  JSON.parse (or_else (post_tags P) "[]") = Some oldTags →
  let s' := updated_store now requestBody postId P oldTags s in
  handleUpdatePost now requestBody postId userId user s
  = (Return (mkResponse 200 (PostData (mkPostView
       (updated_post now requestBody P)
       (default oldTags (body_tags requestBody))
       (Redis.scard (post_likes postId) s') (Redis.llen (post_comments postId) s')
       None None))), s').
Proof.
  intros HP Hid Hperm Htags.
  unfold handleUpdatePost. unfold bind at 1. simpl.
  unfold Redis.hgetall_post. rewrite HP, Hid, Hperm. simpl.
  unfold updated_store, retagged_store, recategorized_store, updated_post.
  destruct (body_title requestBody) as [title |], (body_content requestBody) as [content |],
    (body_category requestBody) as [category |], (body_tags requestBody) as [tags |];
    repeat match goal with |- context [truthy ?x] => destruct (truthy x) end;
    repeat match goal with |- context [String.eqb ?x ?y] => destruct (String.eqb x y) end;
    simpl;
    unfold bind, parse_tags; simpl; rewrite ?Htags; simpl;
    rewrite ?for_srem_writes, ?for_sadd_writes; simpl; rewrite ?Htags; done.
Qed.

Lemma updated_store_hashes now requestBody postId P oldTags s :
  post_hashes (updated_store now requestBody postId P oldTags s)
  = <[postId := updated_post now requestBody P]> (post_hashes s)
  ∧ comment_hashes (updated_store now requestBody postId P oldTags s) = comment_hashes s
  ∧ lists (updated_store now requestBody postId P oldTags s) = lists s.
Proof.
  unfold updated_store, retagged_store, recategorized_store.
  destruct (body_tags requestBody) as [tags |]; simpl.
  - destruct (for_sadd_frame tag_set postId tags
      (exec (for_of oldTags (fun tag => Redis.srem (tag_set tag) postId))
         match body_category requestBody with
         | Some category =>
             if truthy category && negb (String.eqb category (post_category P))
             then exec (Redis.sadd (category_set category) postId)
                    (exec (Redis.srem (category_set (post_category P)) postId) s)
             else s
         | None => s
         end)) as (-> & -> & ->).
    destruct (for_srem_frame tag_set postId oldTags
         match body_category requestBody with
         | Some category =>
             if truthy category && negb (String.eqb category (post_category P))
             then exec (Redis.sadd (category_set category) postId)
                    (exec (Redis.srem (category_set (post_category P)) postId) s)
             else s
         | None => s
         end) as (-> & -> & ->).
    by destruct (body_category requestBody) as [category |];
      [destruct (truthy category && negb (String.eqb category (post_category P))) |].
  - by destruct (body_category requestBody) as [category |];
      [destruct (truthy category && negb (String.eqb category (post_category P))) |].
Qed.

Lemma updated_store_likes now requestBody postId P oldTags s id :
  Redis.smembers (post_likes id) (updated_store now requestBody postId P oldTags s)
  = Redis.smembers (post_likes id) s.
Proof.
  unfold updated_store.
  change (Redis.smembers (post_likes id)
            (exec (Redis.hset_post postId (updated_post now requestBody P))
               (retagged_store postId requestBody oldTags
                  (recategorized_store postId requestBody P s))))
    with (Redis.smembers (post_likes id)
            (retagged_store postId requestBody oldTags
               (recategorized_store postId requestBody P s))).
  assert (Redis.smembers (post_likes id) (recategorized_store postId requestBody P s)
          = Redis.smembers (post_likes id) s) as Hcat.
  { unfold recategorized_store. destruct (body_category requestBody) as [c |]; [| done].
    destruct (truthy c && negb (String.eqb c (post_category P))); [| done].
    by rewrite smembers_sadd, smembers_srem, !decide_False. }
  unfold retagged_store. destruct (body_tags requestBody) as [tags |]; [| done].
  rewrite smembers_for_sadd, smembers_for_srem, Hcat.
  rewrite !decide_False; [done | |]; by intros (? & ? & _)%list_elem_of_fmap.
Qed.

Lemma updated_post_title now requestBody P :
  missing (body_title requestBody) →
  post_title (updated_post now requestBody P) = post_title P.
Proof.
  intros Hm. unfold updated_post.
  destruct Hm as [-> | ->]; simpl;
    destruct (body_content requestBody) as [content |];
    destruct (body_category requestBody) as [category |];
    destruct (body_tags requestBody) as [tags |]; simpl;
    repeat match goal with |- context [if ?b then _ else _] => destruct b end; done.
Qed.

Lemma updated_post_content now requestBody P :
  missing (body_content requestBody) →
  post_content (updated_post now requestBody P) = post_content P.
Proof.
  intros Hm. unfold updated_post.
  destruct Hm as [-> | ->]; simpl;
    destruct (body_title requestBody) as [title |];
    destruct (body_category requestBody) as [category |];
    destruct (body_tags requestBody) as [tags |]; simpl;
    repeat match goal with |- context [if ?b then _ else _] => destruct b end; done.
Qed.

Lemma updated_post_updatedAt now requestBody P :
  post_updatedAt (updated_post now requestBody P) = now.
Proof.
  unfold updated_post.
  destruct (body_title requestBody) as [title |];
    destruct (body_content requestBody) as [content |];
    destruct (body_category requestBody) as [category |];
    destruct (body_tags requestBody) as [tags |]; simpl;
    repeat match goal with |- context [if ?b then _ else _] => destruct b end; done.
Qed.

Lemma tags_parse_updated now requestBody P :
  tags_parse P → tags_parse (updated_post now requestBody P).
Proof.
  unfold tags_parse, updated_post. intros HP.
  destruct (body_tags requestBody) as [tags |].
  - simpl. rewrite JSONFacts.parse_stored_tags. eauto.
  - destruct (body_title requestBody) as [title |];
      destruct (body_content requestBody) as [content |];
      destruct (body_category requestBody) as [category |]; simpl;
      repeat match goal with |- context [if ?b then _ else _] => destruct b end; done.
Qed.



(** An empty string in the body and an absent field are one and the same
    request. *)
Lemma updatePost_blank_is_absent now content category tags :
  handleUpdatePost now (mkPostBody (Some "") content category tags)
  = handleUpdatePost now (mkPostBody None content category tags).
Proof. reflexivity. Qed.

(** ** setLike and setBookmark *)

Lemma handleLikePost_like postId userId s P :
  post_hashes s !! postId = Some P → truthy (post_id P) = true →
  handleLikePost (Some "like") postId userId s
  = (Return (mkResponse 200
       (LikeData (size ({[userId]} ∪ Redis.smembers (post_likes postId) s)) true)),
     exec (Redis.sadd (post_likes postId) userId) s).
Proof.
  intros HP Hid. unfold handleLikePost, bind at 1. simpl.
  unfold Redis.hgetall_post. rewrite HP, Hid. simpl.
  unfold bind. simpl. unfold Redis.scard.
  change (with_sets _ s) with (exec (Redis.sadd (post_likes postId) userId) s).
  by rewrite smembers_sadd, decide_True.
Qed.

Lemma handleLikePost_unlike postId userId s P :
  post_hashes s !! postId = Some P → truthy (post_id P) = true →
  handleLikePost (Some "unlike") postId userId s
  = (Return (mkResponse 200
       (LikeData (size (Redis.smembers (post_likes postId) s ∖ {[userId]})) false)),
     exec (Redis.srem (post_likes postId) userId) s).
Proof.
  intros HP Hid. unfold handleLikePost, bind at 1. simpl.
  unfold Redis.hgetall_post. rewrite HP, Hid. simpl.
  unfold bind. simpl. unfold Redis.scard.
  change (with_sets _ s) with (exec (Redis.srem (post_likes postId) userId) s).
  by rewrite smembers_srem, decide_True.
Qed.

Lemma handleLikePost_effect action postId userId s :
  ∃ r s', handleLikePost action postId userId s = (Return r, s')
    ∧ post_hashes s' = post_hashes s ∧ lists s' = lists s
    ∧ (s' = s
       ∨ is_Some (post_hashes s !! postId)
         ∧ ∀ k, k ≠ post_likes postId → Redis.smembers k s' = Redis.smembers k s).
Proof.
  unfold handleLikePost, bind at 1. simpl. unfold Redis.hgetall_post.
  destruct (post_hashes s !! postId) as [P |] eqn:HP; [| by eexists _, _; eauto].
  destruct (truthy (post_id P)); [| by eexists _, _; eauto]. simpl.
  destruct (String.eqb (default "like" action) "like"); unfold bind; simpl.
  { eexists _, _. split; [done |]. split; [done |]. split; [done |]. right.
    split; [by eauto |]. intros k Hk.
    change (with_sets _ s) with (exec (Redis.sadd (post_likes postId) userId) s).
    by rewrite smembers_sadd, decide_False. }
  destruct (String.eqb (default "like" action) "unlike"); simpl.
  { eexists _, _. split; [done |]. split; [done |]. split; [done |]. right.
    split; [by eauto |]. intros k Hk.
    change (with_sets _ s) with (exec (Redis.srem (post_likes postId) userId) s).
    by rewrite smembers_srem, decide_False. }
  eexists _, _. eauto.
Qed.

Lemma handleBookmarkPost_effect action postId userId s :
  ∃ r s', handleBookmarkPost action postId userId s = (Return r, s')
    ∧ post_hashes s' = post_hashes s ∧ lists s' = lists s
    ∧ ∀ k, k ≠ user_bookmarks userId → Redis.smembers k s' = Redis.smembers k s.
Proof.
  unfold handleBookmarkPost, bind at 1. simpl. unfold Redis.hgetall_post.
  destruct (post_hashes s !! postId) as [P |] eqn:HP; [| by eexists _, _; eauto].
  destruct (truthy (post_id P)); [| by eexists _, _; eauto]. simpl.
  destruct (String.eqb (default "bookmark" action) "bookmark"); unfold bind; simpl.
  { eexists _, _. split; [done |]. split; [done |]. split; [done |]. intros k Hk.
    change (with_sets _ s) with (exec (Redis.sadd (user_bookmarks userId) postId) s).
    by rewrite smembers_sadd, decide_False. }
  destruct (String.eqb (default "bookmark" action) "unbookmark"); simpl.
  { eexists _, _. split; [done |]. split; [done |]. split; [done |]. intros k Hk.
    change (with_sets _ s) with (exec (Redis.srem (user_bookmarks userId) postId) s).
    by rewrite smembers_srem, decide_False. }
  eexists _, _. eauto.
Qed.

(** C7.  A second setLike(true) by the same caller answers as the first did
    (same like count) and leaves the store the first left; setLike(false) by
    a caller who is not in the likes set leaves the store as it was, and
    answers with the like count it had. *)
Theorem setLike_idempotent postId userId s :
  (∃ r1 s1,
     handleLikePost (Some "like") postId userId s = (Return r1, s1)
     ∧ handleLikePost (Some "like") postId userId s1 = (Return r1, s1))
  ∧ (userId ∉ Redis.smembers (post_likes postId) s →
     ∃ r, handleLikePost (Some "unlike") postId userId s = (Return r, s)
          ∧ (statusCode r = 200 →
             body r = LikeData (Redis.scard (post_likes postId) s) false)).
Proof.
  destruct (post_found_or_not postId s) as [(P & HP & Hid) | Hnf].
  - split.
    + eexists _, _. split; [by apply (handleLikePost_like _ _ _ P) |].
      rewrite (handleLikePost_like _ _ _ P) by done.
      rewrite sadd_twice, smembers_sadd, decide_True by done.
      do 5 f_equal. set_solver.
    + intros Hout. rewrite (handleLikePost_unlike _ _ _ _ HP Hid).
      rewrite srem_absent by done. eexists. split; [done |]. intros _. simpl.
      unfold Redis.scard. do 3 f_equal. set_solver.
  - split.
    + eexists _, _. split; by rewrite handleLikePost_not_found.
    + intros _. rewrite handleLikePost_not_found by done. by eexists.
Qed.

Lemma setLike_idempotent_witness :
  (∃ r1 s1,
     handleLikePost (Some "like") "p1" "u2" store_p1 = (Return r1, s1)
     ∧ handleLikePost (Some "like") "p1" "u2" s1 = (Return r1, s1))
  ∧ ∃ r, handleLikePost (Some "unlike") "p1" "u3" store_p1_liked
         = (Return r, store_p1_liked).
Proof.
  split; [exact (proj1 (setLike_idempotent "p1" "u2" store_p1)) |].
  destruct (proj2 (setLike_idempotent "p1" "u3" store_p1_liked)) as (r & Hrun & _).
  - apply (bool_decide_eq_false_1 ("u3" ∈ Redis.smembers (post_likes "p1") store_p1_liked)).
    reflexivity.
  - exists r. exact Hrun.
Defined.

(** ** listPosts *)

Lemma search_filter_spec search p :
  search_filter search p = true
  ↔ ∀ text, given search text → matches_search text p.
Proof.
  unfold search_filter, given, matches_search.
  destruct search as [text |]; [destruct (truthy text) eqn:Ht |].
  - rewrite orb_true_iff, !includes_spec. apply truthy_true in Ht.
    split; [by intros H ? [[= <-] _] | eauto].
  - apply truthy_false in Ht. split; [by intros _ ? [[= <-] ?] | done].
  - split; [by intros _ ? [? _] | done].
Qed.

Lemma category_filter_spec category p :
  category_filter category p = true
  ↔ ∀ c, given category c → post_category (view_data p) = c.
Proof.
  unfold category_filter, given.
  destruct category as [c |]; [destruct (truthy c) eqn:Ht |].
  - rewrite String.eqb_eq. apply truthy_true in Ht.
    split; [by intros H ? [[= <-] _] | eauto].
  - apply truthy_false in Ht. split; [by intros _ ? [[= <-] ?] | done].
  - split; [by intros _ ? [? _] | done].
Qed.

Lemma tags_filter_spec tags p :
  tags_filter tags p = true
  ↔ ∀ requested, given tags requested →
      ∃ tag, tag ∈ view_tags p ∧ tag ∈ tagArray_of requested.
Proof.
  unfold tags_filter, given.
  assert (∀ requested,
    existsb (fun tag => bool_decide (tag ∈ tagArray_of requested)) (view_tags p) = true
    ↔ ∃ tag, tag ∈ view_tags p ∧ tag ∈ tagArray_of requested) as Hex.
  { intros requested. rewrite existsb_exists. split.
    - intros (tag & Hin%list_elem_of_In & Hb%bool_decide_eq_true). eauto.
    - intros (tag & Hin & Hb). exists tag.
      by rewrite <- list_elem_of_In, bool_decide_eq_true. }
  destruct tags as [t |]; [destruct (truthy t) eqn:Ht |].
  - rewrite Hex. apply truthy_true in Ht.
    split; [by intros H ? [[= <-] _] | eauto].
  - apply truthy_false in Ht. split; [by intros _ ? [[= <-] ?] | done].
  - split; [by intros _ ? [? _] | done].
Qed.

Lemma bookmarked_filter_spec bookmarked userId s p :
  bookmarked_filter bookmarked userId s p = true
  ↔ (bookmarked = Some "true" →
     ∀ u, given userId u →
          post_id (view_data p) ∈ Redis.smembers (user_bookmarks u) s).
Proof.
  unfold bookmarked_filter, given.
  destruct bookmarked as [b |]; [| split; [by intros _ ? | done]].
  destruct userId as [u |];
    [| split; [by intros _ _ ? [? _] | done]].
  destruct (String.eqb b "true") eqn:Hb; simpl.
  - apply String.eqb_eq in Hb as ->. destruct (truthy u) eqn:Hu.
    + rewrite bool_decide_eq_true. apply truthy_true in Hu.
      split; [by intros H _ ? [[= <-] _] | eauto].
    + apply truthy_false in Hu. split; [by intros _ _ ? [[= <-] ?] | done].
  - apply String.eqb_neq in Hb. split; [| done]. intros _ [= ?]. done.
Qed.

Lemma handleGetPosts_run Date_getTime q s :
  handleGetPosts Date_getTime q s
  = mkResponse 200 (PostList
      (sort_posts Date_getTime (default "createdAt" (q_sortBy q))
         (default "desc" (q_sortOrder q))
         (filter (fun p => passes q s p = true) (loaded_posts (q_userId q) s)))).
Proof.
  unfold handleGetPosts, loaded_posts.
  destruct (Redis.lrange community_posts s) as [|postId postIds] eqn:Hids; [done |].
  rewrite omap_id_map. do 3 f_equal.
  rewrite !list_filter_filter. apply list_filter_iff. intros p.
  unfold passes. rewrite !andb_true_iff. tauto.
Qed.



Example listPosts_idea_ai :
  handleGetPosts no_clock idea_ai store_p3 = mkResponse 200 (PostList []).
Proof. reflexivity. Qed.

Example listPosts_idea_web3 :
  handleGetPosts no_clock idea_web3 store_p3
  = mkResponse 200 (PostList [mkPostView idea_post ["web3"] 0 0 (Some false) (Some false)]).
Proof. reflexivity. Qed.

(** ** The invariant of the reachable stores *)

Section Invariant.
Context (Date_getTime : string → post_view → option Z).

Lemma store_inv_create postId now requestBody userId user s :
  store_inv s →
  store_inv (handler Date_getTime (CreatePost postId now requestBody userId user) s).2.
Proof.
  intros [Htags Horph]. unfold handler, route.
  destruct (truthy_opt (body_title requestBody)) eqn:Ht;
    [destruct (truthy_opt (body_content requestBody)) eqn:Hc |];
    [| by rewrite handleCreatePost_rejects by auto..].
  destruct (body_title requestBody) as [title |] eqn:Et; [| done].
  destruct (body_content requestBody) as [content |] eqn:Ec; [| done].
  rewrite (handleCreatePost_run _ _ _ _ _ _ title content) by done. simpl.
  destruct (created_store_frame postId userId
      (new_post postId now title content requestBody userId user)
      (default [] (body_tags requestBody)) s) as [Hh _].
  split.
  - intros id P. rewrite Hh, lookup_insert. case_decide; [| by apply Htags].
    intros [= <-]. unfold tags_parse. simpl. rewrite JSONFacts.parse_stored_tags. eauto.
  - intros id. rewrite Hh, lookup_insert. case_decide; [done |]. intros Hid.
    rewrite created_store_smembers, created_store_lrange.
    rewrite !decide_False; [by apply Horph | done | done | done |].
    by intros (? & ? & _)%list_elem_of_fmap.
Qed.

Lemma store_inv_update now requestBody postId userId user s :
  store_inv s →
  store_inv (handler Date_getTime (UpdatePost now requestBody postId userId user) s).2.
Proof.
  intros [Htags Horph]. unfold handler, route.
  destruct (post_found_or_not postId s) as [(P & HP & Hid) | Hnf];
    [| by rewrite handleUpdatePost_not_found].
  destruct (not_permitted P userId user) eqn:Hperm;
    [by rewrite (handleUpdatePost_forbidden _ _ _ _ _ _ P) |].
  destruct (Htags postId P HP) as [oldTags Hold].
  rewrite (handleUpdatePost_run _ _ _ _ _ _ P oldTags) by done. simpl.
  destruct (updated_store_hashes now requestBody postId P oldTags s) as (Hh & _ & Hl).
  split.
  - intros id P'. rewrite Hh, lookup_insert. case_decide; [| by apply Htags].
    intros [= <-]. apply tags_parse_updated. by exists oldTags.
  - intros id. rewrite Hh, lookup_insert. case_decide; [done |]. intros Hid'.
    rewrite updated_store_likes. unfold Redis.lrange. rewrite Hl. by apply Horph.
Qed.

Lemma store_inv_delete postId userId user s :
  store_inv s → store_inv (handler Date_getTime (DeletePost postId userId user) s).2.
Proof.
  intros [Htags Horph]. unfold handler, route.
  destruct (post_found_or_not postId s) as [(P & HP & Hid) | Hnf];
    [| by rewrite handleDeletePost_not_found].
  destruct (not_permitted P userId user) eqn:Hperm;
    [by rewrite (handleDeletePost_forbidden _ _ _ _ P) |].
  destruct (Htags postId P HP) as [tags Hold].
  rewrite (handleDeletePost_run _ _ _ _ P tags) by done. simpl.
  destruct (deleted_store_hashes postId P tags s) as (Hh & _).
  destruct (deleted_store_shrinks postId P tags s) as [Hsets Hlists].
  split.
  - intros id P'. rewrite Hh, lookup_delete. case_decide; [done | by apply Htags].
  - intros id. rewrite Hh, lookup_delete. case_decide as Hid'.
    + subst id. intros _. unfold Redis.smembers, Redis.lrange.
      by rewrite deleted_store_likes, deleted_store_comments.
    + intros [Hl Hc]%Horph. split.
      * specialize (Hsets (post_likes id)). rewrite Hl in Hsets. set_solver.
      * specialize (Hlists (post_comments id)). rewrite Hc in Hlists.
        by apply subseteq_nil.
Qed.

Lemma store_inv_comment commentId now content postId userId user s :
  store_inv s →
  store_inv (handler Date_getTime (CreateComment commentId now content postId userId user) s).2.
Proof.
  intros [Htags Horph]. unfold handler, route.
  destruct (post_found_or_not postId s) as [(P & HP & Hid) | Hnf];
    [| by rewrite handleCreateComment_not_found].
  destruct (truthy_opt content) eqn:Hc;
    [| by rewrite (handleCreateComment_rejects _ _ _ _ _ _ _ P)].
  destruct content as [text |]; [| done].
  rewrite (handleCreateComment_run _ _ _ _ _ _ _ P text) by done. simpl.
  split; [done |]. intros id Hid'.
  change (post_hashes s !! id = None) in Hid'.
  assert (id ≠ postId) by congruence.
  split; [by apply Horph |].
  unfold commented_store. rewrite !lrange_lpush.
  rewrite !decide_False by congruence. by apply Horph.
Qed.

Lemma store_inv_like action postId userId s :
  store_inv s → store_inv (handler Date_getTime (LikePost action postId userId) s).2.
Proof.
  intros [Htags Horph]. unfold handler, route.
  destruct (handleLikePost_effect action postId userId s)
    as (r & s' & -> & Hh & Hl & Hs). simpl.
  split; [by rewrite Hh |]. intros id. rewrite Hh. intros Hid.
  unfold Redis.lrange. rewrite Hl. split; [| by apply Horph].
  destruct Hs as [-> | [[P HP] Hs]]; [by apply Horph |].
  rewrite Hs; [by apply Horph |]. congruence.
Qed.

Lemma store_inv_bookmark action postId userId s :
  store_inv s → store_inv (handler Date_getTime (BookmarkPost action postId userId) s).2.
Proof.
  intros [Htags Horph]. unfold handler, route.
  destruct (handleBookmarkPost_effect action postId userId s)
    as (r & s' & -> & Hh & Hl & Hs). simpl.
  split; [by rewrite Hh |]. intros id. rewrite Hh. intros Hid.
  unfold Redis.lrange. rewrite Hl, Hs by done. by apply Horph.
Qed.

(** Every handler keeps the invariant. *)
Lemma handler_keeps_inv req s :
  store_inv s → store_inv (handler Date_getTime req s).2.
Proof.
  destruct req; auto using store_inv_create, store_inv_update, store_inv_delete,
    store_inv_comment, store_inv_like, store_inv_bookmark.
Qed.

Lemma reachable_inv s : reachable Date_getTime s → store_inv s.
Proof.
  induction 1 as [| s req _ IH]; [by split | by apply handler_keeps_inv].
Qed.

(** In a reachable store no like and no comment is counted under an id
    that names no post. *)
Lemma fresh_id_uncounted s id :
  reachable Date_getTime s → post_hashes s !! id = None →
  Redis.smembers (post_likes id) s = ∅ ∧ Redis.lrange (post_comments id) s = [].
Proof. intros Hs. by apply (reachable_inv s Hs). Qed.

(** In a reachable store the tag text of every post parses. *)
Lemma stored_tags_parse s id P :
  reachable Date_getTime s → post_hashes s !! id = Some P → tags_parse P.
Proof. intros Hs. by apply (reachable_inv s Hs). Qed.

End Invariant.

(** ** The scenario of the design document

    U1 creates P1; U2 likes and bookmarks it; the bookmarks of U2 list
    exactly P1, liked and bookmarked; U1 deletes P1; the bookmarks of U2
    list nothing and P1 is out of the bookmark set. *)

Example scenario_bookmarked_before :
  handleGetPosts no_clock (bookmarks_of "u2") store_p1_liked
  = mkResponse 200 (PostList
      [mkPostView showcase_post ["react"] 1 0 (Some true) (Some true)]).
Proof. reflexivity. Qed.

Example scenario_bookmarked_after :
  let s := exec (handleDeletePost "p1" "u1" ann) store_p1_liked in
  handleGetPosts no_clock (bookmarks_of "u2") s = mkResponse 200 (PostList [])
  ∧ "p1" ∉ Redis.smembers (user_bookmarks "u2") s.
Proof. split; [reflexivity | by vm_compute]. Qed.

(** * Further properties *)

(** ** A post that is not there *)

Lemma handleBookmarkPost_not_found action postId userId s :
  (∀ P, post_hashes s !! postId = Some P → post_id P = "") →
  handleBookmarkPost action postId userId s = (Return not_found, s).
Proof.
  intros HP. unfold handleBookmarkPost, bind at 1. simpl. unfold Redis.hgetall_post.
  destruct (post_hashes s !! postId) as [P |]; [| done].
  by rewrite (HP P eq_refl).
Qed.



(** ** Counting likes and comments *)

Lemma handleGetPost_found postId s P :
  post_hashes s !! postId = Some P → truthy (post_id P) = true →
  handleGetPost postId s
  = mkResponse 200 (PostData (mkPostView P (parse_tags_or_empty P)
      (Redis.scard (post_likes postId) s) (Redis.llen (post_comments postId) s)
      None None)).
Proof. intros HP Hid. unfold handleGetPost, Redis.hgetall_post. by rewrite HP, Hid. Qed.



(** X3.  On a stored post, setLike with an action that is neither "like"
    nor "unlike" and setBookmark with an action that is neither "bookmark"
    nor "unbookmark" write nothing and still answer 200, with the flag
    false and, for setLike, the like count as it is. *)
Theorem unknown_action_writes_nothing action postId userId s P :
  post_hashes s !! postId = Some P → post_id P ≠ "" →
  (action ≠ "like" → action ≠ "unlike" →
   handleLikePost (Some action) postId userId s
   = (Return (mkResponse 200 (LikeData (Redis.scard (post_likes postId) s) false)), s))
  ∧ (action ≠ "bookmark" → action ≠ "unbookmark" →
     handleBookmarkPost (Some action) postId userId s
     = (Return (mkResponse 200 (BookmarkData false)), s)).
Proof.
  intros HP Hid%truthy_true. split.
  - intros Hl%String.eqb_neq Hu%String.eqb_neq.
    unfold handleLikePost, bind at 1. simpl. unfold Redis.hgetall_post.
    rewrite HP, Hid. simpl. by rewrite Hl, Hu.
  - intros Hb%String.eqb_neq Hu%String.eqb_neq.
    unfold handleBookmarkPost, bind at 1. simpl. unfold Redis.hgetall_post.
    rewrite HP, Hid. simpl. by rewrite Hb, Hu.
Qed.

Lemma unknown_action_writes_nothing_witness :
  handleLikePost (Some "true") "p1" "u2" store_p1
  = (Return (mkResponse 200 (LikeData 0 false)), store_p1)
  ∧ handleBookmarkPost (Some "remove") "p1" "u2" store_p1_liked
    = (Return (mkResponse 200 (BookmarkData false)), store_p1_liked).
Proof.
  split.
  - apply (proj1 (unknown_action_writes_nothing "true" "p1" "u2" store_p1 showcase_post
                    eq_refl ltac:(discriminate))); discriminate.
  - apply (proj2 (unknown_action_writes_nothing "remove" "p1" "u2" store_p1_liked
                    showcase_post eq_refl ltac:(discriminate))); discriminate.
Defined.

Lemma handleBookmarkPost_bookmark postId userId s P :
  post_hashes s !! postId = Some P → truthy (post_id P) = true →
  handleBookmarkPost (Some "bookmark") postId userId s
  = (Return (mkResponse 200 (BookmarkData true)),
     exec (Redis.sadd (user_bookmarks userId) postId) s).
Proof.
  intros HP Hid. unfold handleBookmarkPost, bind at 1. simpl.
  unfold Redis.hgetall_post. by rewrite HP, Hid.
Qed.

Lemma handleBookmarkPost_unbookmark postId userId s P :
  post_hashes s !! postId = Some P → truthy (post_id P) = true →
  handleBookmarkPost (Some "unbookmark") postId userId s
  = (Return (mkResponse 200 (BookmarkData false)),
     exec (Redis.srem (user_bookmarks userId) postId) s).
Proof.
  intros HP Hid. unfold handleBookmarkPost, bind at 1. simpl.
  unfold Redis.hgetall_post. by rewrite HP, Hid.
Qed.

(** X4.  On a stored post, setBookmark(true) puts the post in the caller's
    bookmark set and setBookmark(false) takes it out; in both cases every
    other member of that set, every other set, every list and every hash
    stay as they were; a second setBookmark(true) changes nothing more;
    and the listing of the caller loads the post with isBookmarked true
    after the one and false after the other. *)
Theorem bookmark_moves_one_member postId userId s P :
  post_hashes s !! postId = Some P → post_id P ≠ "" →
  ∃ s1 s2,
    handleBookmarkPost (Some "bookmark") postId userId s
    = (Return (mkResponse 200 (BookmarkData true)), s1)
    ∧ handleBookmarkPost (Some "unbookmark") postId userId s
      = (Return (mkResponse 200 (BookmarkData false)), s2)
    ∧ Redis.smembers (user_bookmarks userId) s1
      = {[postId]} ∪ Redis.smembers (user_bookmarks userId) s
    ∧ Redis.smembers (user_bookmarks userId) s2
      = Redis.smembers (user_bookmarks userId) s ∖ {[postId]}
    ∧ (∀ k, k ≠ user_bookmarks userId →
            Redis.smembers k s1 = Redis.smembers k s
            ∧ Redis.smembers k s2 = Redis.smembers k s)
    ∧ post_hashes s1 = post_hashes s ∧ post_hashes s2 = post_hashes s
    ∧ comment_hashes s1 = comment_hashes s ∧ comment_hashes s2 = comment_hashes s
    ∧ lists s1 = lists s ∧ lists s2 = lists s
    ∧ handleBookmarkPost (Some "bookmark") postId userId s1
      = (Return (mkResponse 200 (BookmarkData true)), s1)
    ∧ (userId ≠ "" →
       ∃ v, load_post (Some userId) s1 postId = Some v
            ∧ view_isBookmarked v = Some true)
    ∧ (userId ≠ "" →
       ∃ v, load_post (Some userId) s2 postId = Some v
            ∧ view_isBookmarked v = Some false).
Proof.
  intros HP Hid%truthy_true.
  exists (exec (Redis.sadd (user_bookmarks userId) postId) s),
         (exec (Redis.srem (user_bookmarks userId) postId) s).
  split; [by apply (handleBookmarkPost_bookmark _ _ _ P) |].
  split; [by apply (handleBookmarkPost_unbookmark _ _ _ P) |].
  split; [by rewrite smembers_sadd, decide_True |].
  split; [by rewrite smembers_srem, decide_True |].
  split.
  { intros k Hk. by rewrite smembers_sadd, smembers_srem, !decide_False. }
  do 6 (split; [done |]).
  split.
  { rewrite (handleBookmarkPost_bookmark _ _ _ P) by done. by rewrite sadd_twice. }
  split; intros Hu%truthy_true.
  - eexists. unfold load_post, Redis.hgetall_post.
    change (post_hashes (exec (Redis.sadd (user_bookmarks userId) postId) s))
      with (post_hashes s).
    rewrite HP, Hid, Hu. simpl. split; [done |]. simpl. f_equal.
    unfold Redis.sismember. apply bool_decide_eq_true.
    rewrite smembers_sadd, decide_True by done. set_solver.
  - eexists. unfold load_post, Redis.hgetall_post.
    change (post_hashes (exec (Redis.srem (user_bookmarks userId) postId) s))
      with (post_hashes s).
    rewrite HP, Hid, Hu. simpl. split; [done |]. simpl. f_equal.
    unfold Redis.sismember. apply bool_decide_eq_false.
    rewrite smembers_srem, decide_True by done. set_solver.
Qed.

Lemma bookmark_moves_one_member_witness :
  ∃ s1 s2,
    handleBookmarkPost (Some "bookmark") "p1" "u2" store_p1
    = (Return (mkResponse 200 (BookmarkData true)), s1)
    ∧ handleBookmarkPost (Some "unbookmark") "p1" "u2" store_p1
      = (Return (mkResponse 200 (BookmarkData false)), s2)
    ∧ Redis.smembers (user_bookmarks "u2") s1
      = {[ "p1" ]} ∪ Redis.smembers (user_bookmarks "u2") store_p1.
Proof.
  destruct (bookmark_moves_one_member "p1" "u2" store_p1 showcase_post eq_refl
              ltac:(discriminate)) as (s1 & s2 & H1 & H2 & H3 & _).
  exists s1, s2. split; [exact H1 |]. split; [exact H2 | exact H3].
Defined.

(** ** addComment *)



(** ** What deletePost leaves behind *)

Lemma lrange_for_srem {A} (key_of : A → set_key) v (l : list A) k s :
  Redis.lrange k (exec (for_of l (fun x => Redis.srem (key_of x) v)) s) = Redis.lrange k s.
Proof. unfold Redis.lrange. by destruct (for_srem_frame key_of v l s) as (_ & _ & ->). Qed.

Lemma deleted_store_lrange postId P tags s k :
  Redis.lrange k (deleted_store postId P tags s)
  = if decide (post_comments postId = k) then []
    else if decide (user_posts (post_authorId P) = k)
         then filter (fun x => x ≠ postId) (Redis.lrange k s)
    else if decide (community_posts = k)
         then filter (fun x => x ≠ postId) (Redis.lrange k s)
    else Redis.lrange k s.
Proof.
  unfold deleted_store. rewrite (lrange_for_srem (fun key => key)).
  unfold uncounted_store. rewrite lrange_del_list.
  case_decide; [done |].
  change (Redis.lrange k (exec (Redis.del_set (post_likes postId))
                            (unindexed_store postId P tags s)))
    with (Redis.lrange k (unindexed_store postId P tags s)).
  unfold unindexed_store. rewrite lrange_for_srem.
  change (Redis.lrange k (exec (Redis.srem (category_set (post_category P)) postId)
                            (unlisted_store postId P s)))
    with (Redis.lrange k (unlisted_store postId P s)).
  unfold unlisted_store. rewrite !lrange_lrem.
  change (Redis.lrange k (exec (Redis.del_post postId) s)) with (Redis.lrange k s).
  repeat case_decide; simplify_eq; done.
Qed.

(** The members deletePost leaves in a set other than the likes of the post:
    those it had, the post apart. *)
Lemma deleted_store_others postId P tags s k x :
  k ≠ post_likes postId → x ≠ postId →
  x ∈ Redis.smembers k (deleted_store postId P tags s) ↔ x ∈ Redis.smembers k s.
Proof.
  intros Hk Hx. unfold deleted_store. rewrite (smembers_for_srem (fun key => key)).
  unfold uncounted_store.
  change (Redis.smembers k (exec (Redis.del_list (post_comments postId))
            (exec (Redis.del_set (post_likes postId)) (unindexed_store postId P tags s))))
    with (Redis.smembers k (exec (Redis.del_set (post_likes postId))
                              (unindexed_store postId P tags s))).
  rewrite smembers_del_set.
  rewrite (decide_False (P := post_likes postId = k)) by congruence.
  unfold unindexed_store. rewrite smembers_for_srem, smembers_srem.
  change (Redis.smembers k (unlisted_store postId P s)) with (Redis.smembers k s).
  repeat case_decide; set_solver.
Qed.



(** ** What updatePost re-indexes *)

Lemma recategorized_store_smembers postId requestBody P s k :
  Redis.smembers k (recategorized_store postId requestBody P s)
  = match body_category requestBody with
    | Some category =>
        if truthy category && negb (String.eqb category (post_category P)) then
          if decide (category_set category = k)
          then {[postId]} ∪ Redis.smembers k s
          else if decide (category_set (post_category P) = k)
               then Redis.smembers k s ∖ {[postId]}
               else Redis.smembers k s
        else Redis.smembers k s
    | None => Redis.smembers k s
    end.
Proof.
  unfold recategorized_store.
  destruct (body_category requestBody) as [category |]; [| done].
  destruct (truthy category && negb (String.eqb category (post_category P))) eqn:Hc;
    [| done].
  rewrite smembers_sadd, smembers_srem.
  apply andb_true_iff in Hc as [_ Hne%negb_true_iff%String.eqb_neq].
  repeat case_decide; simplify_eq; done.
Qed.

Lemma retagged_store_smembers postId requestBody oldTags s k :
  Redis.smembers k (retagged_store postId requestBody oldTags s)
  = match body_tags requestBody with
    | Some tags =>
        if decide (k ∈ tag_set <$> tags)
        then {[postId]} ∪ (if decide (k ∈ tag_set <$> oldTags)
                           then Redis.smembers k s ∖ {[postId]} else Redis.smembers k s)
        else if decide (k ∈ tag_set <$> oldTags)
             then Redis.smembers k s ∖ {[postId]} else Redis.smembers k s
    | None => Redis.smembers k s
    end.
Proof.
  unfold retagged_store. destruct (body_tags requestBody) as [tags |]; [| done].
  by rewrite smembers_for_sadd, smembers_for_srem.
Qed.

Lemma updated_store_smembers now requestBody postId P oldTags s k :
  Redis.smembers k (updated_store now requestBody postId P oldTags s)
  = Redis.smembers k (retagged_store postId requestBody oldTags
                        (recategorized_store postId requestBody P s)).
Proof. done. Qed.

Lemma elem_of_tag_keys t (tags : list string) : tag_set t ∈ tag_set <$> tags ↔ t ∈ tags.
Proof.
  rewrite list_elem_of_fmap. split; [by intros (? & [= <-] & ?) | eauto].
Qed.

Lemma category_not_tag_key c (tags : list string) : category_set c ∉ tag_set <$> tags.
Proof. by intros (? & ? & _)%list_elem_of_fmap. Qed.

(** updatePost neither adds nor removes any other post in any set. *)
Lemma updated_store_others now requestBody postId P oldTags s k x :
  x ≠ postId →
  x ∈ Redis.smembers k (updated_store now requestBody postId P oldTags s)
  ↔ x ∈ Redis.smembers k s.
Proof.
  intros Hx. rewrite updated_store_smembers, retagged_store_smembers.
  assert (x ∈ Redis.smembers k (recategorized_store postId requestBody P s)
          ↔ x ∈ Redis.smembers k s) as Hcat.
  { rewrite recategorized_store_smembers.
    destruct (body_category requestBody) as [c |]; [| done].
    destruct (truthy c && negb (String.eqb c (post_category P))); [| done].
    repeat case_decide; set_solver. }
  destruct (body_tags requestBody) as [tags |]; [| done].
  repeat case_decide; set_solver.
Qed.



(** ** What updatePost never changes *)

Lemma updated_post_identity now requestBody P :
  post_id (updated_post now requestBody P) = post_id P
  ∧ post_authorId (updated_post now requestBody P) = post_authorId P
  ∧ post_authorName (updated_post now requestBody P) = post_authorName P
  ∧ post_createdAt (updated_post now requestBody P) = post_createdAt P.
Proof.
  unfold updated_post.
  destruct (body_title requestBody) as [title |];
    destruct (body_content requestBody) as [content |];
    destruct (body_category requestBody) as [category |];
    destruct (body_tags requestBody) as [tags |]; simpl;
    repeat match goal with |- context [if ?b then _ else _] => destruct b end; done.
Qed.

Lemma updated_post_category now requestBody P :
  post_category (updated_post now requestBody P)
  = match body_category requestBody with
    | Some category =>
        if truthy category && negb (String.eqb category (post_category P))
        then category else post_category P
    | None => post_category P
    end.
Proof.
  unfold updated_post.
  destruct (body_title requestBody) as [title |];
    destruct (body_content requestBody) as [content |];
    destruct (body_category requestBody) as [category |];
    destruct (body_tags requestBody) as [tags |]; simpl;
    repeat match goal with |- context [if ?b then _ else _] => destruct b end; done.
Qed.

Lemma updated_post_tags now requestBody P :
  post_tags (updated_post now requestBody P)
  = match body_tags requestBody with
    | Some tags => JSON.stringify tags
    | None => post_tags P
    end.
Proof.
  unfold updated_post.
  destruct (body_title requestBody) as [title |];
    destruct (body_content requestBody) as [content |];
    destruct (body_category requestBody) as [category |];
    destruct (body_tags requestBody) as [tags |]; simpl;
    repeat match goal with |- context [if ?b then _ else _] => destruct b end; done.
Qed.

(** updatePost writes in no set other than those of categories and tags. *)
Lemma updated_store_other_sets now requestBody postId P oldTags s k :
  (∀ c, k ≠ category_set c) → (∀ t, k ≠ tag_set t) →
  Redis.smembers k (updated_store now requestBody postId P oldTags s)
  = Redis.smembers k s.
Proof.
  intros Hc Ht.
  assert (∀ l : list string, k ∉ tag_set <$> l) as Hl.
  { intros l (t & -> & _)%list_elem_of_fmap. by apply (Ht t). }
  rewrite updated_store_smembers, retagged_store_smembers.
  assert (Redis.smembers k (recategorized_store postId requestBody P s)
          = Redis.smembers k s) as ->.
  { rewrite recategorized_store_smembers.
    destruct (body_category requestBody) as [c |]; [| done].
    destruct (truthy c && negb (String.eqb c (post_category P))); [| done].
    rewrite !decide_False; [done | |]; intros <-; by eapply Hc. }
  destruct (body_tags requestBody) as [tags |]; [| done].
  by rewrite !decide_False.
Qed.



(** ** Every stored post is indexed *)

Section Indexed.
Context (Date_getTime : string → post_view → option Z).

Lemma indexed_create postId now requestBody userId user s :
  indexed s →
  indexed (handler Date_getTime (CreatePost postId now requestBody userId user) s).2.
Proof.
  intros Hidx. unfold handler, route.
  destruct (truthy_opt (body_title requestBody)) eqn:Ht;
    [destruct (truthy_opt (body_content requestBody)) eqn:Hc |];
    [| by rewrite handleCreatePost_rejects by auto..].
  destruct (body_title requestBody) as [title |] eqn:Et; [| done].
  destruct (body_content requestBody) as [content |] eqn:Ec; [| done].
  rewrite (handleCreatePost_run _ _ _ _ _ _ title content) by done. simpl.
  destruct (created_store_frame postId userId
      (new_post postId now title content requestBody userId user)
      (default [] (body_tags requestBody)) s) as [Hh _].
  intros id P. rewrite Hh, lookup_insert.
  rewrite !created_store_lrange, !created_store_smembers.
  case_decide as Hid.
  - subst id. intros [= <-].
    split; [repeat case_decide; first [by left | simpl in *; congruence] |].
    split; [repeat case_decide; first [by left | simpl in *; congruence] |].
    split; [repeat case_decide; set_solver |].
    intros tag Htag.
    assert (tag_set tag ∈ tag_set <$> default [] (body_tags requestBody)) as Hin.
    { apply elem_of_tag_keys. revert Htag. unfold parse_tags_or_empty. simpl.
      by rewrite JSONFacts.parse_stored_tags. }
    rewrite created_store_smembers, decide_True by done. set_solver.
  - intros HP. destruct (Hidx id P HP) as (Hg & Hu & Hcat & Htag).
    split; [repeat case_decide; simplify_eq; by try right |].
    split; [repeat case_decide; simplify_eq; by try right |].
    split; [repeat case_decide; set_solver |].
    intros tag Hin. specialize (Htag tag Hin).
    rewrite created_store_smembers. repeat case_decide; set_solver.
Qed.

Lemma indexed_update now requestBody postId userId user s :
  store_inv s → indexed s →
  indexed (handler Date_getTime (UpdatePost now requestBody postId userId user) s).2.
Proof.
  intros [Htags _] Hidx. unfold handler, route.
  destruct (post_found_or_not postId s) as [(P & HP & Hid) | Hnf];
    [| by rewrite handleUpdatePost_not_found].
  destruct (not_permitted P userId user) eqn:Hperm;
    [by rewrite (handleUpdatePost_forbidden _ _ _ _ _ _ P) |].
  destruct (Htags postId P HP) as [oldTags Hold].
  rewrite (handleUpdatePost_run _ _ _ _ _ _ P oldTags) by done. simpl.
  destruct (updated_store_hashes now requestBody postId P oldTags s) as (Hh & _ & Hl).
  intros id P'. rewrite Hh, lookup_insert. unfold Redis.lrange. rewrite Hl.
  fold (Redis.lrange community_posts s).
  case_decide as Hid'.
  - subst id. intros [= <-].
    destruct (Hidx postId P HP) as (Hg & Hu & Hcat & Htag).
    destruct (updated_post_identity now requestBody P) as (_ & -> & _).
    split; [done |]. split; [done |]. split.
    + rewrite updated_post_category, updated_store_smembers, retagged_store_smembers.
      assert (postId ∈ Redis.smembers
                (category_set match body_category requestBody with
                              | Some category =>
                                  if truthy category
                                     && negb (String.eqb category (post_category P))
                                  then category else post_category P
                              | None => post_category P
                              end)
                (recategorized_store postId requestBody P s)) as Hin.
      { rewrite recategorized_store_smembers.
        destruct (body_category requestBody) as [c |]; [| done].
        destruct (truthy c && negb (String.eqb c (post_category P))); [| done].
        rewrite decide_True by done. set_solver. }
      destruct (body_tags requestBody) as [tags |]; [| done].
      by rewrite !(decide_False (P := category_set _ ∈ tag_set <$> _))
        by apply category_not_tag_key.
    + intros tag. unfold parse_tags_or_empty. rewrite updated_post_tags.
      rewrite updated_store_smembers, retagged_store_smembers.
      assert (Redis.smembers (tag_set tag) (recategorized_store postId requestBody P s)
              = Redis.smembers (tag_set tag) s) as ->.
      { rewrite recategorized_store_smembers.
        destruct (body_category requestBody) as [c |]; [| done].
        destruct (truthy c && negb (String.eqb c (post_category P))); [| done].
        by rewrite !decide_False. }
      destruct (body_tags requestBody) as [tags |].
      * rewrite JSONFacts.parse_stored_tags. simpl. intros Hin.
        rewrite decide_True by by apply elem_of_tag_keys. set_solver.
      * apply Htag.
  - intros HP'. destruct (Hidx id P' HP') as (Hg & Hu & Hcat & Htag).
    split; [done |]. split; [done |].
    split; [by apply updated_store_others |].
    intros tag Hin. by apply updated_store_others, Htag.
Qed.

Lemma indexed_delete postId userId user s :
  store_inv s → indexed s →
  indexed (handler Date_getTime (DeletePost postId userId user) s).2.
Proof.
  intros [Htags _] Hidx. unfold handler, route.
  destruct (post_found_or_not postId s) as [(P & HP & Hid) | Hnf];
    [| by rewrite handleDeletePost_not_found].
  destruct (not_permitted P userId user) eqn:Hperm;
    [by rewrite (handleDeletePost_forbidden _ _ _ _ P) |].
  destruct (Htags postId P HP) as [tags Hold].
  rewrite (handleDeletePost_run _ _ _ _ P tags) by done. simpl.
  destruct (deleted_store_hashes postId P tags s) as (Hh & _).
  intros id P'. rewrite Hh, lookup_delete. case_decide as Hid'; [done |].
  intros HP'. destruct (Hidx id P' HP') as (Hg & Hu & Hcat & Htag).
  assert (id ≠ postId) as Hne by congruence.
  rewrite !deleted_store_lrange.
  split; [repeat case_decide; rewrite ?list_elem_of_filter; done |].
  split; [repeat case_decide; rewrite ?list_elem_of_filter; done |].
  split; [by apply deleted_store_others |].
  intros tag Hin. by apply deleted_store_others, Htag.
Qed.

Lemma indexed_comment commentId now content postId userId user s :
  indexed s →
  indexed (handler Date_getTime (CreateComment commentId now content postId userId user) s).2.
Proof.
  intros Hidx. unfold handler, route.
  destruct (post_found_or_not postId s) as [(P & HP & Hid) | Hnf];
    [| by rewrite handleCreateComment_not_found].
  destruct (truthy_opt content) eqn:Hc;
    [| by rewrite (handleCreateComment_rejects _ _ _ _ _ _ _ P)].
  destruct content as [text |]; [| done].
  rewrite (handleCreateComment_run _ _ _ _ _ _ _ P text) by done. simpl.
  intros id P' HP'. change (post_hashes s !! id = Some P') in HP'.
  destruct (Hidx id P' HP') as (Hg & Hu & Hcat & Htag).
  unfold commented_store. rewrite !lrange_lpush, !decide_False by done.
  done.
Qed.

Lemma indexed_like action postId userId s :
  indexed s → indexed (handler Date_getTime (LikePost action postId userId) s).2.
Proof.
  intros Hidx. unfold handler, route.
  destruct (handleLikePost_effect action postId userId s)
    as (r & s' & -> & Hh & Hl & Hs). simpl.
  intros id P. rewrite Hh. intros HP.
  destruct (Hidx id P HP) as (Hg & Hu & Hcat & Htag).
  unfold Redis.lrange. rewrite Hl.
  destruct Hs as [-> | [_ Hs]]; [done |].
  split; [done |]. split; [done |]. split; [by rewrite Hs |].
  intros tag Hin. rewrite Hs by done. by apply Htag.
Qed.

Lemma indexed_bookmark action postId userId s :
  indexed s → indexed (handler Date_getTime (BookmarkPost action postId userId) s).2.
Proof.
  intros Hidx. unfold handler, route.
  destruct (handleBookmarkPost_effect action postId userId s)
    as (r & s' & -> & Hh & Hl & Hs). simpl.
  intros id P. rewrite Hh. intros HP.
  destruct (Hidx id P HP) as (Hg & Hu & Hcat & Htag).
  unfold Redis.lrange. rewrite Hl.
  split; [done |]. split; [done |]. split; [by rewrite Hs |].
  intros tag Hin. rewrite Hs by done. by apply Htag.
Qed.

Lemma handler_keeps_indexed req s :
  store_inv s → indexed s → indexed (handler Date_getTime req s).2.
Proof.
  destruct req; auto using indexed_create, indexed_update, indexed_delete,
    indexed_comment, indexed_like, indexed_bookmark.
Qed.

Lemma reachable_indexed s : reachable Date_getTime s → indexed s.
Proof.
  induction 1 as [| s req Hs IH]; [by intros id P HP |].
  apply handler_keeps_indexed; [by apply (reachable_inv Date_getTime) | done].
Qed.

End Indexed.

Example store_p3_reachable : reachable no_clock store_p3.
Proof.
  exact (reachable_step no_clock _ (CreatePost "p3" "d4" idea_body "u1" ann)
           (reachable_step no_clock _ (CreatePost "p1" "d0" showcase_body "u1" ann)
              (reachable_empty no_clock))).
Qed.



(** ** listPosts shows what is stored, in order *)

Lemma load_post_found userId s id P :
  post_hashes s !! id = Some P → truthy (post_id P) = true →
  ∃ v, load_post userId s id = Some v
       ∧ view_data v = P ∧ view_tags v = parse_tags_or_empty P
       ∧ view_likes v = Redis.scard (post_likes id) s
       ∧ view_comments v = Redis.llen (post_comments id) s.
Proof.
  intros HP Hid. unfold load_post, Redis.hgetall_post. rewrite HP, Hid. simpl.
  by eexists.
Qed.



Lemma StronglySorted_impl {A} (R R' : relation A) (l : list A) :
  (∀ x y, R x y → R' x y) → StronglySorted R l → StronglySorted R' l.
Proof.
  intros HR. induction 1 as [| x l _ IH Hall]; constructor; [done |].
  eapply Forall_impl; [exact Hall | auto].
Qed.

Section Sorted.
Context (Date_getTime : string → post_view → option Z).

Lemma sorts_before_likes sortOrder a b :
  sorts_before Date_getTime "likes" sortOrder a b
  ↔ by_count view_likes (String.eqb sortOrder "desc") a b.
Proof.
  unfold sorts_before, compare_posts, by_count. simpl.
  destruct (String.eqb sortOrder "desc"); lia.
Qed.

Lemma sorts_before_comments sortOrder a b :
  sorts_before Date_getTime "comments" sortOrder a b
  ↔ by_count view_comments (String.eqb sortOrder "desc") a b.
Proof.
  unfold sorts_before, compare_posts, by_count. simpl.
  destruct (String.eqb sortOrder "desc"); lia.
Qed.

Lemma sorts_before_time sortBy sortOrder a b :
  sortBy ≠ "likes" → sortBy ≠ "comments" →
  sorts_before Date_getTime sortBy sortOrder a b
  ↔ by_time (Date_getTime sortBy) (String.eqb sortOrder "desc") a b.
Proof.
  intros Hl%String.eqb_neq Hc%String.eqb_neq.
  unfold sorts_before, compare_posts, by_time. rewrite Hl, Hc.
  destruct (Date_getTime sortBy a), (Date_getTime sortBy b);
    destruct (String.eqb sortOrder "desc"); lia.
Qed.

Lemma by_count_order count desc :
  Transitive (by_count count desc) ∧ Total (by_count count desc).
Proof.
  split; intros a b; unfold by_count; destruct desc; lia.
Qed.

Lemma sort_posts_by_count sortBy sortOrder count l :
  (∀ a b, sorts_before Date_getTime sortBy sortOrder a b
          ↔ by_count count (String.eqb sortOrder "desc") a b) →
  StronglySorted (by_count count (String.eqb sortOrder "desc"))
    (sort_posts Date_getTime sortBy sortOrder l).
Proof.
  intros Hiff.
  destruct (by_count_order count (String.eqb sortOrder "desc")) as [Htrans Htotal].
  assert (Transitive (sorts_before Date_getTime sortBy sortOrder)).
  { intros a b c. rewrite !Hiff. apply Htrans. }
  assert (Total (sorts_before Date_getTime sortBy sortOrder)).
  { intros a b. rewrite !Hiff. apply Htotal. }
  eapply StronglySorted_impl; [intros a b; apply Hiff |].
  unfold sort_posts. by apply StronglySorted_merge_sort.
Qed.

Lemma sort_posts_by_time sortBy sortOrder l :
  sortBy ≠ "likes" → sortBy ≠ "comments" →
  (∀ p, is_Some (Date_getTime sortBy p)) →
  StronglySorted (by_time (Date_getTime sortBy) (String.eqb sortOrder "desc"))
    (sort_posts Date_getTime sortBy sortOrder l).
Proof.
  intros Hl Hc Hall.
  assert (Transitive (sorts_before Date_getTime sortBy sortOrder)).
  { intros a b c. rewrite !sorts_before_time by done. unfold by_time.
    destruct (Hall a) as [ta ->], (Hall b) as [tb ->], (Hall c) as [tc ->].
    destruct (String.eqb sortOrder "desc"); lia. }
  assert (Total (sorts_before Date_getTime sortBy sortOrder)).
  { intros a b. rewrite !sorts_before_time by done. unfold by_time.
    destruct (Hall a) as [ta ->], (Hall b) as [tb ->].
    destruct (String.eqb sortOrder "desc"); lia. }
  eapply StronglySorted_impl; [intros a b; by apply sorts_before_time |].
  unfold sort_posts. by apply StronglySorted_merge_sort.
Qed.

End Sorted.


(** P1 has one like and P3 none: by likes, P1 comes first in descending
    order and last in ascending order. *)
Example listPosts_by_likes :
  let s := exec (handleLikePost (Some "like") "p1" "u2") store_p3 in
  let p1 := mkPostView showcase_post ["react"] 1 0 (Some false) (Some false) in
  let p3 := mkPostView idea_post ["web3"] 0 0 (Some false) (Some false) in
  handleGetPosts no_clock (unfiltered None (Some "likes") None) s
  = mkResponse 200 (PostList [p1; p3])
  ∧ handleGetPosts no_clock (unfiltered None (Some "likes") (Some "asc")) s
    = mkResponse 200 (PostList [p3; p1]).
Proof. split; reflexivity. Qed.

(** X12.  listPosts reads the caller from the userId of the query and from
    nothing else.  With no userId in the query, or an empty one, the
    bookmarked filter is not applied, whatever its value, so the answer is
    the one of the same query without it, and every post of the answer has
    isLiked and isBookmarked false. *)
Theorem listPosts_without_userId Date_getTime q s :
  missing (q_userId q) →
  ∃ views,
    handleGetPosts Date_getTime q s = mkResponse 200 (PostList views)
    ∧ handleGetPosts Date_getTime (without_bookmarked q) s
      = mkResponse 200 (PostList views)
    ∧ ∀ v, v ∈ views →
           view_isLiked v = Some false ∧ view_isBookmarked v = Some false.
Proof.
  intros Hu. eexists. rewrite !handleGetPosts_run.
  split; [done |].
  assert (∀ p, passes (without_bookmarked q) s p = passes q s p) as Hpass.
  { intros p. unfold passes, without_bookmarked, bookmarked_filter. simpl.
    destruct (q_bookmarked q) as [b |]; [| done].
    destruct Hu as [-> | ->]; [done |]. simpl. by rewrite andb_false_r. }
  split.
  { simpl. do 3 f_equal. apply list_filter_iff. intros p. by rewrite Hpass. }
  intros v. unfold sort_posts. rewrite merge_sort_Permutation.
  intros [_ Hin]%list_elem_of_filter. unfold loaded_posts in Hin.
  apply list_elem_of_omap in Hin as (id & _ & Hload).
  unfold load_post in Hload.
  destruct (Redis.hgetall_post id s) as [data |]; [| done].
  destruct (negb (truthy (post_id data))); [done |].
  destruct Hu as [Hu | Hu]; rewrite Hu in Hload; by simplify_eq.
Qed.

Lemma listPosts_without_userId_witness :
  ∃ views,
    handleGetPosts no_clock (mkQuery None None None (Some "true") None None None)
      store_p1_liked = mkResponse 200 (PostList views)
    ∧ handleGetPosts no_clock (mkQuery None None None None None None None)
        store_p1_liked = mkResponse 200 (PostList views)
    ∧ ∀ v, v ∈ views → view_isBookmarked v = Some false.
Proof.
  destruct (listPosts_without_userId no_clock
              (mkQuery None None None (Some "true") None None None) store_p1_liked
              (or_introl eq_refl)) as (views & Hrun & Hdrop & Hflags).
  exists views. split; [exact Hrun |]. split; [exact Hdrop |].
  intros v Hv. by destruct (Hflags v Hv).
Defined.

(** ** What a write leaves alone *)

(** X13.  createPost that answers 201 changes nothing but the new post and
    its indexes: every other post hash and every comment hash stay as they
    were, and no other id enters or leaves any list or any set. *)
Theorem createPost_changes_nothing_else postId now requestBody userId user s r s' :
  handleCreatePost postId now requestBody userId user s = (Return r, s') →
  statusCode r = 201 →
  (∀ id, id ≠ postId → post_hashes s' !! id = post_hashes s !! id)
  ∧ comment_hashes s' = comment_hashes s
  ∧ (∀ k id, id ≠ postId → id ∈ Redis.lrange k s' ↔ id ∈ Redis.lrange k s)
  ∧ (∀ k id, id ≠ postId → id ∈ Redis.smembers k s' ↔ id ∈ Redis.smembers k s).
Proof.
  intros Hrun H201.
  destruct (handleCreatePost_201 _ _ _ _ _ _ _ _ Hrun H201)
    as (title & content & Ht & Htt & Hc & Hct).
  rewrite (handleCreatePost_run _ _ _ _ _ _ title content) in Hrun by done.
  simpl in Hrun. injection Hrun as _ <-.
  destruct (created_store_frame postId userId
      (new_post postId now title content requestBody userId user)
      (default [] (body_tags requestBody)) s) as [Hh Hc'].
  split; [intros id Hne; by rewrite Hh, lookup_insert_ne |].
  split; [done |]. split.
  - intros k id Hne. rewrite created_store_lrange.
    repeat case_decide; rewrite ?elem_of_cons; naive_solver.
  - intros k id Hne. rewrite created_store_smembers.
    repeat case_decide; set_solver.
Qed.

Lemma createPost_changes_nothing_else_witness :
  post_hashes store_p3 !! "p1" = post_hashes store_p1 !! "p1"
  ∧ comment_hashes store_p3 = comment_hashes store_p1.
Proof.
  destruct (createPost_changes_nothing_else "p3" "d4" idea_body "u1" ann store_p1
              (mkResponse 201 (PostData (mkPostView idea_post ["web3"] 0 0 None None)))
              store_p3 eq_refl eq_refl) as (Hh & Hc & _).
  split; [apply Hh; discriminate | exact Hc].
Defined.


(** ** The names of the keys *)

(** X15.  Two keys whose ids hold no colon have the same name only when
    they are the same key, so no two records of the store share a Redis
    key; and the keys deletePost finds with the glob user:*:bookmarks are
    the bookmark sets that exist, and nothing else. *)
Theorem key_names_do_not_collide :
  (∀ k1 k2, plain_id k1 = true → plain_id k2 = true →
            key_name k1 = key_name k2 → k1 = k2)
  ∧ (∀ s k, plain_id (set_of k) = true →
            k ∈ Redis.keys_bookmarks s
            ↔ is_Some (sets s !! k) ∧ matches_bookmarks (key_name (set_of k)))
  ∧ (∀ s u, user_bookmarks u ∈ Redis.keys_bookmarks s
            ↔ is_Some (sets s !! user_bookmarks u)).
Proof.
  split; [apply key_name_inj |]. split; [apply keys_bookmarks_spec |].
  intros s u. unfold Redis.keys_bookmarks.
  rewrite list_elem_of_filter, elem_of_elements, elem_of_dom. naive_solver.
Qed.

(** ** The path of a request *)

Lemma split_go_sep sep b a : ∀ cur,
  split_go sep cur (a +:+ String sep b) = (split_go sep cur a ++ split_go sep "" b)%list.
Proof.
  induction a as [|c a IH]; intros cur.
  - rewrite string_app_nil_l. simpl. by rewrite Ascii.eqb_refl.
  - rewrite string_app_cons. simpl. destruct (Ascii.eqb c sep); by rewrite IH.
Qed.

Lemma split_go_segment seg : ∀ cur,
  no_slash seg = true → split_go "/" cur seg = [cur +:+ seg].
Proof.
  induction seg as [|c seg IH]; intros cur Hseg.
  - by rewrite string_app_nil_r.
  - simpl in *. apply andb_true_iff in Hseg as [Hc Hseg].
    apply negb_true_iff in Hc. rewrite Hc, IH by done.
    by rewrite string_app_assoc.
Qed.

(** The parts of a path that ends with a slash and a segment are the parts
    of what precedes and the segment. *)
Lemma path_parts_snoc pre seg :
  seg ≠ "" → no_slash seg = true →
  path_parts (pre +:+ String "/" seg) = (path_parts pre ++ [seg])%list.
Proof.
  intros Hne Hseg. unfold path_parts, split.
  rewrite split_go_sep, filter_app.
  rewrite (split_go_segment seg "" Hseg), string_app_nil_l.
  by rewrite (filter_cons_True _ seg []).
Qed.

Lemma postId_of_snoc parts seg :
  postId_of (parts ++ [seg])%list = if String.eqb seg "community" then None else Some seg.
Proof. unfold postId_of. by rewrite last_snoc. Qed.

(** ** The router *)

(** The post id the router reads in a path that ends with a slash and a
    segment. *)
Lemma postId_of_path pre seg :
  seg ≠ "" → no_slash seg = true → seg ≠ "community" →
  postId_of (path_parts (pre +:+ String "/" seg)) = Some seg.
Proof.
  intros Hne Hseg Hc%String.eqb_neq.
  by rewrite path_parts_snoc, postId_of_snoc, Hc.
Qed.

Lemma subresource_path pre id sub :
  pre +:+ "/" +:+ id +:+ String "/" sub = (pre +:+ "/" +:+ id) +:+ String "/" sub.
Proof. by rewrite !string_app_assoc. Qed.

Lemma includes_suffix pre suf : includes (pre +:+ suf) suf = true.
Proof. apply includes_spec. exists pre, "". by rewrite string_app_nil_r. Qed.

Section Router.
Context (authenticate : event → option string) (users : gmap string user_data)
  (Date_getTime : string → post_view → option Z).

Lemma exports_handler_get newId now path q b s :
  exports_handler authenticate users Date_getTime newId now (mkEvent "GET" path q b) s
  = (Reply match postId_of (path_parts path) with
           | None => handleGetPosts Date_getTime (default no_query q) s
           | Some postId =>
               if bool_decide ("comments" ∈ path_parts path)
               then handleGetComments postId s else handleGetPost postId s
           end, s).
Proof.
  unfold exports_handler, exports_route. simpl.
  destruct (postId_of (path_parts path)) as [postId |]; [| done].
  by destruct (bool_decide ("comments" ∈ path_parts path)).
Qed.

(** The answer and the store of a request that is neither a preflight nor
    a GET, from a caller who is authenticated and registered. *)
Lemma exports_handler_protected newId now ev s userId user :
  httpMethod ev ≠ "OPTIONS" → httpMethod ev ≠ "GET" →
  authenticate ev = Some userId → users !! userId = Some user →
  exports_handler authenticate users Date_getTime newId now ev s
  = match protected_route newId now ev (postId_of (path_parts (path ev)))
            (bool_decide ("comments" ∈ path_parts (path ev))) userId user s with
    | (Return r, s') => (Reply r, s')
    | (Throw, s') => (Reply (mkResponse 500 (Failure "Internal server error")), s')
    end.
Proof.
  intros Ho%String.eqb_neq Hg%String.eqb_neq Ha Hu.
  unfold exports_handler, exports_route. rewrite Ho, Hg, Ha.
  unfold bind at 1. unfold getUserData. rewrite Hu. unfold ret at 1.
  unfold bind.
  by destruct (protected_route newId now ev _ _ userId user s) as [[r |] s'].
Qed.

Lemma exports_handler_unauthenticated newId now ev s :
  httpMethod ev ≠ "OPTIONS" → httpMethod ev ≠ "GET" → authenticate ev = None →
  exports_handler authenticate users Date_getTime newId now ev s
  = (Reply (mkResponse 401 (Failure "Authentication required")), s).
Proof.
  intros Ho%String.eqb_neq Hg%String.eqb_neq Ha.
  unfold exports_handler, exports_route. by rewrite Ho, Hg, Ha.
Qed.

Lemma exports_handler_unregistered newId now ev s userId :
  httpMethod ev ≠ "OPTIONS" → httpMethod ev ≠ "GET" →
  authenticate ev = Some userId → users !! userId = None →
  exports_handler authenticate users Date_getTime newId now ev s
  = (Reply (mkResponse 500 (Failure "Internal server error")), s).
Proof.
  intros Ho%String.eqb_neq Hg%String.eqb_neq Ha Hu.
  unfold exports_handler, exports_route. rewrite Ho, Hg, Ha.
  unfold bind at 1, getUserData. by rewrite Hu.
Qed.

Lemma unreadable_body_store postId refusal s :
  (unreadable_body postId refusal s).2 = s.
Proof.
  unfold unreadable_body, bind. simpl.
  destruct (Redis.hgetall_post postId s) as [P |]; [| done].
  destruct (negb (truthy (post_id P))); [done |].
  by destruct (refusal P).
Qed.

Lemma unreadable_body_not_found postId refusal s :
  post_hashes s !! postId = None →
  unreadable_body postId refusal s = (Return not_found, s).
Proof.
  intros HP. unfold unreadable_body, bind. simpl. unfold Redis.hgetall_post.
  by rewrite HP.
Qed.

End Router.

(** X16.  The router takes the last segment of the path for the post id.
    A GET on a path made of anything, a slash, a post id and "/comments",
    the address the client uses for listComments, is answered with the
    comments of the post named "comments", whatever the post id is: with
    404 when no post has that name. *)
Theorem comments_address_reads_last_segment authenticate users Date_getTime newId now
    pre id q b s :
  exports_handler authenticate users Date_getTime newId now
    (mkEvent "GET" (pre +:+ "/" +:+ id +:+ "/comments") q b) s
  = (Reply (handleGetComments "comments" s), s)
  ∧ (post_hashes s !! "comments" = None →
     exports_handler authenticate users Date_getTime newId now
       (mkEvent "GET" (pre +:+ "/" +:+ id +:+ "/comments") q b) s
     = (Reply not_found, s)).
Proof.
  assert (exports_handler authenticate users Date_getTime newId now
            (mkEvent "GET" (pre +:+ "/" +:+ id +:+ "/comments") q b) s
          = (Reply (handleGetComments "comments" s), s)) as Hget.
  { rewrite exports_handler_get.
    change (pre +:+ "/" +:+ id +:+ "/comments")
      with (pre +:+ "/" +:+ id +:+ String "/" "comments").
    rewrite subresource_path, path_parts_snoc, postId_of_snoc by done. simpl.
    rewrite bool_decide_eq_true_2; [done |].
    apply elem_of_app. right. by apply list_elem_of_singleton. }
  split; [exact Hget |].
  intros Hnone. rewrite Hget. unfold handleGetComments, Redis.hgetall_post.
  by rewrite Hnone.
Qed.

(** P1 holds two comments, and the address of its comments answers 404. *)
Example comments_address_p1 :
  handleGetComments "p1" store_p1_commented
  = mkResponse 200 (CommentList [mkCommentView second_comment 0;
                                  mkCommentView first_comment 0])
  ∧ exports_handler anonymous members no_clock "c9" "d9"
      (mkEvent "GET" "/api/community/p1/comments" None None) store_p1_commented
    = (Reply not_found, store_p1_commented).
Proof. split; reflexivity. Qed.

(** X17.  A GET on a path that ends with a slash and a segment that is not
    empty, holds no slash and is not "community" is answered for the post
    named by that segment, whatever precedes it: with its comments when
    "comments" is one of the parts of the path, with the post otherwise. *)
Theorem get_reads_last_segment authenticate users Date_getTime newId now pre seg q b s :
  seg ≠ "" → no_slash seg = true → seg ≠ "community" →
  exports_handler authenticate users Date_getTime newId now
    (mkEvent "GET" (pre +:+ String "/" seg) q b) s
  = (Reply (if bool_decide ("comments" ∈ path_parts pre ∨ seg = "comments")
            then handleGetComments seg s else handleGetPost seg s), s).
Proof.
  intros Hne Hseg Hc. rewrite exports_handler_get, postId_of_path by done.
  rewrite path_parts_snoc by done. do 2 f_equal.
  assert (bool_decide ("comments" ∈ (path_parts pre ++ [seg])%list)
          = bool_decide ("comments" ∈ path_parts pre ∨ seg = "comments")) as ->; [| done].
  apply bool_decide_ext. rewrite elem_of_app, list_elem_of_singleton. naive_solver.
Qed.

Lemma get_reads_last_segment_witness :
  exports_handler anonymous members no_clock "c9" "d9"
    (mkEvent "GET" "/api/community/comments/p1" None None) store_p1_commented
  = (Reply (mkResponse 200 (CommentList [mkCommentView second_comment 0;
                                          mkCommentView first_comment 0])),
     store_p1_commented)
  ∧ exports_handler anonymous members no_clock "c9" "d9"
      (mkEvent "GET" "/api/community/p1" None None) store_p1_commented
    = (Reply (handleGetPost "p1" store_p1_commented), store_p1_commented).
Proof.
  split.
  - exact (get_reads_last_segment anonymous members no_clock "c9" "d9"
             "/api/community/comments" "p1" None None store_p1_commented
             ltac:(discriminate) eq_refl ltac:(discriminate)).
  - exact (get_reads_last_segment anonymous members no_clock "c9" "d9"
             "/api/community" "p1" None None store_p1_commented
             ltac:(discriminate) eq_refl ltac:(discriminate)).
Defined.

(** X18.  A POST on a path made of anything, a slash, a post id and
    "/comments", "/like" or "/bookmark" (the addresses the client uses for
    addComment, setLike and setBookmark), from a caller who is
    authenticated and registered, is handled for the post named
    "comments", "like" or "bookmark": when no post has that name it
    answers 404 "Post not found" and writes nothing, whatever the post id
    and the body are. *)
Theorem subresource_address_misses_post authenticate users Date_getTime newId now
    pre id sub q b s userId user :
  sub ∈ ["comments"; "like"; "bookmark"] →
  let ev := mkEvent "POST" (pre +:+ "/" +:+ id +:+ String "/" sub) q b in
  authenticate ev = Some userId → users !! userId = Some user →
  post_hashes s !! sub = None →
  exports_handler authenticate users Date_getTime newId now ev s
  = (Reply not_found, s).
Proof.
  intros Hsub ev Ha Hu Hnone.
  assert (sub ≠ "" ∧ no_slash sub = true ∧ sub ≠ "community"
          ∧ (sub = "comments" ∨ includes (path ev) "/like" = true
             ∨ includes (path ev) "/bookmark" = true)) as (Hne & Hseg & Hc & Hkind).
  { rewrite !elem_of_cons in Hsub.
    destruct Hsub as [-> | [-> | [-> | []%elem_of_nil]]];
      (split; [done |]; split; [done |]; split; [done |]).
    - by left.
    - right. left. simpl. rewrite subresource_path. apply includes_suffix.
    - right. right. simpl. rewrite subresource_path. apply includes_suffix. }
  assert (∀ P, post_hashes s !! sub = Some P → post_id P = "") as Hnf
    by (intros P HP; congruence).
  rewrite (exports_handler_protected _ _ _ _ _ _ _ userId user) by done.
  unfold protected_route. simpl.
  rewrite subresource_path, path_parts_snoc, postId_of_snoc by done.
  apply String.eqb_neq in Hc. rewrite Hc.
  destruct (bool_decide ("comments" ∈ (path_parts (pre +:+ "/" +:+ id) ++ [sub])%list))
    eqn:Hcomments.
  { destruct b as [requestBody |];
      [by rewrite handleCreateComment_not_found
      | by rewrite unreadable_body_not_found]. }
  rewrite <- subresource_path.
  destruct Hkind as [-> | [Hlike | Hmark]].
  - apply bool_decide_eq_false in Hcomments. exfalso. apply Hcomments.
    apply elem_of_app. right. by apply list_elem_of_singleton.
  - simpl in Hlike. rewrite Hlike.
    destruct b as [requestBody |];
      [by rewrite handleLikePost_not_found | by rewrite unreadable_body_not_found].
  - simpl in Hmark. rewrite Hmark.
    destruct (includes (pre +:+ "/" +:+ id +:+ String "/" sub) "/like");
      destruct b as [requestBody |];
      [by rewrite handleLikePost_not_found | by rewrite unreadable_body_not_found
      | by rewrite handleBookmarkPost_not_found | by rewrite unreadable_body_not_found].
Qed.

Lemma subresource_address_misses_post_witness :
  exports_handler as_u2 members no_clock "c9" "d9"
    (mkEvent "POST" "/api/community/p1/like" None (Some empty_body)) store_p1
  = (Reply not_found, store_p1).
Proof.
  apply (subresource_address_misses_post as_u2 members no_clock "c9" "d9"
           "/api/community" "p1" "like" None (Some empty_body) store_p1 "u2" bob).
  - apply elem_of_cons. right. by left.
  - reflexivity.
  - reflexivity.
  - reflexivity.
Defined.

(** X19.  A request that is neither a preflight nor a GET writes nothing
    and answers 401 when the caller is not authenticated, and writes
    nothing and answers 500 when the caller is authenticated and has no
    user record. *)
Theorem protected_route_needs_user authenticate users Date_getTime newId now ev s :
  httpMethod ev ≠ "OPTIONS" → httpMethod ev ≠ "GET" →
  (authenticate ev = None →
   exports_handler authenticate users Date_getTime newId now ev s
   = (Reply (mkResponse 401 (Failure "Authentication required")), s))
  ∧ (∀ userId, authenticate ev = Some userId → users !! userId = None →
       exports_handler authenticate users Date_getTime newId now ev s
       = (Reply (mkResponse 500 (Failure "Internal server error")), s)).
Proof.
  intros Ho Hg. split.
  - intros Ha. by apply exports_handler_unauthenticated.
  - intros userId Ha Hu. by apply (exports_handler_unregistered _ _ _ _ _ _ _ userId).
Qed.

Lemma protected_route_needs_user_witness :
  exports_handler anonymous members no_clock "p9" "d9"
    (mkEvent "DELETE" "/api/community/p1" None None) store_p1
  = (Reply (mkResponse 401 (Failure "Authentication required")), store_p1)
  ∧ exports_handler as_u2 ∅ no_clock "p9" "d9"
      (mkEvent "DELETE" "/api/community/p1" None None) store_p1
    = (Reply (mkResponse 500 (Failure "Internal server error")), store_p1).
Proof.
  split.
  - apply (proj1 (protected_route_needs_user anonymous members no_clock "p9" "d9"
                    (mkEvent "DELETE" "/api/community/p1" None None) store_p1
                    ltac:(discriminate) ltac:(discriminate))).
    reflexivity.
  - apply (proj2 (protected_route_needs_user as_u2 ∅ no_clock "p9" "d9"
                    (mkEvent "DELETE" "/api/community/p1" None None) store_p1
                    ltac:(discriminate) ltac:(discriminate)) "u2"); reflexivity.
Defined.

(** X20.  The addresses that reach each handler, for a caller who is
    authenticated and registered and a body that reads.  With a post id
    that is not empty, holds no slash and is neither "community" nor
    "comments": GET and POST on a path ending with "/community" list the
    posts and create a post; PUT and DELETE on a path ending with the id
    update and delete that post; POST on a path ending with "/comments/"
    and the id adds a comment to that post; POST on a path ending with
    "/like/" or "/bookmark/" and the id, with no part "comments", sets the
    like or the bookmark of that post. *)
Theorem routes_that_reach_the_handlers authenticate users Date_getTime newId now ev s
    userId user b pre id :
  authenticate ev = Some userId → users !! userId = Some user →
  event_body ev = Some b →
  id ≠ "" → no_slash id = true → id ≠ "community" → id ≠ "comments" →
  let result := exports_handler authenticate users Date_getTime newId now ev s in
  (httpMethod ev = "GET" → path ev = pre +:+ "/community" →
   result = (Reply (handleGetPosts Date_getTime
                      (default no_query (queryStringParameters ev)) s), s))
  ∧ (httpMethod ev = "POST" → path ev = pre +:+ "/community" →
     result = answered (handleCreatePost newId now (post_body_of b) userId user) s)
  ∧ (httpMethod ev = "PUT" → path ev = pre +:+ String "/" id →
     result = answered (handleUpdatePost now (post_body_of b) id userId user) s)
  ∧ (httpMethod ev = "DELETE" → path ev = pre +:+ String "/" id →
     result = answered (handleDeletePost id userId user) s)
  ∧ (httpMethod ev = "POST" → path ev = pre +:+ "/comments" +:+ String "/" id →
     result = answered (handleCreateComment newId now (rb_content b) id userId user) s)
  ∧ (httpMethod ev = "POST" → path ev = pre +:+ "/like" +:+ String "/" id →
     "comments" ∉ path_parts pre →
     result = answered (handleLikePost (rb_action b) id userId) s)
  ∧ (httpMethod ev = "POST" → path ev = pre +:+ "/bookmark" +:+ String "/" id →
     "comments" ∉ path_parts pre → includes (path ev) "/like" = false →
     result = answered (handleBookmarkPost (rb_action b) id userId) s).
Proof.
  intros Ha Hu Hb Hne Hseg Hc Hcomments result. unfold result.
  assert (∀ m, httpMethod ev = m → m ≠ "OPTIONS" → m ≠ "GET" →
    exports_handler authenticate users Date_getTime newId now ev s
    = answered (protected_route newId now ev (postId_of (path_parts (path ev)))
                  (bool_decide ("comments" ∈ path_parts (path ev))) userId user) s)
    as Hprot.
  { intros m Hm Ho Hg.
    by rewrite (exports_handler_protected _ _ _ _ _ _ _ userId user) by congruence. }
  assert (∀ a sub, "comments" ∉ path_parts a → sub ≠ "" → no_slash sub = true →
            sub ≠ "comments" →
            bool_decide ("comments" ∈ path_parts (a +:+ String "/" sub +:+ String "/" id))
            = false) as Hno.
  { intros a sub Ha' Hsub Hsubseg Hsubc. apply bool_decide_eq_false.
    rewrite <- string_app_assoc, !path_parts_snoc by done.
    rewrite !elem_of_app, !list_elem_of_singleton. naive_solver. }
  apply String.eqb_neq in Hc as Hceq.
  split.
  { intros Hm Hp. unfold exports_handler, exports_route. rewrite Hm, Hp. simpl.
    change (pre +:+ "/community") with (pre +:+ String "/" "community").
    by rewrite path_parts_snoc, postId_of_snoc by done. }
  split.
  { intros Hm Hp. rewrite (Hprot "POST") by done.
    unfold answered, protected_route. rewrite Hm, Hp, Hb. simpl.
    change (pre +:+ "/community") with (pre +:+ String "/" "community").
    by rewrite path_parts_snoc, postId_of_snoc by done. }
  split.
  { intros Hm Hp. rewrite (Hprot "PUT") by done.
    unfold answered, protected_route. rewrite Hm, Hp, Hb. simpl.
    by rewrite path_parts_snoc, postId_of_snoc, Hceq by done. }
  split.
  { intros Hm Hp. rewrite (Hprot "DELETE") by done.
    unfold answered, protected_route. rewrite Hm, Hp. simpl.
    by rewrite path_parts_snoc, postId_of_snoc, Hceq by done. }
  split.
  { intros Hm Hp. rewrite (Hprot "POST") by done.
    unfold answered, protected_route. rewrite Hm, Hp, Hb. simpl.
    change (pre +:+ "/comments" +:+ String "/" id)
      with (pre +:+ String "/" "comments" +:+ String "/" id).
    rewrite <- string_app_assoc, !path_parts_snoc, postId_of_snoc, Hceq by done.
    rewrite bool_decide_eq_true_2; [done |].
    rewrite !elem_of_app, !list_elem_of_singleton. naive_solver. }
  split.
  { intros Hm Hp Hpre. rewrite (Hprot "POST") by done.
    unfold answered, protected_route. rewrite Hm, Hp, Hb. simpl.
    change (pre +:+ "/like" +:+ String "/" id)
      with (pre +:+ String "/" "like" +:+ String "/" id).
    rewrite Hno by done.
    assert (includes (pre +:+ String "/" "like" +:+ String "/" id) "/like" = true) as ->.
    { apply includes_spec. by exists pre, (String "/" id). }
    rewrite <- string_app_assoc.
    by rewrite path_parts_snoc, postId_of_snoc, Hceq by done. }
  intros Hm Hp Hpre Hlike. rewrite (Hprot "POST") by done.
  unfold answered, protected_route. rewrite Hm, Hlike, Hp, Hb. simpl.
  change (pre +:+ "/bookmark" +:+ String "/" id)
    with (pre +:+ String "/" "bookmark" +:+ String "/" id).
  rewrite Hno by done.
  assert (includes (pre +:+ String "/" "bookmark" +:+ String "/" id) "/bookmark" = true)
    as ->.
  { apply includes_spec. by exists pre, (String "/" id). }
  rewrite <- string_app_assoc.
  by rewrite path_parts_snoc, postId_of_snoc, Hceq by done.
Qed.

Lemma routes_that_reach_the_handlers_witness :
  exports_handler as_u2 members no_clock "c9" "d9"
    (mkEvent "POST" "/api/community/like/p1" None (Some empty_body)) store_p1
  = answered (handleLikePost None "p1" "u2") store_p1
  ∧ (answered (handleLikePost None "p1" "u2") store_p1).1
    = Reply (mkResponse 200 (LikeData 1 true)).
Proof.
  destruct (routes_that_reach_the_handlers as_u2 members no_clock "c9" "d9"
              (mkEvent "POST" "/api/community/like/p1" None (Some empty_body)) store_p1
              "u2" bob empty_body "/api/community" "p1" eq_refl eq_refl eq_refl
              ltac:(discriminate) eq_refl ltac:(discriminate) ltac:(discriminate))
    as (_ & _ & _ & _ & _ & Hlike & _).
  split; [| reflexivity].
  apply Hlike; [reflexivity | reflexivity |].
  apply (bool_decide_eq_false_1 ("comments" ∈ path_parts "/api/community")).
  reflexivity.
Defined.

(** ** The answers of the handlers *)

Section Answers.
Context (Date_getTime : string → post_view → option Z).

Lemma handleGetPost_status postId s :
  statusCode (handleGetPost postId s) ∈ handler_statuses.
Proof.
  unfold handleGetPost. destruct (Redis.hgetall_post postId s) as [P |];
    [destruct (negb (truthy (post_id P))) |]; vm_compute; set_solver.
Qed.

Lemma handleGetComments_status postId s :
  statusCode (handleGetComments postId s) ∈ handler_statuses.
Proof.
  unfold handleGetComments. destruct (Redis.hgetall_post postId s) as [P |];
    [destruct (negb (truthy (post_id P))) |]; [| destruct (Redis.lrange _ s) |];
    simpl; unfold handler_statuses; set_solver.
Qed.

Lemma handleLikePost_status action postId userId s :
  ∃ r s', handleLikePost action postId userId s = (Return r, s')
          ∧ statusCode r ∈ handler_statuses.
Proof.
  unfold handleLikePost, bind at 1. simpl.
  destruct (Redis.hgetall_post postId s) as [P |];
    [destruct (negb (truthy (post_id P))) |];
    [| destruct (String.eqb (default "like" action) "like");
       [| destruct (String.eqb (default "like" action) "unlike")] |];
    eexists _, _; (split; [reflexivity |]); simpl; unfold handler_statuses; set_solver.
Qed.

Lemma handleBookmarkPost_status action postId userId s :
  ∃ r s', handleBookmarkPost action postId userId s = (Return r, s')
          ∧ statusCode r ∈ handler_statuses.
Proof.
  unfold handleBookmarkPost, bind at 1. simpl.
  destruct (Redis.hgetall_post postId s) as [P |];
    [destruct (negb (truthy (post_id P))) |];
    [| destruct (String.eqb (default "bookmark" action) "bookmark");
       [| destruct (String.eqb (default "bookmark" action) "unbookmark")] |];
    eexists _, _; (split; [reflexivity |]); simpl; unfold handler_statuses; set_solver.
Qed.

(** On a store where every stored tag text parses no handler throws, and
    every answer has one of the five statuses. *)
Lemma handler_status req s :
  store_inv s → statusCode (handler Date_getTime req s).1 ∈ handler_statuses.
Proof.
  intros [Htags _]. unfold handler.
  destruct req as [q | postId | postId | postId now b userId user
                   | now b postId userId user | postId userId user
                   | commentId now content postId userId user
                   | action postId userId | action postId userId]; simpl.
  - rewrite handleGetPosts_run. unfold handler_statuses. simpl. set_solver.
  - apply handleGetPost_status.
  - apply handleGetComments_status.
  - destruct (truthy_opt (body_title b)) eqn:Ht;
      [destruct (truthy_opt (body_content b)) eqn:Hc |];
      [| rewrite handleCreatePost_rejects by auto; unfold handler_statuses; simpl;
         set_solver..].
    destruct (body_title b) as [title |] eqn:Et; [| done].
    destruct (body_content b) as [content |] eqn:Ec; [| done].
    rewrite (handleCreatePost_run _ _ _ _ _ _ title content) by done.
    unfold handler_statuses. simpl. set_solver.
  - destruct (post_found_or_not postId s) as [(P & HP & Hid) | Hnf];
      [| rewrite handleUpdatePost_not_found by done; unfold handler_statuses; simpl;
         set_solver].
    destruct (not_permitted P userId user) eqn:Hperm;
      [rewrite (handleUpdatePost_forbidden _ _ _ _ _ _ P) by done;
       unfold handler_statuses; simpl; set_solver |].
    destruct (Htags postId P HP) as [oldTags Hold].
    rewrite (handleUpdatePost_run _ _ _ _ _ _ P oldTags) by done.
    unfold handler_statuses. simpl. set_solver.
  - destruct (post_found_or_not postId s) as [(P & HP & Hid) | Hnf];
      [| rewrite handleDeletePost_not_found by done; unfold handler_statuses; simpl;
         set_solver].
    destruct (not_permitted P userId user) eqn:Hperm;
      [rewrite (handleDeletePost_forbidden _ _ _ _ P) by done;
       unfold handler_statuses; simpl; set_solver |].
    destruct (Htags postId P HP) as [tags Hold].
    rewrite (handleDeletePost_run _ _ _ _ P tags) by done.
    unfold handler_statuses. simpl. set_solver.
  - destruct (post_found_or_not postId s) as [(P & HP & Hid) | Hnf];
      [| rewrite handleCreateComment_not_found by done; unfold handler_statuses; simpl;
         set_solver].
    destruct (truthy_opt content) eqn:Hc;
      [| rewrite (handleCreateComment_rejects _ _ _ _ _ _ _ P) by done;
         unfold handler_statuses; simpl; set_solver].
    destruct content as [text |]; [| done].
    rewrite (handleCreateComment_run _ _ _ _ _ _ _ P text) by done.
    unfold handler_statuses. simpl. set_solver.
  - by destruct (handleLikePost_status action postId userId s) as (r & s' & -> & ?).
  - by destruct (handleBookmarkPost_status action postId userId s) as (r & s' & -> & ?).
Qed.

Context (authenticate : event → option string) (users : gmap string user_data).

(** What the switch of the router does, for a body that reads: it runs one
    of the handlers, or answers that the endpoint is not found. *)
Lemma protected_route_cases newId now ev postId isCommentsEndpoint userId user s :
  (httpMethod ev = "POST" ∨ httpMethod ev = "PUT" → is_Some (event_body ev)) →
  protected_route newId now ev postId isCommentsEndpoint userId user s
  = (Return endpoint_not_found, s)
  ∨ ∃ req, protected_route newId now ev postId isCommentsEndpoint userId user s
           = route Date_getTime req s.
Proof.
  intros Hbody. unfold protected_route.
  destruct (String.eqb (httpMethod ev) "POST") eqn:Hpost.
  { apply String.eqb_eq in Hpost. destruct Hbody as [b ->]; [by left |].
    destruct postId as [postId |];
      [| right; by exists (CreatePost newId now (post_body_of b) userId user)].
    destruct isCommentsEndpoint;
      [right; by exists (CreateComment newId now (rb_content b) postId userId user) |].
    destruct (includes (path ev) "/like");
      [right; by exists (LikePost (rb_action b) postId userId) |].
    destruct (includes (path ev) "/bookmark");
      [right; by exists (BookmarkPost (rb_action b) postId userId) | by left]. }
  destruct (String.eqb (httpMethod ev) "PUT") eqn:Hput.
  { apply String.eqb_eq in Hput. destruct Hbody as [b ->]; [by right |].
    destruct postId as [postId |]; [| by left].
    right. by exists (UpdatePost now (post_body_of b) postId userId user). }
  destruct (String.eqb (httpMethod ev) "DELETE"); [| by left].
  destruct postId as [postId |]; [| by left].
  right. by exists (DeletePost postId userId user).
Qed.

(** The router answers as one of the handlers does, or writes nothing. *)
Lemma exports_handler_cases newId now ev s :
  (httpMethod ev = "POST" ∨ httpMethod ev = "PUT" → is_Some (event_body ev)) →
  exports_handler authenticate users Date_getTime newId now ev s = (Preflight, s)
  ∨ (∃ r, exports_handler authenticate users Date_getTime newId now ev s = (Reply r, s)
          ∧ (r = mkResponse 401 (Failure "Authentication required")
             ∨ r = endpoint_not_found
             ∨ r = mkResponse 500 (Failure "Internal server error")
               ∧ ∃ userId, authenticate ev = Some userId ∧ users !! userId = None))
  ∨ (∃ req, exports_handler authenticate users Date_getTime newId now ev s
            = (Reply (handler Date_getTime req s).1, (handler Date_getTime req s).2)).
Proof.
  intros Hbody.
  destruct (String.eqb (httpMethod ev) "OPTIONS") eqn:Ho.
  { left. unfold exports_handler, exports_route. by rewrite Ho. }
  destruct (String.eqb (httpMethod ev) "GET") eqn:Hg.
  { right. right. unfold exports_handler, exports_route. rewrite Ho, Hg.
    destruct (postId_of (path_parts (path ev))) as [postId |];
      [destruct (bool_decide ("comments" ∈ path_parts (path ev))) |].
    - by exists (GetComments postId).
    - by exists (GetPost postId).
    - by exists (GetPosts (default no_query (queryStringParameters ev))). }
  apply String.eqb_neq in Ho, Hg.
  destruct (authenticate ev) as [userId |] eqn:Ha.
  2: { right. left. eexists. split; [| by left].
       by apply exports_handler_unauthenticated. }
  destruct (users !! userId) as [user |] eqn:Hu.
  2: { right. left. eexists. split; [| right; right; split; [done | by eauto]].
       by apply (exports_handler_unregistered _ _ _ _ _ _ _ userId). }
  rewrite (exports_handler_protected _ _ _ _ _ _ _ userId user) by done.
  destruct (protected_route_cases newId now ev (postId_of (path_parts (path ev)))
              (bool_decide ("comments" ∈ path_parts (path ev))) userId user s Hbody)
    as [-> | [req ->]].
  - right. left. eexists. split; [done |]. right. by left.
  - right. right. exists req. unfold handler.
    by destruct (route Date_getTime req s) as [[r |] s'].
Qed.

End Answers.



(** X22.  A request whose body is absent or does not parse writes nothing,
    whatever its method but DELETE, which reads no body; and createPost
    with such a body, from a caller who is authenticated and registered,
    answers 500. *)
Theorem unread_body_writes_nothing authenticate users Date_getTime newId now ev s :
  event_body ev = None → httpMethod ev ≠ "DELETE" →
  (exports_handler authenticate users Date_getTime newId now ev s).2 = s
  ∧ (∀ userId user,
       httpMethod ev = "POST" → postId_of (path_parts (path ev)) = None →
       authenticate ev = Some userId → users !! userId = Some user →
       exports_handler authenticate users Date_getTime newId now ev s
       = (Reply (mkResponse 500 (Failure "Internal server error")), s)).
Proof.
  intros Hbody Hdel%String.eqb_neq. split.
  - destruct (String.eqb (httpMethod ev) "OPTIONS") eqn:Ho.
    { unfold exports_handler, exports_route. by rewrite Ho. }
    destruct (String.eqb (httpMethod ev) "GET") eqn:Hg.
    { unfold exports_handler, exports_route. rewrite Ho, Hg.
      destruct (postId_of (path_parts (path ev))) as [postId |];
        [destruct (bool_decide ("comments" ∈ path_parts (path ev))) |]; done. }
    apply String.eqb_neq in Ho, Hg.
    destruct (authenticate ev) as [userId |] eqn:Ha;
      [| by rewrite exports_handler_unauthenticated].
    destruct (users !! userId) as [user |] eqn:Hu;
      [| by rewrite (exports_handler_unregistered _ _ _ _ _ _ _ userId)].
    rewrite (exports_handler_protected _ _ _ _ _ _ _ userId user) by done.
    assert (∀ postId refusal,
      (let (o, s') := unreadable_body postId refusal s in
       match o with
       | Return r => (Reply r, s')
       | Throw => (Reply (mkResponse 500 (Failure "Internal server error")), s')
       end).2 = s) as Hunread.
    { intros postId refusal.
      pose proof (unreadable_body_store postId refusal s) as H.
      by destruct (unreadable_body postId refusal s) as [[r |] s']. }
    unfold protected_route. rewrite Hbody, Hdel.
    destruct (String.eqb (httpMethod ev) "POST");
      [| destruct (String.eqb (httpMethod ev) "PUT")];
      destruct (postId_of (path_parts (path ev))) as [postId |]; try done.
    destruct (bool_decide ("comments" ∈ path_parts (path ev))); [done |].
    destruct (includes (path ev) "/like"); [done |].
    by destruct (includes (path ev) "/bookmark").
  - intros userId user Hpost Hid Ha Hu.
    rewrite (exports_handler_protected _ _ _ _ _ _ _ userId user);
      [| by rewrite Hpost | by rewrite Hpost | done | done].
    unfold protected_route. by rewrite Hpost, Hid, Hbody.
Qed.

Lemma unread_body_writes_nothing_witness :
  exports_handler as_u2 members no_clock "p9" "d9"
    (mkEvent "POST" "/api/community" None None) store_p1
  = (Reply (mkResponse 500 (Failure "Internal server error")), store_p1).
Proof.
  apply (proj2 (unread_body_writes_nothing as_u2 members no_clock "p9" "d9"
                  (mkEvent "POST" "/api/community" None None) store_p1
                  eq_refl ltac:(discriminate)) "u2" bob); reflexivity.
Defined.

(** ** Authentication *)

Lemma header_token_spec authHeader token :
  header_token authHeader = Some token ↔ authHeader = Some ("Bearer " +:+ token).
Proof.
  unfold header_token. destruct authHeader as [h |]; [| by split].
  split.
  - destruct (truthy h && String.prefix "Bearer " h) eqn:Hh; [| done].
    apply andb_true_iff in Hh as [_ [suf ->]%prefix_spec]. by intros [= <-].
  - intros [= ->].
    by rewrite (proj2 (prefix_spec "Bearer " ("Bearer " +:+ token))) by eauto.
Qed.

(** X23.  When authenticateUser returns, the token it took was verified by
    jwt.verify, is not blank and is neither "null" nor "undefined"; the
    value returned is the sub of the decoded token, or its userId when the
    sub is absent or empty; and the token came after "Bearer " in the
    authorization header (in its lower-case spelling, else in the
    capitalised one), or, when the mode is not "bearer" and the header
    carries no such token, from the auth_token cookie. *)
Theorem authenticateUser_sound jwt_verify parse_auth_token AUTH_MODE
    headers_authorization headers_Authorization cookie userId :
  authenticateUser jwt_verify parse_auth_token AUTH_MODE
    headers_authorization headers_Authorization cookie = Authenticated userId →
  let authHeader := if truthy_opt headers_authorization then headers_authorization
                    else headers_Authorization in
  ∃ token decoded,
    jwt_verify token = Some decoded
    ∧ userId = (if truthy_opt (claim_sub decoded) then claim_sub decoded
                else claim_userId decoded)
    ∧ trim token ≠ "" ∧ token ≠ "null" ∧ token ≠ "undefined"
    ∧ (authHeader = Some ("Bearer " +:+ token)
       ∨ (AUTH_MODE ≠ "bearer" ∧ header_token authHeader = None
          ∧ ∃ cookies, cookie = Some cookies ∧ cookies ≠ ""
                       ∧ parse_auth_token cookies = Some token)).
Proof.
  intros Hrun authHeader. unfold authenticateUser in Hrun. fold authHeader in Hrun.
  assert (∃ token,
    (if String.eqb AUTH_MODE "bearer" then header_token authHeader
     else match header_token authHeader with
          | Some t => Some t
          | None => match cookie with
                    | Some cookies =>
                        if truthy cookies then parse_auth_token cookies else None
                    | None => None
                    end
          end) = Some token
    ∧ (authHeader = Some ("Bearer " +:+ token)
       ∨ (AUTH_MODE ≠ "bearer" ∧ header_token authHeader = None
          ∧ ∃ cookies, cookie = Some cookies ∧ cookies ≠ ""
                       ∧ parse_auth_token cookies = Some token))) as (token & Htoken & Hfrom).
  { destruct (String.eqb AUTH_MODE "bearer") eqn:Hmode.
    - destruct (header_token authHeader) as [token |] eqn:Hh; [| done].
      exists token. split; [done |]. left. by apply header_token_spec.
    - apply String.eqb_neq in Hmode.
      destruct (header_token authHeader) as [token |] eqn:Hh.
      + exists token. split; [done |]. left. by apply header_token_spec.
      + destruct cookie as [cookies |]; [| done].
        destruct (truthy cookies) eqn:Hc; [| done].
        destruct (parse_auth_token cookies) as [token |] eqn:Hp; [| done].
        exists token. split; [done |]. right. split; [done |]. split; [done |].
        exists cookies. split; [done |]. split; [by apply truthy_true | done]. }
  rewrite Htoken in Hrun. exists token.
  destruct (negb (truthy token)); [done |].
  destruct (String.eqb (trim token) "") eqn:Hblank; [done |].
  destruct (String.eqb token "null") eqn:Hnull; [done |].
  destruct (String.eqb token "undefined") eqn:Hundef; [done |]. simpl in Hrun.
  destruct (jwt_verify token) as [decoded |]; [| done].
  exists decoded. apply String.eqb_neq in Hblank, Hnull, Hundef.
  by simplify_eq.
Qed.

Lemma authenticateUser_sound_witness :
  ∃ token decoded,
    demo_verify token = Some decoded
    ∧ Some "u2" = (if truthy_opt (claim_sub decoded) then claim_sub decoded
                   else claim_userId decoded)
    ∧ token ≠ "null".
Proof.
  destruct (authenticateUser_sound demo_verify demo_cookie "bearer"
              (Some "Bearer tok") None (Some "auth_token=zzz") (Some "u2") eq_refl)
    as (token & decoded & Hv & Hu & _ & Hn & _).
  exists token, decoded. split; [exact Hv |]. split; [exact Hu | exact Hn].
Defined.

(** ** The indexes hold nothing but what is stored *)

Lemma handleLikePost_members action postId userId s :
  ∃ r s', handleLikePost action postId userId s = (Return r, s')
    ∧ post_hashes s' = post_hashes s ∧ comment_hashes s' = comment_hashes s
    ∧ lists s' = lists s
    ∧ ∀ k, k ≠ post_likes postId → Redis.smembers k s' = Redis.smembers k s.
Proof.
  unfold handleLikePost, bind at 1. simpl. unfold Redis.hgetall_post.
  destruct (post_hashes s !! postId) as [P |] eqn:HP; [| by eexists _, _].
  destruct (truthy (post_id P)); [| by eexists _, _]. simpl.
  destruct (String.eqb (default "like" action) "like"); unfold bind; simpl.
  { eexists _, _. do 4 (split; [done |]). intros k Hk.
    change (with_sets _ s) with (exec (Redis.sadd (post_likes postId) userId) s).
    by rewrite smembers_sadd, decide_False. }
  destruct (String.eqb (default "like" action) "unlike"); simpl.
  { eexists _, _. do 4 (split; [done |]). intros k Hk.
    change (with_sets _ s) with (exec (Redis.srem (post_likes postId) userId) s).
    by rewrite smembers_srem, decide_False. }
  by eexists _, _.
Qed.

Lemma handleBookmarkPost_members action postId userId s :
  ∃ r s', handleBookmarkPost action postId userId s = (Return r, s')
    ∧ post_hashes s' = post_hashes s ∧ comment_hashes s' = comment_hashes s
    ∧ lists s' = lists s
    ∧ (∀ k, k ≠ user_bookmarks userId → Redis.smembers k s' = Redis.smembers k s)
    ∧ (∀ x, x ∈ Redis.smembers (user_bookmarks userId) s' →
            x ∈ Redis.smembers (user_bookmarks userId) s
            ∨ x = postId ∧ is_Some (post_hashes s !! postId)).
Proof.
  unfold handleBookmarkPost, bind at 1. simpl. unfold Redis.hgetall_post.
  destruct (post_hashes s !! postId) as [P |] eqn:HP; [| eexists _, _; by eauto 10].
  destruct (truthy (post_id P)); [| eexists _, _; by eauto 10]. simpl.
  destruct (String.eqb (default "bookmark" action) "bookmark"); unfold bind; simpl.
  { eexists _, _. do 4 (split; [done |]).
    change (with_sets _ s) with (exec (Redis.sadd (user_bookmarks userId) postId) s).
    split.
    - intros k Hk. by rewrite smembers_sadd, decide_False.
    - intros x. rewrite smembers_sadd, decide_True by done.
      rewrite elem_of_union, elem_of_singleton. naive_solver. }
  destruct (String.eqb (default "bookmark" action) "unbookmark"); simpl.
  { eexists _, _. do 4 (split; [done |]).
    change (with_sets _ s) with (exec (Redis.srem (user_bookmarks userId) postId) s).
    split.
    - intros k Hk. by rewrite smembers_srem, decide_False.
    - intros x. rewrite smembers_srem, decide_True by done. set_solver. }
  eexists _, _. by eauto 10.
Qed.

Lemma smembers_empty_store k : Redis.smembers k empty_store = ∅.
Proof. unfold Redis.smembers. simpl. by rewrite lookup_empty. Qed.

Lemma lrange_empty_store k : Redis.lrange k empty_store = [].
Proof. unfold Redis.lrange. simpl. by rewrite lookup_empty. Qed.

Lemma tidy_empty : tidy empty_store.
Proof.
  split; intros; rewrite ?lrange_empty_store, ?smembers_empty_store in *;
    try apply NoDup_nil_2; set_solver.
Qed.

Section Tidy.
Context (Date_getTime : string → post_view → option Z).

Lemma tidy_create postId now requestBody userId user s :
  postId ≠ "" → post_hashes s !! postId = None → tidy s →
  tidy (handler Date_getTime (CreatePost postId now requestBody userId user) s).2.
Proof.
  intros Hne Hfresh Ht. unfold handler, route.
  destruct (truthy_opt (body_title requestBody)) eqn:Htitle;
    [destruct (truthy_opt (body_content requestBody)) eqn:Hcontent |];
    [| by rewrite handleCreatePost_rejects by auto..].
  destruct (body_title requestBody) as [title |] eqn:Et; [| done].
  destruct (body_content requestBody) as [content |] eqn:Ec; [| done].
  rewrite (handleCreatePost_run _ _ _ _ _ _ title content) by done. simpl.
  set (P := new_post postId now title content requestBody userId user).
  set (tags := default [] (body_tags requestBody)).
  destruct (created_store_frame postId userId P tags s) as [Hh Hc].
  assert (parse_tags_or_empty P = tags) as Hparse.
  { unfold parse_tags_or_empty, P. simpl. by rewrite JSONFacts.parse_stored_tags. }
  assert (postId ∉ Redis.lrange community_posts s) as Hglobal.
  { intros [P' HP']%(tidy_global s Ht). congruence. }
  assert (∀ u, postId ∉ Redis.lrange (user_posts u) s) as Hauthor.
  { intros u (P' & HP' & _)%(tidy_author s Ht). congruence. }
  assert (∀ k, Redis.lrange k (created_store postId userId P tags s)
               = if decide (k = community_posts ∨ k = user_posts userId)
                 then postId :: Redis.lrange k s else Redis.lrange k s) as Hl.
  { intros k. rewrite created_store_lrange. unfold P. simpl.
    repeat case_decide; naive_solver. }
  assert (∀ k, Redis.smembers k (created_store postId userId P tags s)
               = if decide (k = category_set (post_category P) ∨ k ∈ tag_set <$> tags)
                 then {[postId]} ∪ Redis.smembers k s else Redis.smembers k s) as Hs.
  { intros k. rewrite created_store_smembers.
    destruct (decide (k ∈ tag_set <$> tags)) as [Hk | Hk],
      (decide (category_set (post_category P) = k)) as [Hk' | Hk'].
    - rewrite decide_True by by right. set_solver.
    - by rewrite decide_True by by right.
    - by rewrite decide_True by by left.
    - rewrite decide_False; [done |]. by intros [-> | ?]. }
  split.
  - intros id P'. rewrite Hh, lookup_insert.
    destruct (decide (postId = id)) as [<- | Hid]; [| apply (tidy_id s Ht)].
    by intros [= <-].
  - intros id. rewrite Hh, lookup_insert, Hl.
    destruct (decide (postId = id)) as [<- | Hid]; [by eauto |].
    rewrite decide_True by by left.
    intros [-> | Hin]%elem_of_cons; [done | by apply (tidy_global s Ht)].
  - intros u id. rewrite Hh, lookup_insert, Hl.
    destruct (decide (postId = id)) as [<- | Hid].
    + intros Hin. exists P. split; [done |].
      case_decide as Hu; [by destruct Hu as [[=] | [= ->]] |]. by apply Hauthor in Hin.
    + case_decide as Hu; [| by apply (tidy_author s Ht)].
      intros [-> | Hin]%elem_of_cons; [done | by apply (tidy_author s Ht)].
  - intros c id. rewrite Hh, lookup_insert, Hs.
    destruct (decide (postId = id)) as [<- | Hid].
    + intros Hin. exists P. split; [done |].
      case_decide as Hcat.
      * destruct Hcat as [[= ->] | Hcat]; [done |].
        by apply category_not_tag_key in Hcat.
      * apply (tidy_category s Ht) in Hin as (P' & HP' & _). congruence.
    + case_decide as Hcat; [| by apply (tidy_category s Ht)].
      rewrite elem_of_union, elem_of_singleton.
      intros [-> | Hin]; [done | by apply (tidy_category s Ht)].
  - intros t id. rewrite Hh, lookup_insert, Hs.
    destruct (decide (postId = id)) as [<- | Hid].
    + intros Hin. exists P. split; [done |]. rewrite Hparse.
      case_decide as Htag.
      * destruct Htag as [[=] | Htag]. by apply elem_of_tag_keys.
      * apply (tidy_tag s Ht) in Hin as (P' & HP' & _). congruence.
    + case_decide as Htag; [| by apply (tidy_tag s Ht)].
      rewrite elem_of_union, elem_of_singleton.
      intros [-> | Hin]; [done | by apply (tidy_tag s Ht)].
  - intros u id. rewrite Hh, lookup_insert, Hs.
    destruct (decide (postId = id)) as [<- | Hid]; [by eauto |].
    rewrite decide_False; [by apply (tidy_bookmarks s Ht) |].
    intros [[=] | (? & ? & _)%list_elem_of_fmap]; done.
  - rewrite Hl, decide_True by by left.
    apply NoDup_cons. split; [done | by apply (tidy_global_once s Ht)].
  - intros u. rewrite Hl.
    case_decide; [| by apply (tidy_author_once s Ht)].
    apply NoDup_cons. split; [by apply Hauthor | by apply (tidy_author_once s Ht)].
  - intros pid id. rewrite Hc, Hl, decide_False by (by intros [[=] | [=]]).
    by apply (tidy_comments s Ht).
  - intros pid. rewrite Hl, decide_False by (by intros [[=] | [=]]).
    by apply (tidy_comments_once s Ht).
Qed.

Lemma tidy_update now requestBody postId userId user s :
  store_inv s → tidy s →
  tidy (handler Date_getTime (UpdatePost now requestBody postId userId user) s).2.
Proof.
  intros [Htags _] Ht. unfold handler, route.
  destruct (post_found_or_not postId s) as [(P & HP & Hid) | Hnf];
    [| by rewrite handleUpdatePost_not_found].
  destruct (not_permitted P userId user) eqn:Hperm;
    [by rewrite (handleUpdatePost_forbidden _ _ _ _ _ _ P) |].
  destruct (Htags postId P HP) as [oldTags Hold].
  rewrite (handleUpdatePost_run _ _ _ _ _ _ P oldTags) by done. simpl.
  pose (P' := updated_post now requestBody P).
  destruct (updated_store_hashes now requestBody postId P oldTags s) as (Hh & Hc & Hl).
  destruct (updated_post_identity now requestBody P) as (Hi & Ha & _).
  assert (parse_tags_or_empty P = oldTags) as Hparse
    by (unfold parse_tags_or_empty; by rewrite Hold).
  assert (∀ k, Redis.lrange k (updated_store now requestBody postId P oldTags s)
               = Redis.lrange k s) as Hlr
    by (intros k; unfold Redis.lrange; by rewrite Hl).
  split.
  - intros id Q. rewrite Hh, lookup_insert.
    destruct (decide (postId = id)) as [<- | Hne]; [| apply (tidy_id s Ht)].
    intros [= <-]. rewrite Hi. by apply (tidy_id s Ht).
  - intros id. rewrite Hh, lookup_insert, Hlr.
    destruct (decide (postId = id)); [by eauto | by apply (tidy_global s Ht)].
  - intros u id. rewrite Hh, lookup_insert, Hlr.
    destruct (decide (postId = id)) as [<- | Hne]; [| by apply (tidy_author s Ht)].
    intros (Q & HQ & HQa)%(tidy_author s Ht). exists P'. split; [done |].
    unfold P'. rewrite Ha. congruence.
  - intros c id. rewrite Hh, lookup_insert.
    destruct (decide (postId = id)) as [<- | Hne];
      [| rewrite updated_store_others by done; by apply (tidy_category s Ht)].
    intros Hin. exists P'. split; [done |]. unfold P'.
    rewrite updated_post_category.
    rewrite updated_store_smembers, retagged_store_smembers in Hin.
    assert (postId ∈ Redis.smembers (category_set c)
                       (recategorized_store postId requestBody P s)) as Hin'.
    { destruct (body_tags requestBody) as [tags |]; [| done].
      by rewrite !(decide_False (P := category_set _ ∈ tag_set <$> _)) in Hin
        by apply category_not_tag_key. }
    clear Hin. rewrite recategorized_store_smembers in Hin'.
    assert (postId ∈ Redis.smembers (category_set c) s → post_category P = c) as Hold'.
    { intros (Q & HQ & HQc)%(tidy_category s Ht). congruence. }
    destruct (body_category requestBody) as [category |]; [| by apply Hold'].
    destruct (truthy category && negb (String.eqb category (post_category P)));
      [| by apply Hold'].
    destruct (decide (category_set category = category_set c)) as [[= ->] | Hcat];
      [done |].
    destruct (decide (category_set (post_category P) = category_set c)) as [Hc' | Hc'];
      [set_solver |].
    apply Hold' in Hin'. congruence.
  - intros t id. rewrite Hh, lookup_insert.
    destruct (decide (postId = id)) as [<- | Hne];
      [| rewrite updated_store_others by done; by apply (tidy_tag s Ht)].
    intros Hin. exists P'. split; [done |]. unfold P', parse_tags_or_empty.
    rewrite updated_post_tags.
    rewrite updated_store_smembers, retagged_store_smembers in Hin.
    assert (Redis.smembers (tag_set t) (recategorized_store postId requestBody P s)
            = Redis.smembers (tag_set t) s) as Hcat.
    { rewrite recategorized_store_smembers.
      destruct (body_category requestBody) as [c |]; [| done].
      destruct (truthy c && negb (String.eqb c (post_category P))); [| done].
      by rewrite !decide_False. }
    rewrite Hcat in Hin.
    assert (postId ∈ Redis.smembers (tag_set t) s → t ∈ oldTags) as Hold'.
    { intros (Q & HQ & HQt)%(tidy_tag s Ht). rewrite <- Hparse. congruence. }
    destruct (body_tags requestBody) as [tags |].
    + rewrite JSONFacts.parse_stored_tags. simpl.
      destruct (decide (tag_set t ∈ tag_set <$> tags)) as [Hnew | Hnew];
        [by apply elem_of_tag_keys |].
      destruct (decide (tag_set t ∈ tag_set <$> oldTags)) as [Hwas | Hwas];
        [set_solver |].
      exfalso. apply Hwas, elem_of_tag_keys. by apply Hold'.
    + fold (parse_tags_or_empty P). rewrite Hparse. by apply Hold'.
  - intros u id. rewrite Hh, lookup_insert.
    rewrite updated_store_other_sets by done.
    destruct (decide (postId = id)); [by eauto | by apply (tidy_bookmarks s Ht)].
  - rewrite Hlr. by apply (tidy_global_once s Ht).
  - intros u. rewrite Hlr. by apply (tidy_author_once s Ht).
  - intros pid id. rewrite Hc, Hlr. by apply (tidy_comments s Ht).
  - intros pid. rewrite Hlr. by apply (tidy_comments_once s Ht).
Qed.

Lemma tidy_delete postId userId user s :
  store_inv s → tidy s →
  tidy (handler Date_getTime (DeletePost postId userId user) s).2.
Proof.
  intros [Htags _] Ht. unfold handler, route.
  destruct (post_found_or_not postId s) as [(P & HP & Hid) | Hnf];
    [| by rewrite handleDeletePost_not_found].
  destruct (not_permitted P userId user) eqn:Hperm;
    [by rewrite (handleDeletePost_forbidden _ _ _ _ P) |].
  destruct (Htags postId P HP) as [tags Hold].
  rewrite (handleDeletePost_run _ _ _ _ P tags) by done. simpl.
  destruct (deleted_store_hashes postId P tags s) as (Hh & Hc).
  destruct (deleted_store_shrinks postId P tags s) as [Hsets Hlists].
  assert (parse_tags_or_empty P = tags) as Hparse
    by (unfold parse_tags_or_empty; by rewrite Hold).
  split.
  - intros id Q. rewrite Hh, lookup_delete.
    destruct (decide (postId = id)); [done | apply (tidy_id s Ht)].
  - intros id Hin. rewrite Hh, lookup_delete.
    destruct (decide (postId = id)) as [<- | Hne].
    + by apply deleted_store_global in Hin.
    + by apply (tidy_global s Ht), Hlists.
  - intros u id Hin. rewrite Hh, lookup_delete.
    destruct (decide (postId = id)) as [<- | Hne];
      [| by apply (tidy_author s Ht), Hlists].
    exfalso. pose proof (Hlists _ _ Hin) as (Q & HQ & HQa)%(tidy_author s Ht).
    assert (Q = P) as -> by congruence. subst u.
    by apply deleted_store_author in Hin.
  - intros c id Hin. rewrite Hh, lookup_delete.
    destruct (decide (postId = id)) as [<- | Hne];
      [| by apply (tidy_category s Ht), Hsets].
    exfalso. pose proof (Hsets _ _ Hin) as (Q & HQ & HQc)%(tidy_category s Ht).
    assert (Q = P) as -> by congruence. subst c.
    by apply deleted_store_category in Hin.
  - intros t id Hin. rewrite Hh, lookup_delete.
    destruct (decide (postId = id)) as [<- | Hne];
      [| by apply (tidy_tag s Ht), Hsets].
    exfalso. pose proof (Hsets _ _ Hin) as (Q & HQ & HQt)%(tidy_tag s Ht).
    assert (Q = P) as -> by congruence. rewrite Hparse in HQt.
    by apply (deleted_store_tag postId P tags s t) in Hin.
  - intros u id Hin. rewrite Hh, lookup_delete.
    destruct (decide (postId = id)) as [<- | Hne];
      [| by apply (tidy_bookmarks s Ht u), Hsets].
    by apply deleted_store_bookmarks in Hin.
  - rewrite deleted_store_lrange.
    rewrite decide_False, decide_False, decide_True by done.
    apply NoDup_filter, (tidy_global_once s Ht).
  - intros u. rewrite deleted_store_lrange. rewrite decide_False by done.
    repeat case_decide; try apply NoDup_filter; by apply (tidy_author_once s Ht).
  - intros pid id. rewrite Hc, deleted_store_lrange.
    destruct (decide (post_comments postId = post_comments pid)) as [_ | _];
      [by intros ?%elem_of_nil |].
    rewrite !decide_False by done. by apply (tidy_comments s Ht).
  - intros pid. rewrite deleted_store_lrange.
    destruct (decide (post_comments postId = post_comments pid)) as [_ | _];
      [apply NoDup_nil_2 |].
    rewrite !decide_False by done. by apply (tidy_comments_once s Ht).
Qed.

Lemma tidy_comment commentId now content postId userId user s :
  commentId ≠ "" → comment_hashes s !! commentId = None → tidy s →
  tidy (handler Date_getTime (CreateComment commentId now content postId userId user) s).2.
Proof.
  intros Hne Hfresh Ht. unfold handler, route.
  destruct (post_found_or_not postId s) as [(P & HP & Hid) | Hnf];
    [| by rewrite handleCreateComment_not_found].
  destruct (truthy_opt content) eqn:Hc;
    [| by rewrite (handleCreateComment_rejects _ _ _ _ _ _ _ P)].
  destruct content as [text |]; [| done].
  rewrite (handleCreateComment_run _ _ _ _ _ _ _ P text) by done. simpl.
  set (c := mkComment commentId postId text userId (authorName_of user) now).
  assert (∀ k, Redis.lrange k (commented_store commentId postId userId c s)
               = if decide (k = post_comments postId ∨ k = user_comments userId)
                 then commentId :: Redis.lrange k s else Redis.lrange k s) as Hl.
  { intros k. unfold commented_store. rewrite !lrange_lpush.
    change (Redis.lrange k (exec (Redis.hset_comment commentId c) s))
      with (Redis.lrange k s).
    repeat case_decide; naive_solver. }
  assert (∀ pid, commentId ∉ Redis.lrange (post_comments pid) s) as Hnew.
  { intros pid (c' & Hc' & _)%(tidy_comments s Ht). congruence. }
  split.
  - apply (tidy_id s Ht).
  - intros id. rewrite Hl, decide_False by (by intros [[=] | [=]]).
    apply (tidy_global s Ht).
  - intros u id. rewrite Hl, decide_False by (by intros [[=] | [=]]).
    apply (tidy_author s Ht).
  - apply (tidy_category s Ht).
  - apply (tidy_tag s Ht).
  - apply (tidy_bookmarks s Ht).
  - rewrite Hl, decide_False by (by intros [[=] | [=]]).
    apply (tidy_global_once s Ht).
  - intros u. rewrite Hl, decide_False by (by intros [[=] | [=]]).
    apply (tidy_author_once s Ht).
  - intros pid id. rewrite Hl.
    change (comment_hashes (commented_store commentId postId userId c s))
      with (<[commentId := c]> (comment_hashes s)).
    rewrite lookup_insert.
    destruct (decide (commentId = id)) as [<- | Hcid].
    + intros Hin. exists c. split; [done |]. split; [done |]. split; [done |].
      case_decide as Hk; [by destruct Hk as [[= ->] | [=]] |]. by apply Hnew in Hin.
    + case_decide as Hk; [| by apply (tidy_comments s Ht)].
      intros [-> | Hin]%elem_of_cons; [done | by apply (tidy_comments s Ht)].
  - intros pid. rewrite Hl.
    case_decide; [| by apply (tidy_comments_once s Ht)].
    apply NoDup_cons. split; [by apply Hnew | by apply (tidy_comments_once s Ht)].
Qed.

Lemma tidy_like action postId userId s :
  tidy s → tidy (handler Date_getTime (LikePost action postId userId) s).2.
Proof.
  intros Ht. unfold handler, route.
  destruct (handleLikePost_members action postId userId s)
    as (r & s' & -> & Hh & Hc & Hl & Hs). simpl.
  assert (∀ k, Redis.lrange k s' = Redis.lrange k s) as Hlr
    by (intros k; unfold Redis.lrange; by rewrite Hl).
  destruct Ht.
  split; intros *; rewrite ?Hh, ?Hc, ?Hlr, ?Hs by done; eauto.
Qed.

Lemma tidy_bookmark action postId userId s :
  tidy s → tidy (handler Date_getTime (BookmarkPost action postId userId) s).2.
Proof.
  intros Ht. unfold handler, route.
  destruct (handleBookmarkPost_members action postId userId s)
    as (r & s' & -> & Hh & Hc & Hl & Hs & Hb). simpl.
  assert (∀ k, Redis.lrange k s' = Redis.lrange k s) as Hlr
    by (intros k; unfold Redis.lrange; by rewrite Hl).
  pose proof (tidy_bookmarks s Ht) as Hmarks. destruct Ht.
  split; intros *; rewrite ?Hh, ?Hc, ?Hlr; try (rewrite Hs by done); eauto.
  destruct (decide (u = userId)) as [-> | Hu];
    [| rewrite Hs by congruence; by apply Hmarks].
  intros [Hin | [-> HP]]%Hb; [by apply (Hmarks userId) | done].
Qed.

Lemma reachable_fresh_reachable s :
  reachable_fresh Date_getTime s → reachable Date_getTime s.
Proof. induction 1; by constructor. Qed.

Lemma handler_reads_keep_store req s :
  match req with GetPosts _ | GetPost _ | GetComments _ => True | _ => False end →
  (handler Date_getTime req s).2 = s.
Proof. by destruct req. Qed.

Lemma handler_store req s :
  (handler Date_getTime req s).2 = exec (route Date_getTime req) s.
Proof. unfold handler, exec. by destruct (route Date_getTime req s) as [[r |] s']. Qed.

Lemma fresh_step_exec req s :
  reachable_fresh Date_getTime s → fresh_ids req s →
  reachable_fresh Date_getTime (exec (route Date_getTime req) s).
Proof. intros Hs Hfresh. rewrite <- handler_store. by apply fresh_step. Qed.

Lemma reachable_fresh_tidy s : reachable_fresh Date_getTime s → tidy s.
Proof.
  induction 1 as [| s req Hs IH Hfresh]; [apply tidy_empty |].
  pose proof (reachable_inv Date_getTime s (reachable_fresh_reachable s Hs)) as Hinv.
  destruct req; try (by rewrite handler_reads_keep_store).
  - destruct Hfresh. by apply tidy_create.
  - by apply tidy_update.
  - by apply tidy_delete.
  - destruct Hfresh. by apply tidy_comment.
  - by apply tidy_like.
  - by apply tidy_bookmark.
Qed.

End Tidy.

Example store_p1_fresh : reachable_fresh no_clock store_p1.
Proof.
  apply (fresh_step_exec no_clock (CreatePost "p1" "d0" showcase_body "u1" ann));
    [apply fresh_empty | by split].
Qed.

Example store_p3_fresh : reachable_fresh no_clock store_p3.
Proof.
  apply (fresh_step_exec no_clock (CreatePost "p3" "d4" idea_body "u1" ann));
    [apply store_p1_fresh | split; [discriminate | by vm_compute]].
Qed.

Example store_p1_commented_fresh : reachable_fresh no_clock store_p1_commented.
Proof.
  apply (fresh_step_exec no_clock
           (CreateComment "c2" "d2" (Some "second") "p1" "u1" ann));
    [| split; [discriminate | by vm_compute]].
  apply (fresh_step_exec no_clock
           (CreateComment "c1" "d1" (Some "first") "p1" "u2" bob));
    [apply store_p1_fresh | split; [discriminate | by vm_compute]].
Qed.





(** ** Listings of a store made with fresh ids *)

Lemma omap_all_loaded {A} (load : string → option A) (name : A → string)
    (ids : list string) :
  (∀ id, id ∈ ids → ∃ v, load id = Some v ∧ name v = id) →
  name <$> omap load ids = ids ∧ length (omap load ids) = length ids.
Proof.
  induction ids as [| id ids IH]; intros Hall; [done |].
  destruct (Hall id) as (v & Hv & Hname); [by left |].
  destruct IH as [IH1 IH2]; [intros id' Hin; apply Hall; by right |].
  change (omap load (id :: ids))
    with (match load id with Some y => y :: omap load ids | None => omap load ids end).
  rewrite Hv. split; [by rewrite fmap_cons, Hname, IH1 | simpl; by rewrite IH2].
Qed.

Lemma filter_all {A} (P : A → Prop) `{∀ x, Decision (P x)} (l : list A) :
  (∀ x, P x) → filter P l = l.
Proof.
  intros HP. induction l as [| x l IH]; [done |].
  by rewrite filter_cons_True, IH.
Qed.




